(** * Midnight Tracker: booking extraction and merge engine

    A shallow embedding of the booking sync script and of the one-off
    backfill script (.github/scripts/backfill-bookings.js), and the
    properties of the reconciliation engine stated over it.

    Conventions of the embedding.
    - A JS string is a [string]: a sequence of code units below 256.
    - A JS object read from the record store has optional fields: a field
      that is absent ([undefined]) is [None].  The JS truthiness tests of
      the source are written out ([truthyS], [truthyB], [truthyN]).
    - A [Date] is its time value, the number of milliseconds since the
      epoch; the local time zone is UTC, as on the runners that execute
      both scripts.
    - The record store is a finite map from the day's ISO date to its
      record; the update set is a finite map with the same keys (the
      source prefixes each key with the constant path [locations/]). *)

From Stdlib Require Import ZArith Ascii String List Bool Lia.
From Stdlib Require DecimalString.
From stdpp Require Import base option gmap strings list fin_maps sorting.

Local Open Scope Z_scope.

(** ** Strings as JavaScript sees them *)

Module Js.

(** [x || d] on a possibly absent string. *)
Definition truthyS (o : option string) : bool :=
  match o with
  | Some s => negb (String.eqb s "")
  | None => false
  end.

Definition truthyB (o : option bool) : bool :=
  match o with
  | Some b => b
  | None => false
  end.

Definition truthyN (o : option Z) : bool :=
  match o with
  | Some n => negb (n =? 0)
  | None => false
  end.

(** [o || d] where [d] is a string. *)
Definition orS (o : option string) (d : string) : string :=
  match o with
  | Some s => if String.eqb s "" then d else s
  | None => d
  end.

(** [s.includes(sub)] *)
Fixpoint includes (s sub : string) : bool :=
  String.prefix sub s ||
  match s with
  | EmptyString => false
  | String _ t => includes t sub
  end.

(** [s.slice(0, n)] *)
Definition slice0 (n : nat) (s : string) : string := String.substring 0 n s.

(** [\s] on code units below 256. *)
Definition isSpace (c : ascii) : bool :=
  let n := nat_of_ascii c in
  ((9 <=? n) && (n <=? 13) || (n =? 32) || (n =? 160))%nat.

Definition isDigit (c : ascii) : bool :=
  let n := nat_of_ascii c in ((48 <=? n) && (n <=? 57))%nat.

Definition isUpper (c : ascii) : bool :=
  let n := nat_of_ascii c in ((65 <=? n) && (n <=? 90))%nat.

Definition isLower (c : ascii) : bool :=
  let n := nat_of_ascii c in ((97 <=? n) && (n <=? 122))%nat.

(** [\w] *)
Definition isWord (c : ascii) : bool :=
  isUpper c || isLower c || isDigit c || Ascii.eqb c "_".

(** [toUpperCase] on one code unit: the ASCII letters and the accented
    letters of the upper half.  The three code units whose upper case
    lies above 255 or has two letters (181, 223, 255) are left as they
    are; the texts of the properties below are ASCII. *)
Definition upper (c : ascii) : ascii :=
  let n := nat_of_ascii c in
  if isLower c || ((224 <=? n) && (n <=? 254) && negb (n =? 247))%nat
  then ascii_of_nat (n - 32) else c.

Fixpoint toUpperCase (s : string) : string :=
  match s with
  | EmptyString => EmptyString
  | String c t => String (upper c) (toUpperCase t)
  end.

(** [l.join(sep)] *)
Definition join (sep : string) (l : list string) : string := String.concat sep l.

(** [[...new Set(l)]]: the distinct elements in first-seen order. *)
Fixpoint uniqFrom (seen l : list string) : list string :=
  match l with
  | [] => []
  | x :: t =>
      if bool_decide (x ∈ seen) then uniqFrom seen t
      else x :: uniqFrom (x :: seen) t
  end.

Definition uniq (l : list string) : list string := uniqFrom [] l.

End Js.

(** ** mergeFlights *)

(** The separator class of [/[,\s]+/]. *)
Definition isSep (c : ascii) : bool := Ascii.eqb c "," || Js.isSpace c.

(** [s.split(/[,\s]+/)]: [tok] is the piece being read and [inSep] tells
    whether the previous code unit was a separator. *)
Fixpoint splitSepFrom (s tok : string) (inSep : bool) : list string :=
  match s with
  | EmptyString => [tok]
  | String c t =>
      if isSep c then
        if inSep then splitSepFrom t tok true
        else tok :: splitSepFrom t "" true
      else splitSepFrom t (tok +:+ String c "") false
  end.

Definition splitSep (s : string) : list string := splitSepFrom s "" false.

(** [.filter(Boolean)] on strings. *)
Definition nonEmpty (s : string) : bool := negb (String.eqb s "").

(** The flight designators a comma-joined field holds. *)
Definition flightTokens (s : string) : list string := filter (fun t => nonEmpty t = true) (splitSep s).

Definition mergeFlights (existing : option string) (newFlights : string) : string :=
  if negb (Js.truthyS existing) && negb (nonEmpty newFlights) then ""
  else if negb (Js.truthyS existing) then newFlights
  else if negb (nonEmpty newFlights) then Js.orS existing ""
  else
    Js.join ", " (Js.uniq (flightTokens (Js.orS existing "") ++ flightTokens newFlights)).

(** ** Data model *)

Inductive BookingType := flight | hotel.
Inductive Source := calendar | email.

Definition typeName (t : BookingType) : string :=
  match t with flight => "flight" | hotel => "hotel" end.

Definition sourceName (s : Source) : string :=
  match s with calendar => "calendar" | email => "email" end.

(** The object literal pushed by [processCalendar] and
    [processEmailsFromFolder]; every field is always present. *)
Record Booking := mkBooking {
  b_type : BookingType;
  b_date : string;
  b_flights : string;
  b_city : string;
  b_country : string;
  b_place : string;
  b_source : Source;
  b_raw : string
}.

(** One day's record of the store, [existing[dateStr]].  [lat] and [lon]
    are carried as numbers whose only use here is their truthiness. *)
Record LocationRecord := mkRecord {
  place : option string;
  city : option string;
  country : option string;
  flights : option string;
  notes : option string;
  lat : option Z;
  lon : option Z;
  working : option bool;
  autoGps : option bool;
  autoBooking : option bool;
  bookingSource : option string;
  countryConflict : option string
}.

#[global] Instance BookingType_eq_dec : EqDecision BookingType.
Proof. solve_decision. Defined.
#[global] Instance Source_eq_dec : EqDecision Source.
Proof. solve_decision. Defined.
#[global] Instance Booking_eq_dec : EqDecision Booking.
Proof. solve_decision. Defined.
#[global] Instance LocationRecord_eq_dec : EqDecision LocationRecord.
Proof. solve_decision. Defined.

(** The two scripts of the repository that carry the engine.  Their
    [updateFirebase] differ in the country-conflict block only, their
    [processEmailsFromFolder] in the tax-year floor and in the number of
    dates a hotel email needs. *)
Inductive Script := SyncBookings | BackfillBookings.

(** ** updateFirebase *)

(** [current?.f] *)
Definition fieldOf {A} (current : option LocationRecord) (f : LocationRecord → option A) : option A :=
  current ≫= f.

(** [current && current.city && !current.autoGps && !current.autoBooking] *)
Definition isManual (current : option LocationRecord) : bool :=
  match current with
  | Some r => Js.truthyS (city r) && negb (Js.truthyB (autoGps r)) && negb (Js.truthyB (autoBooking r))
  | None => false
  end.

Definition sourceInfo (booking : Booking) : string :=
  sourceName (b_source booking) +:+ ": " +:+ Js.slice0 120 (b_raw booking).

Definition combinedSource (current : option LocationRecord) (booking : Booking) : string :=
  let existingSource := Js.orS (fieldOf current bookingSource) "" in
  if nonEmpty existingSource then
    if Js.includes existingSource (sourceInfo booking) then existingSource
    else existingSource +:+ " | " +:+ sourceInfo booking
  else sourceInfo booking.

(** The country-conflict block of the sync script; the backfill script
    has no such block. *)
Definition conflictOf (sc : Script) (current : option LocationRecord) (booking : Booking) : option string :=
  match sc with
  | SyncBookings =>
      if Js.truthyB (fieldOf current autoGps) && Js.truthyS (fieldOf current country)
         && nonEmpty (b_country booking)
         && negb (bool_decide (fieldOf current country = Some (b_country booking)))
      then Some ("GPS says " +:+ Js.orS (fieldOf current country) "" +:+ ", booking says " +:+ b_country booking)
      else None
  | BackfillBookings => None
  end.

(** The [entry] object, after the "preserve existing fields" assignments
    and the conflict block. *)
Definition mergeEntry (sc : Script) (current : option LocationRecord) (booking : Booking) : LocationRecord :=
  {| place := Some (Js.orS (fieldOf current place) (b_place booking));
     city := Some (Js.orS (fieldOf current city) (b_city booking));
     country := Some (Js.orS (fieldOf current country) (b_country booking));
     flights := Some (mergeFlights (fieldOf current flights) (b_flights booking));
     notes := Some (Js.orS (fieldOf current notes) "");
     lat := if Js.truthyN (fieldOf current lat) then fieldOf current lat else None;
     lon := if Js.truthyN (fieldOf current lon) then fieldOf current lon else None;
     working := if Js.truthyB (fieldOf current working) then fieldOf current working else None;
     autoGps := if Js.truthyB (fieldOf current autoGps) then fieldOf current autoGps else None;
     autoBooking := Some true;
     bookingSource := Some (combinedSource current booking);
     countryConflict := conflictOf sc current booking |}.

Definition hasNew (current : option LocationRecord) (entry : LocationRecord) : bool :=
  match current with
  | None => true
  | Some cur =>
      negb (Js.truthyS (place cur)) && Js.truthyS (place entry)
      || negb (Js.truthyS (city cur)) && Js.truthyS (city entry)
      || negb (Js.truthyS (flights cur)) && Js.truthyS (flights entry)
      || Js.truthyS (flights entry) && negb (bool_decide (flights entry = flights cur))
      || negb (Js.truthyS (bookingSource cur)) && Js.truthyS (bookingSource entry)
  end.

(** The loop state: the update set and the three counters. *)
Record SyncState := mkState {
  updates : gmap string LocationRecord;
  newCount : nat;
  mergedCount : nat;
  skippedCount : nat
}.

Definition emptyState : SyncState :=
  {| updates := ∅; newCount := 0; mergedCount := 0; skippedCount := 0 |}.

Definition skip (st : SyncState) : SyncState :=
  {| updates := updates st; newCount := newCount st;
     mergedCount := mergedCount st; skippedCount := S (skippedCount st) |}.

(** One iteration of [for (const booking of bookings)]. *)
Definition updateStep (sc : Script) (existing : gmap string LocationRecord)
    (st : SyncState) (booking : Booking) : SyncState :=
  let dateStr := b_date booking in
  let current := existing !! dateStr in
  if isManual current then skip st
  else
    let entry := mergeEntry sc current booking in
    if hasNew current entry then
      {| updates := <[dateStr := entry]> (updates st);
         newCount := match current with Some _ => newCount st | None => S (newCount st) end;
         mergedCount := match current with Some _ => S (mergedCount st) | None => mergedCount st end;
         skippedCount := skippedCount st |}
    else skip st.

(** [updateFirebase] up to the write: the update set and the counters.
    With no booking the function returns at once, which is the empty
    state as well. *)
Definition updateFirebase (sc : Script) (existing : gmap string LocationRecord)
    (bookings : list Booking) : SyncState :=
  fold_left (updateStep sc existing) bookings emptyState.

(** [db.ref().update(updates)]: every path of the update set is
    overwritten, every other record is left as it is.  The keys are the
    dates [fmtDate] prints, which hold no [/], so that a path never
    reaches into the record of another day. *)
Definition applyUpdates (existing upd : gmap string LocationRecord) : gmap string LocationRecord :=
  upd ∪ existing.

(** One run of the engine against the store. *)
Definition reconcile (sc : Script) (existing : gmap string LocationRecord)
    (bookings : list Booking) : gmap string LocationRecord :=
  applyUpdates existing (updates (updateFirebase sc existing bookings)).

(** ** Dates *)

(** A [Date] object is its time value in milliseconds; the zone is UTC. *)
Definition Date := Z.

Definition msPerDay : Z := 86400000.

(** [Day(t)] of ECMA-262: the day number of a time value. *)
Definition dayOf (t : Date) : Z := t / msPerDay.

(** Year, month (1 to 12) and day of the month of a day number, in the
    proleptic Gregorian calendar. *)
Definition civilFromDays (days : Z) : Z * Z * Z :=
  let z := days + 719468 in
  let era := z / 146097 in
  let doe := z - era * 146097 in
  let yoe := (doe - doe / 1460 + doe / 36524 - doe / 146096) / 365 in
  let doy := doe - (365 * yoe + yoe / 4 - yoe / 100) in
  let mp := (5 * doy + 2) / 153 in
  let d := doy - (153 * mp + 2) / 5 + 1 in
  let m := if mp <? 10 then mp + 3 else mp - 9 in
  let y := yoe + era * 400 + (if m <=? 2 then 1 else 0) in
  (y, m, d).

Definition getFullYear (d : Date) : Z := fst (fst (civilFromDays (dayOf d))).
(** [getMonth] counts from zero. *)
Definition getMonth (d : Date) : Z := snd (fst (civilFromDays (dayOf d))) - 1.
Definition getDate (d : Date) : Z := snd (civilFromDays (dayOf d)).

(** [String(n)] for an integer. *)
Definition numToString (n : Z) : string :=
  DecimalString.NilZero.string_of_int (Z.to_int n).

(** [String(n).padStart(2, '0')] *)
Definition pad2 (n : Z) : string :=
  let s := numToString n in
  if (String.length s <? 2)%nat then "0" +:+ s else s.

Definition fmtDate (d : Date) : string :=
  numToString (getFullYear d) +:+ "-" +:+ pad2 (getMonth d + 1) +:+ "-" +:+ pad2 (getDate d).

(** The [while (d <= e)] loop of [dateRange]; [d.setDate(d.getDate() + 1)]
    moves the time value one day ahead. *)
Fixpoint dateRangeLoop (fuel : nat) (d e : Date) : list string :=
  match fuel with
  | O => []
  | S fuel' =>
      if d <=? e then fmtDate d :: dateRangeLoop fuel' (d + msPerDay) e
      else []
  end.

(** The number of iterations after which the loop of [dateRange] has
    left. *)
Definition dateRangeSteps (start end_ : Date) : nat :=
  Z.to_nat ((end_ - start) / msPerDay + 1).

Definition dateRange (start end_ : Date) : list string :=
  dateRangeLoop (dateRangeSteps start end_) start end_.

(** [dateRange(checkIn, new Date(checkOut.getTime() - 86400000))], the
    nights of a stay as both scripts compute them. *)
Definition nights (checkIn checkOut : Date) : list string :=
  dateRange checkIn (checkOut - 86400000).

(** ** Regular expressions

    The backtracking matcher of ECMA-262 for the constructs the two
    scripts use, written with continuations: a matcher takes the state
    and what remains to be matched after it. *)

Module Re.

Inductive re : Type :=
| Eps
| Chr (p : ascii → bool)
| Seq (r1 r2 : re)
| Alt (r1 r2 : re)
| Rep (greedy : bool) (lo : nat) (hi : option nat) (r : re)
| Grp (i : nat) (r : re)
| Bnd
| Eoi.

(** The code unit before the current position, the rest of the input
    and the captures made so far. *)
Record mstate := mkM {
  before : option ascii;
  rest : list ascii;
  caps : list (nat * string)
}.

Definition cont := mstate → option mstate.

Definition isWordAt (c : option ascii) : bool :=
  match c with Some a => Js.isWord a | None => false end.

Definition consumed (s s' : mstate) : string :=
  string_of_list_ascii (take (length (rest s) - length (rest s')) (rest s)).

(** RepeatMatcher: [n] bounds the iterations still possible, every one
    of them past the first [lo] has to consume input. *)
Fixpoint rep (m : mstate → cont → option mstate) (greedy : bool)
    (lo : nat) (hi : option nat) (n : nat) (s : mstate) (k : cont) : option mstate :=
  match n with
  | O => match lo with O => k s | S _ => None end
  | S n' =>
      match hi with
      | Some O => k s
      | _ =>
          let again :=
            m s (fun s' =>
              if Nat.eqb lo 0 && Nat.eqb (length (rest s')) (length (rest s)) then None
              else rep m greedy (Nat.pred lo) (Nat.pred <$> hi) n' s' k) in
          match lo with
          | S _ => again
          | O =>
              if greedy then
                match again with Some z => Some z | None => k s end
              else
                match k s with Some z => Some z | None => again end
          end
      end
  end.

Fixpoint run (r : re) (s : mstate) (k : cont) : option mstate :=
  match r with
  | Eps => k s
  | Chr p =>
      match rest s with
      | c :: t => if p c then k (mkM (Some c) t (caps s)) else None
      | [] => None
      end
  | Seq r1 r2 => run r1 s (fun s' => run r2 s' k)
  | Alt r1 r2 =>
      match run r1 s k with
      | Some z => Some z
      | None => run r2 s k
      end
  | Rep greedy lo hi r1 =>
      rep (run r1) greedy lo hi (lo + length (rest s) + 1) s k
  | Grp i r1 =>
      run r1 s (fun s' => k (mkM (before s') (rest s') ((i, consumed s s') :: caps s')))
  | Bnd =>
      if xorb (isWordAt (before s)) (isWordAt (head (rest s))) then k s else None
  | Eoi =>
      match rest s with
      | [] => k s
      | _ :: _ => None
      end
  end.

(** A successful [exec]: where the match starts, [m[0]], the state at
    its end. *)
Record found := mkFound {
  startAt : nat;
  whole : string;
  final : mstate
}.

(** [m[i]] of the match, [None] when the group took no part. *)
Fixpoint lookupCap (i : nat) (l : list (nat * string)) : option string :=
  match l with
  | [] => None
  | (j, v) :: t => if Nat.eqb i j then Some v else lookupCap i t
  end.

Definition group (i : nat) (f : found) : option string := lookupCap i (caps (final f)).

(** The first position from which [r] matches. *)
Fixpoint execAt (r : re) (prev : option ascii) (s : list ascii) (pos : nat) : option found :=
  let s0 := mkM prev s [] in
  match run r s0 Some with
  | Some z => Some (mkFound pos (consumed s0 z) z)
  | None =>
      match s with
      | [] => None
      | c :: t => execAt r (Some c) t (S pos)
      end
  end.

(** [r.exec(text)] on a fresh expression. *)
Definition exec (r : re) (text : string) : option found :=
  execAt r None (list_ascii_of_string text) 0.

(** [r.test(text)] *)
Definition test (r : re) (text : string) : bool :=
  match exec r text with Some _ => true | None => false end.

(** [while ((m = r.exec(text)) !== null)] for a global expression: the
    next search starts where the last match ended.  A match that
    consumes nothing would make the source loop for ever; none of the
    expressions below can match the empty string, and the scan stops
    there. *)
Fixpoint scanFrom (fuel : nat) (r : re) (prev : option ascii) (s : list ascii) (pos : nat) : list found :=
  match fuel with
  | O => []
  | S fuel' =>
      match execAt r prev s pos with
      | None => []
      | Some f =>
          let z := final f in
          if (length (rest z) <? length s)%nat then
            f :: scanFrom fuel' r (before z) (rest z) (startAt f + String.length (whole f))
          else [f]
      end
  end.

Definition scan (r : re) (text : string) : list found :=
  scanFrom (S (String.length text)) r None (list_ascii_of_string text) 0.

(** *** Building expressions *)

Fixpoint seqs (l : list re) : re :=
  match l with
  | [] => Eps
  | [r] => r
  | r :: t => Seq r (seqs t)
  end.

Fixpoint alts (l : list re) : re :=
  match l with
  | [] => Chr (fun _ => false)
  | [r] => r
  | r :: t => Alt r (alts t)
  end.

(** A literal, case-sensitive. *)
Fixpoint lit (s : string) : re :=
  match s with
  | EmptyString => Eps
  | String c EmptyString => Chr (Ascii.eqb c)
  | String c t => Seq (Chr (Ascii.eqb c)) (lit t)
  end.

(** A literal under the [i] flag: code units are compared after
    [toUpperCase]. *)
Fixpoint liti (s : string) : re :=
  match s with
  | EmptyString => Eps
  | String c EmptyString => Chr (fun x => Ascii.eqb (Js.upper x) (Js.upper c))
  | String c t => Seq (Chr (fun x => Ascii.eqb (Js.upper x) (Js.upper c))) (liti t)
  end.

Definition opt (r : re) : re := Rep true 0 (Some 1%nat) r.
Definition star (r : re) : re := Rep true 0 None r.
Definition plus (r : re) : re := Rep true 1 None r.
Definition lazyPlus (r : re) : re := Rep false 1 None r.
Definition times (lo hi : nat) (r : re) : re := Rep true lo (Some hi) r.

(** [.]: every code unit but a line terminator. *)
Definition dot : re := Chr (fun c => negb (Ascii.eqb c "010" || Ascii.eqb c "013")).
Definition space : re := Chr Js.isSpace.
Definition digit : re := Chr Js.isDigit.
(** [[A-Z]] and [[a-z]], and [[A-Z]] under the [i] flag. *)
Definition upperAZ : re := Chr Js.isUpper.
Definition lowerAZ : re := Chr Js.isLower.
Definition letter : re := Chr (fun c => Js.isUpper c || Js.isLower c).
(** A character of the source above code unit 255 (an arrow, a long
    dash): no code unit of the input is equal to it. *)
Definition beyond : re := Chr (fun _ => false).

End Re.

Import Re.

(** [/\b([A-Z]{2})\s*(\d{1,4})\b/g] *)
Definition flightPattern : re :=
  seqs [Bnd; Grp 1 (times 2 2 upperAZ); star space; Grp 2 (times 1 4 digit); Bnd].

(** [m[1] + m[2]] *)
Definition flightCode (f : found) : string :=
  Js.orS (group 1 f) "" +:+ Js.orS (group 2 f) "".

Definition extractFlights (text : string) : list string :=
  if nonEmpty text then Js.uniq (flightCode <$> scan flightPattern text)
  else [].

(** ** The airport table and the other extractors *)

Record Place := mkPlace { p_city : string; p_country : string }.

Definition AIRPORTS : list (string * Place) :=
  [ ("LHR", mkPlace "London" "UK"); ("LGW", mkPlace "London" "UK");
    ("STN", mkPlace "London" "UK"); ("LTN", mkPlace "London" "UK");
    ("LCY", mkPlace "London" "UK"); ("MXP", mkPlace "Milan" "Italy");
    ("FCO", mkPlace "Rome" "Italy"); ("BKK", mkPlace "Bangkok" "Thailand");
    ("DMK", mkPlace "Bangkok" "Thailand"); ("CDG", mkPlace "Paris" "France");
    ("ORY", mkPlace "Paris" "France"); ("AMS", mkPlace "Amsterdam" "Netherlands");
    ("FRA", mkPlace "Frankfurt" "Germany"); ("MUC", mkPlace "Munich" "Germany");
    ("BCN", mkPlace "Barcelona" "Spain"); ("MAD", mkPlace "Madrid" "Spain");
    ("ZRH", mkPlace "Zurich" "Switzerland"); ("GVA", mkPlace "Geneva" "Switzerland");
    ("IST", mkPlace "Istanbul" "Turkey"); ("DXB", mkPlace "Dubai" "UAE");
    ("SIN", mkPlace "Singapore" "Singapore"); ("HKG", mkPlace "Hong Kong" "Hong Kong");
    ("NRT", mkPlace "Tokyo" "Japan"); ("HND", mkPlace "Tokyo" "Japan");
    ("ICN", mkPlace "Seoul" "South Korea"); ("TPE", mkPlace "Taipei" "Taiwan");
    ("DEL", mkPlace "Delhi" "India"); ("BOM", mkPlace "Mumbai" "India");
    ("JFK", mkPlace "New York" "USA"); ("LAX", mkPlace "Los Angeles" "USA");
    ("SFO", mkPlace "San Francisco" "USA"); ("ORD", mkPlace "Chicago" "USA");
    ("SYD", mkPlace "Sydney" "Australia"); ("MEL", mkPlace "Melbourne" "Australia");
    ("YYZ", mkPlace "Toronto" "Canada"); ("LIS", mkPlace "Lisbon" "Portugal");
    ("ATH", mkPlace "Athens" "Greece"); ("VCE", mkPlace "Venice" "Italy");
    ("NAP", mkPlace "Naples" "Italy"); ("BGY", mkPlace "Milan" "Italy");
    ("LIN", mkPlace "Milan" "Italy"); ("PMO", mkPlace "Palermo" "Italy");
    ("CTA", mkPlace "Catania" "Italy"); ("BHX", mkPlace "Birmingham" "UK");
    ("MAN", mkPlace "Manchester" "UK"); ("EDI", mkPlace "Edinburgh" "UK");
    ("OXF", mkPlace "Oxford" "UK") ].

(** [AIRPORTS[code]] *)
Fixpoint airport (code : string) (table : list (string * Place)) : option Place :=
  match table with
  | [] => None
  | (k, v) :: t => if String.eqb k code then Some v else airport code t
  end.

(** [new RegExp('\\b' + code + '\\b', 'g')] *)
Definition codePattern (code : string) : re := seqs [Bnd; lit code; Bnd].

Definition extractAirports (text : string) : list string :=
  if nonEmpty text then
    filter (fun code => test (codePattern code) text = true) (fst <$> AIRPORTS)
  else [].

(** [/\b([A-Z]{3})\s*(?:to|→|->|>|–|—)\s*([A-Z]{3})\b/gi] *)
Definition routePattern : re :=
  seqs [Bnd; Grp 1 (times 3 3 letter); star space;
        alts [liti "to"; beyond; lit "->"; lit ">"; beyond; beyond];
        star space; Grp 2 (times 3 3 letter); Bnd].

(** [/(?:arriving|arr\.?|destination)\s*:?\s*([A-Z]{3})\b/gi] *)
Definition arrivingPattern : re :=
  seqs [alts [liti "arriving"; Seq (liti "arr") (opt (lit ".")); liti "destination"];
        star space; opt (lit ":"); star space; Grp 1 (times 3 3 letter); Bnd].

(** One round of [for (const pat of patterns)] in [extractDestination]. *)
Definition destinationBy (pat : re) (text : string) : option Place :=
  match exec pat text with
  | Some m =>
      let dest := if Js.truthyS (group 2 m) then Js.orS (group 2 m) "" else Js.orS (group 1 m) "" in
      airport (Js.toUpperCase dest) AIRPORTS
  | None => None
  end.

Definition extractDestination (text : string) : option Place :=
  if nonEmpty text then
    match destinationBy routePattern text with
    | Some p => Some p
    | None =>
        match destinationBy arrivingPattern text with
        | Some p => Some p
        | None =>
            let airports := extractAirports (Js.toUpperCase text) in
            if (2 <=? length airports)%nat then last airports ≫= (fun code => airport code AIRPORTS)
            else
              match airports with
              | [code] => airport code AIRPORTS
              | _ => None
              end
        end
    end
  else None.

(** The delimiter class [[-–|,]]; the long dash is above code unit 255. *)
Definition delim : re :=
  Chr (fun c => Ascii.eqb c "-" || Ascii.eqb c "|" || Ascii.eqb c ",").

Definition hotelPatterns : list re :=
  [ seqs [alts [liti "booking"; liti "reservation"; liti "confirmation"]; plus space;
          alts [liti "at"; liti "for"]; plus space; Grp 1 (lazyPlus dot);
          alts [Seq (star space) delim; seqs [plus space; liti "in"; plus space];
                seqs [plus space; liti "on"; plus space]; Eoi]];
    seqs [alts [liti "hotel"; liti "resort"; liti "inn"; liti "lodge"; liti "hostel";
                liti "apartment"; liti "residence"; Seq (liti "suite") (opt (liti "s"))];
          star space; opt (lit ":"); star space; Grp 1 (lazyPlus dot);
          alts [Seq (star space) delim; Eoi]];
    seqs [alts [liti "your stay at"; seqs [liti "check"; opt dot; liti "in at"]; liti "welcome to"];
          plus space; Grp 1 (lazyPlus dot);
          alts [Seq (star space) delim; seqs [plus space; liti "on"; plus space]; Eoi]] ].

(** [s.trim()] *)
Fixpoint trimStart (s : string) : string :=
  match s with
  | String c t => if Js.isSpace c then trimStart t else s
  | EmptyString => EmptyString
  end.

Definition revString (s : string) : string :=
  string_of_list_ascii (rev (list_ascii_of_string s)).

Definition trim (s : string) : string :=
  revString (trimStart (revString (trimStart s))).

Fixpoint firstHotelName (pats : list re) (text : string) : option string :=
  match pats with
  | [] => None
  | pat :: more =>
      match exec pat text with
      | Some m =>
          let name := trim (Js.orS (group 1 m) "") in
          if (2 <? String.length name)%nat && (String.length name <? 80)%nat then Some name
          else firstHotelName more text
      | None => firstHotelName more text
      end
  end.

Definition extractHotelName (text : string) : option string :=
  if nonEmpty text then firstHotelName hotelPatterns text else None.

(** [/\bin\s+([A-Z][a-z]+(?:\s+[A-Z][a-z]+)?)/] *)
Definition cityPattern : re :=
  seqs [Bnd; lit "in"; plus space;
        Grp 1 (seqs [upperAZ; plus lowerAZ; opt (seqs [plus space; upperAZ; plus lowerAZ])])].

Definition extractCity (text : string) : option string :=
  if nonEmpty text then
    match exec cityPattern text with
    | Some m => group 1 m
    | None => None
    end
  else None.

(** ** Classification *)

Definition carRentalPattern : re :=
  seqs [Bnd;
        Grp 1 (alts [seqs [liti "car"; star space; liti "rental"]; liti "hertz"; liti "avis";
                     liti "europcar"; liti "sixt"; liti "enterprise";
                     seqs [liti "rent"; opt dot; liti "a"; opt dot; liti "car"];
                     seqs [liti "pick"; opt dot; liti "up"; star dot; liti "drop"; opt dot; liti "off"];
                     seqs [liti "vehicle"; star space; liti "collect"]])].

Definition isCarRental (allText : string) : bool := test carRentalPattern allText.

Definition carrier (code : string) : re := Seq (liti code) digit.

Definition calendarFlightPattern : re :=
  seqs [Bnd;
        Grp 1 (alts [liti "flight"; liti "fly"; liti "depart"; liti "arrive"; liti "airport";
                     liti "boarding"; carrier "BA"; carrier "EK"; carrier "LH"; carrier "AF";
                     carrier "AZ"; carrier "FR"; carrier "U2"; carrier "QR"; carrier "EY";
                     carrier "SQ"; carrier "CX"; carrier "TK"])].

Definition calendarHotelPattern : re :=
  seqs [Bnd;
        Grp 1 (alts [liti "hotel"; seqs [liti "check"; opt dot; liti "in"];
                     seqs [liti "check"; opt dot; liti "out"]; liti "booking"; liti "reservation";
                     liti "stay"; liti "accommodation"; liti "airbnb"])].

Definition emailFlightPattern : re :=
  seqs [Bnd;
        Grp 1 (alts [liti "flight"; liti "itinerary"; liti "boarding";
                     seqs [liti "e"; opt (lit "-"); liti "ticket"]; liti "airline"])].

Definition emailHotelPattern : re :=
  seqs [Bnd;
        Grp 1 (alts [liti "hotel"; liti "reservation"; seqs [liti "check"; opt dot; liti "in"];
                     liti "booking"; liti "stay"; liti "accommodation"; liti "airbnb";
                     Seq (liti "night") (opt (liti "s"))])].

(** [Jan(?:uary)?|Feb(?:ruary)?|...|Dec(?:ember)?] under the [i] flag. *)
Definition monthName : re :=
  alts [Seq (liti "Jan") (opt (liti "uary")); Seq (liti "Feb") (opt (liti "ruary"));
        Seq (liti "Mar") (opt (liti "ch")); Seq (liti "Apr") (opt (liti "il"));
        liti "May"; Seq (liti "Jun") (opt (liti "e")); Seq (liti "Jul") (opt (liti "y"));
        Seq (liti "Aug") (opt (liti "ust")); Seq (liti "Sep") (opt (liti "tember"));
        Seq (liti "Oct") (opt (liti "ober")); Seq (liti "Nov") (opt (liti "ember"));
        Seq (liti "Dec") (opt (liti "ember"))].

Definition datePatterns : list re :=
  [ Grp 1 (seqs [times 4 4 digit; lit "-"; times 2 2 digit; lit "-"; times 2 2 digit]);
    seqs [Grp 1 (times 1 2 digit); plus space; Grp 2 monthName; plus space; Grp 3 (times 4 4 digit)];
    seqs [Grp 1 monthName; plus space; Grp 2 (times 1 2 digit); opt (lit ","); plus space;
          Grp 3 (times 4 4 digit)] ].

(** ** The raw items *)

(** A calendar event as the calendar view returns it: [ev_location] is
    [event.location?.displayName], [ev_start] is
    [event.start?.dateTime || event.start?.date], likewise [ev_end]. *)
Record CalendarEvent := mkEvent {
  ev_subject : option string;
  ev_bodyPreview : option string;
  ev_location : option string;
  ev_start : option string;
  ev_end : option string
}.

Record Message := mkMessage {
  msg_subject : option string;
  msg_bodyPreview : option string
}.

(** [allText] of an event: [subject + ' ' + body + ' ' + location]. *)
Definition eventText (event : CalendarEvent) : string :=
  Js.orS (ev_subject event) "" +:+ " " +:+ Js.orS (ev_bodyPreview event) "" +:+ " "
  +:+ Js.orS (ev_location event) "".

(** [allText] of a message: [subject + ' ' + body]. *)
Definition messageText (msg : Message) : string :=
  Js.orS (msg_subject msg) "" +:+ " " +:+ Js.orS (msg_bodyPreview msg) "".

Definition TAX_YEAR_START : string := "2025-04-06".

(** [list.filter(d => d >= TAX_YEAR_START)] on formatted dates. *)
Definition inTaxYear (dates : list string) : list string :=
  filter (fun d => String.leb TAX_YEAR_START d = true) dates.

Section Pipeline.

(** [new Date(str)]: the time value, [None] for an Invalid Date.  Which
    strings the constructor accepts beyond the ISO format is left to the
    engine by ECMA-262, so the scripts are read for any such function. *)
Variable newDate : string → option Date.

Definition parseDate (str : option string) : option Date :=
  if Js.truthyS str then newDate (Js.orS str "") else None.

(** *** processCalendar, one event *)

Definition flightFromEvent (allText allTextUpper subject : string) (start : Date) : Booking :=
  let flights := extractFlights allTextUpper in
  let dest := extractDestination allTextUpper in
  {| b_type := flight;
     b_date := fmtDate start;
     b_flights := Js.join ", " flights;
     b_city := Js.orS (p_city <$> dest) (Js.orS (extractCity allText) "");
     b_country := Js.orS (p_country <$> dest) "";
     b_place := "";
     b_source := calendar;
     b_raw := subject |}.

Definition hotelFromEvent (allText location subject : string) (dateStr : string) : Booking :=
  {| b_type := hotel;
     b_date := dateStr;
     b_flights := "";
     b_city := Js.orS (extractCity allText) location;
     b_country := "";
     b_place := Js.orS (extractHotelName allText) "";
     b_source := calendar;
     b_raw := subject |}.

(** The body of [for (const event of events)]: the bookings one event
    pushes. *)
Definition processEvent (sc : Script) (event : CalendarEvent) : list Booking :=
  let subject := Js.orS (ev_subject event) "" in
  let location := Js.orS (ev_location event) "" in
  let allText := eventText event in
  let allTextUpper := Js.toUpperCase allText in
  if isCarRental allText then []
  else
    let isFlight := test calendarFlightPattern allText in
    let isHotel := test calendarHotelPattern allText in
    if negb isFlight && negb isHotel then []
    else
      match parseDate (ev_start event) with
      | None => []
      | Some evStart =>
          let evEnd := parseDate (ev_end event) in
          let beforeTaxYear :=
            match sc with
            | SyncBookings => false
            | BackfillBookings => String.ltb (fmtDate evStart) TAX_YEAR_START
            end in
          if beforeTaxYear then []
          else
            (if isFlight then [flightFromEvent allText allTextUpper subject evStart] else [])
            ++
            match evEnd with
            | Some evEnd' =>
                if isHotel then
                  let stay := nights evStart evEnd' in
                  let kept := match sc with SyncBookings => stay | BackfillBookings => inTaxYear stay end in
                  hotelFromEvent allText location subject <$> kept
                else []
            | None => []
            end
      end.

Definition processCalendar (sc : Script) (events : list CalendarEvent) : list Booking :=
  events ≫= processEvent sc.

(** *** processEmailsFromFolder, one message *)

(** The dates one pattern contributes, in the order of its matches. *)
Definition datesBy (pat : re) (allText : string) : list Date :=
  omap (fun m =>
          match parseDate (Some (whole m)) with
          | Some d => if (2025 <=? getFullYear d) && (getFullYear d <=? 2028) then Some d else None
          | None => None
          end)
       (scan pat allText).

(** [extractedDates] after [extractedDates.sort((a, b) => a - b)]. *)
Definition extractedDates (allText : string) : list Date :=
  merge_sort Z.le (datePatterns ≫= (fun pat => datesBy pat allText)).

(** [validDates]: the backfill script drops the dates before the tax
    year, the sync script has no such step. *)
Definition validDates (sc : Script) (allText : string) : list Date :=
  match sc with
  | SyncBookings => extractedDates allText
  | BackfillBookings =>
      filter (fun d => String.leb TAX_YEAR_START (fmtDate d) = true) (extractedDates allText)
  end.

Definition flightFromEmail (allTextUpper subject : string) (first : Date) : Booking :=
  let flights := extractFlights allTextUpper in
  let dest := extractDestination allTextUpper in
  {| b_type := flight;
     b_date := fmtDate first;
     b_flights := Js.join ", " flights;
     b_city := Js.orS (p_city <$> dest) "";
     b_country := Js.orS (p_country <$> dest) "";
     b_place := "";
     b_source := email;
     b_raw := subject |}.

Definition hotelFromEmail (allText subject : string) (dateStr : string) : Booking :=
  {| b_type := hotel;
     b_date := dateStr;
     b_flights := "";
     b_city := Js.orS (extractCity allText) "";
     b_country := "";
     b_place := Js.orS (extractHotelName allText) "";
     b_source := email;
     b_raw := subject |}.

(** The hotel bookings of one message, from its dates. *)
Definition hotelNightsOfEmail (sc : Script) (dates : list Date) : list string :=
  match sc with
  | SyncBookings =>
      if (2 <=? length dates)%nat then
        match head dates, last dates with
        | Some checkIn, Some checkOut => nights checkIn checkOut
        | _, _ => []
        end
      else []
  | BackfillBookings =>
      match head dates, last dates with
      | Some checkIn, Some lastDate =>
          let checkOut := if (1 <? length dates)%nat then lastDate else checkIn + 86400000 in
          inTaxYear (nights checkIn checkOut)
      | _, _ => []
      end
  end.

(** The body of [for (const msg of messages)]. *)
Definition processMessage (sc : Script) (folderType : BookingType) (msg : Message) : list Booking :=
  let subject := Js.orS (msg_subject msg) "" in
  let allText := messageText msg in
  let allTextUpper := Js.toUpperCase allText in
  if isCarRental allText then []
  else
    let isFlight :=
      bool_decide (folderType = flight) || test emailFlightPattern allText
      || (0 <? length (extractFlights allTextUpper))%nat in
    let isHotel := bool_decide (folderType = hotel) || test emailHotelPattern allText in
    let dates := validDates sc allText in
    (match head dates with
     | Some first => if isFlight then [flightFromEmail allTextUpper subject first] else []
     | None => []
     end)
    ++
    (if isHotel then hotelFromEmail allText subject <$> hotelNightsOfEmail sc dates else []).

Definition processEmailsFromFolder (sc : Script) (folderType : BookingType)
    (messages : list Message) : list Booking :=
  messages ≫= processMessage sc folderType.

End Pipeline.

(** A date constructor for the ISO shapes [YYYY-MM-DD] and
    [YYYY-MM-DDTHH:MM:SS], to run the pipeline on examples whose dates
    exist; the day is not checked against the length of the month. *)
Definition digitsValue (s : string) : option Z :=
  if forallb Js.isDigit (list_ascii_of_string s) && nonEmpty s then
    Some (fold_left (fun acc c => acc * 10 + (Z.of_nat (nat_of_ascii c) - 48)) (list_ascii_of_string s) 0)
  else None.

Definition daysFromCivil (y m d : Z) : Z :=
  let y' := if m <=? 2 then y - 1 else y in
  let era := y' / 400 in
  let yoe := y' - era * 400 in
  let doy := (153 * (if 2 <? m then m - 3 else m + 9) + 2) / 5 + d - 1 in
  let doe := yoe * 365 + yoe / 4 - yoe / 100 + doy in
  era * 146097 + doe - 719468.

Definition isoDate (s : string) : option Date :=
  y ← digitsValue (String.substring 0 4 s);
  m ← digitsValue (String.substring 5 2 s);
  d ← digitsValue (String.substring 8 2 s);
  if negb (String.eqb (String.substring 4 1 s) "-" && String.eqb (String.substring 7 1 s) "-") then None
  else if negb ((1 <=? m) && (m <=? 12) && (1 <=? d) && (d <=? 31)) then None
  else
    let day := daysFromCivil y m d * msPerDay in
    if (String.length s =? 10)%nat then Some day
    else if (String.length s =? 19)%nat && String.eqb (String.substring 10 1 s) "T" then
      hh ← digitsValue (String.substring 11 2 s);
      mm ← digitsValue (String.substring 14 2 s);
      ss ← digitsValue (String.substring 17 2 s);
      Some (day + hh * 3600000 + mm * 60000 + ss * 1000)
    else None.

(** ** main: combining and deduplicating *)

(** [b.date + '|' + b.type] *)
Definition bookingKey (b : Booking) : string :=
  b_date b +:+ "|" +:+ typeName (b_type b).

Definition withFlights (b : Booking) (fl : string) : Booking :=
  {| b_type := b_type b; b_date := b_date b; b_flights := fl; b_city := b_city b;
     b_country := b_country b; b_place := b_place b; b_source := b_source b; b_raw := b_raw b |}.

(** [existing = deduplicated.find(d => d.date === b.date)] followed by
    [existing.flights = mergeFlights(existing.flights, b.flights)]: the
    first kept booking of that date is updated in place. *)
Fixpoint mergeIntoFirst (date newFlights : string) (deduplicated : list Booking) : list Booking :=
  match deduplicated with
  | [] => []
  | d :: rest =>
      if String.eqb (b_date d) date then
        withFlights d (mergeFlights (Some (b_flights d)) newFlights) :: rest
      else d :: mergeIntoFirst date newFlights rest
  end.

(** One iteration of [for (const b of allBookings)]: the state is the
    set [seen] and the array [deduplicated]. *)
Definition dedupStep (st : gset string * list Booking) (b : Booking) : gset string * list Booking :=
  let '(seen, deduplicated) := st in
  let key := bookingKey b in
  if bool_decide (key ∈ seen) then
    (seen, if nonEmpty (b_flights b) then mergeIntoFirst (b_date b) (b_flights b) deduplicated
           else deduplicated)
  else ({[key]} ∪ seen, deduplicated ++ [b]).

Definition deduplicate (allBookings : list Booking) : list Booking :=
  snd (fold_left dedupStep allBookings (∅, [])).

(** [[...calendarBookings, ...emailBookings]] and its deduplication. *)
Definition combine (calendarBookings emailBookings : list Booking) : list Booking :=
  deduplicate (calendarBookings ++ emailBookings).

(** ** Vocabulary of the properties *)

(** A matcher that hands to its continuation only states with no more
    input left than it was given. *)
Definition shrinking (m : mstate → cont → option mstate) : Prop :=
  ∀ s k1 k2,
    (∀ s', (length (rest s') ≤ length (rest s))%nat → k1 s' = k2 s') → m s k1 = m s k2.

(** A flight designator as a comma-joined field holds it: not empty and
    free of separators. *)
Definition sepFree (s : string) : Prop :=
  Forall (fun c => isSep c = false) (list_ascii_of_string s).

Definition isToken (s : string) : Prop := s ≠ "" ∧ sepFree s.

(** The flight set of a stored field, absent read as empty. *)
Definition flightSet (o : option string) : list string := flightTokens (Js.orS o "").

(** What a run may not take away from a stored record: a non-empty
    place, city or country, a stored flight, a piece of the audit trail,
    the [autoBooking] flag; and with them the notes and whatever of
    [autoGps], [lat], [lon], [working] is truthy. *)
Definition preserved (old new : LocationRecord) : Prop :=
  (∀ s, place old = Some s → s ≠ "" → place new = Some s)
  ∧ (∀ s, city old = Some s → s ≠ "" → city new = Some s)
  ∧ (∀ s, country old = Some s → s ≠ "" → country new = Some s)
  ∧ flightSet (flights old) ⊆ flightSet (flights new)
  ∧ (∀ line, Js.includes (Js.orS (bookingSource old) "") line = true →
             Js.includes (Js.orS (bookingSource new) "") line = true)
  ∧ (Js.truthyB (autoBooking old) = true → autoBooking new = Some true)
  ∧ (∀ s, notes old = Some s → s ≠ "" → notes new = Some s)
  ∧ (Js.truthyB (autoGps old) = true → autoGps new = autoGps old)
  ∧ (Js.truthyN (lat old) = true → lat new = lat old)
  ∧ (Js.truthyN (lon old) = true → lon new = lon old)
  ∧ (Js.truthyB (working old) = true → working new = working old).

(** A stored field and a merged field differ, absent read as empty; a
    field that becomes non-empty has changed. *)
Definition changed (old new : option string) : Prop := Js.orS old "" ≠ Js.orS new "".

Definition newlyNonEmpty (old new : option string) : Prop :=
  Js.orS old "" = "" ∧ Js.orS new "" ≠ "".

(** "The merge adds information beyond [current]" in the words of the
    specification: [current] is absent, or one of place, city, flights,
    bookingSource is newly non-empty or has changed. *)
Definition addsInformation (current : option LocationRecord) (entry : LocationRecord) : Prop :=
  match current with
  | None => True
  | Some cur =>
      changed (place cur) (place entry) ∨ changed (city cur) (city entry)
      ∨ changed (flights cur) (flights entry)
      ∨ changed (bookingSource cur) (bookingSource entry)
  end.

(** The same with the two restrictions of the source: flights count when
    the merged value is not empty, bookingSource counts only when the
    stored trail was empty. *)
Definition addsLocation (current : option LocationRecord) (entry : LocationRecord) : Prop :=
  match current with
  | None => True
  | Some cur =>
      changed (place cur) (place entry) ∨ changed (city cur) (city entry)
      ∨ (changed (flights cur) (flights entry) ∧ Js.orS (flights entry) "" ≠ "")
      ∨ newlyNonEmpty (bookingSource cur) (bookingSource entry)
  end.

(** The two ways an iteration of the loop ends. *)
Definition emitted (st st' : SyncState) (dateStr : string) (entry : LocationRecord) : Prop :=
  updates st' = <[dateStr := entry]> (updates st) ∧ skippedCount st' = skippedCount st.

Definition skipped (st st' : SyncState) : Prop :=
  updates st' = updates st ∧ skippedCount st' = S (skippedCount st).



(** The time of day of a time value, in milliseconds. *)
Definition timeOfDay (t : Date) : Z := t mod msPerDay.

(** The calendar days from [first] on, [n] of them, formatted. *)
Definition daysFrom (first : Z) (n : nat) : list string :=
  (fun k => fmtDate ((first + Z.of_nat k) * msPerDay)) <$> seq 0 n.

(** The nights of a stay as the specification has them: the days from
    the day of check-in to the day before the day of check-out. *)
Definition residentNights (checkIn checkOut : Date) : list string :=
  daysFrom (dayOf checkIn) (Z.to_nat (dayOf checkOut - dayOf checkIn)).

(** The group of a booking in the deduplication: its date and type. *)
Definition groupOf (b : Booking) : string * BookingType := (b_date b, b_type b).

(** The first booking of every group, in the order of the list; [seen]
    holds the groups met before. *)
Fixpoint firstOfGroups (seen : list (string * BookingType)) (l : list Booking) : list Booking :=
  match l with
  | [] => []
  | b :: t =>
      if bool_decide (groupOf b ∈ seen) then firstOfGroups seen t
      else b :: firstOfGroups (groupOf b :: seen) t
  end.

(** Two bookings that differ in their flights at most. *)
Definition sameButFlights (a b : Booking) : Prop := withFlights a "" = withFlights b "".

(** The hotel bookings of a list. *)
Definition hotelOnly (l : list Booking) : list Booking :=
  filter (fun b => b_type b = hotel) l.

(** ** Sample data *)

Module Sample.

Definition blank : LocationRecord :=
  mkRecord None None None None None None None None None None None None.

(** A day entered by hand. *)
Definition paris : LocationRecord :=
  {| place := None; city := Some "Paris"; country := Some "France"; flights := None;
     notes := Some "client visit"; lat := None; lon := None; working := Some true;
     autoGps := Some false; autoBooking := Some false;
     bookingSource := None; countryConflict := None |}.

(** A day this engine has filled in before. *)
Definition rome : LocationRecord :=
  {| place := Some "Hotel X"; city := Some "Rome"; country := Some "Italy";
     flights := Some "BA123"; notes := None; lat := None; lon := None; working := None;
     autoGps := None; autoBooking := Some true;
     bookingSource := Some "calendar: Stay at Hotel X"; countryConflict := None |}.

(** A day located by a GPS capture. *)
Definition london : LocationRecord :=
  {| place := None; city := Some "London"; country := Some "UK"; flights := None;
     notes := None; lat := Some 51; lon := Some (-1); working := None;
     autoGps := Some true; autoBooking := None;
     bookingSource := None; countryConflict := None |}.

Definition store : gmap string LocationRecord :=
  {[ "2025-06-01" := rome; "2025-06-05" := paris; "2025-06-10" := london ]}.

Definition flightTo (d fl c k : string) (src : Source) (raw : string) : Booking :=
  mkBooking flight d fl c k "" src raw.

Definition hotelAt (d c p : string) (src : Source) (raw : string) : Booking :=
  mkBooking hotel d "" c "" p src raw.

(** An email that names the stored day of Rome and brings nothing but
    its own subject. *)
Definition romeStay : Booking := hotelAt "2025-06-01" "" "" email "Rome stay".

(** A hotel stay in the calendar with the usual times: in at 15:00 on
    1 June, out at 11:00 on 4 June. *)
Definition romeEvent : CalendarEvent :=
  {| ev_subject := Some "Hotel Roma"; ev_bodyPreview := None; ev_location := Some "Rome";
     ev_start := Some "2025-06-01T15:00:00"; ev_end := Some "2025-06-04T11:00:00" |}.

(** The same stay as an all-day event. *)
Definition romeAllDay : CalendarEvent :=
  {| ev_subject := Some "Hotel Roma"; ev_bodyPreview := None; ev_location := Some "Rome";
     ev_start := Some "2025-06-01"; ev_end := Some "2025-06-04" |}.

(** A hotel email with a single date. *)
Definition oneDateMail : Message :=
  {| msg_subject := Some "Your stay at Hotel Roma"; msg_bodyPreview := Some "Arrival 2025-06-12" |}.

(** A car rental that also speaks of a flight and a hotel. *)
Definition rentalMail : Message :=
  {| msg_subject := Some "Hertz car rental";
     msg_bodyPreview := Some "Pick up after flight BA123 on 2025-06-12, near your hotel, until 2025-06-15" |}.

Definition rentalEvent : CalendarEvent :=
  {| ev_subject := Some "Pick up car, drop off at airport"; ev_bodyPreview := Some "flight BA123";
     ev_location := Some "LHR"; ev_start := Some "2025-06-12"; ev_end := Some "2025-06-15" |}.

(** A hotel night and a flight of the calendar for the same day, and an
    email about a second flight of that day. *)
Definition sameDay : list Booking :=
  [ hotelAt "2025-06-01" "Rome" "Hotel X" calendar "Hotel X";
    flightTo "2025-06-01" "BA1" "Rome" "Italy" calendar "BA1 to FCO";
    flightTo "2025-06-01" "BA2" "Rome" "Italy" email "BA2 to FCO" ].

(** A hotel night on a day the store does not have. *)
Definition milanNight : Booking :=
  hotelAt "2025-07-02" "Milan" "Hotel Duomo" calendar "Hotel Duomo Milan".

End Sample.


(** ** Vocabulary of the further properties *)

(** A flights field in the form [mergeFlights] and the extractors write
    it: designators joined by a comma and a blank, none of them twice. *)
Definition normalised (s : string) : Prop :=
  ∃ l, s = Js.join ", " l ∧ NoDup l ∧ Forall isToken l.

(** The bookings of a run that write the record of [dateStr]: those of
    that date whose merge passes the test of [hasNew]. *)
Definition writers (sc : Script) (existing : gmap string LocationRecord) (dateStr : string)
    (bookings : list Booking) : list Booking :=
  filter (fun b => b_date b = dateStr
                   ∧ hasNew (existing !! dateStr) (mergeEntry sc (existing !! dateStr) b) = true)
         bookings.


(** The flight codes the bookings of a list hold for a day. *)
Definition flightsOfDay (dateStr : string) (l : list Booking) (code : string) : Prop :=
  ∃ b, b ∈ l ∧ b_date b = dateStr ∧ code ∈ flightTokens (b_flights b).

(** A flight designator as [extractFlights] reads it: two upper-case
    letters followed by one to four digits. *)
Definition designator (code : string) : Prop :=
  ∃ letters digits,
    code = string_of_list_ascii (letters ++ digits)
    ∧ length letters = 2%nat ∧ Forall (fun c => Js.isUpper c = true) letters
    ∧ (1 ≤ length digits ≤ 4)%nat ∧ Forall (fun c => Js.isDigit c = true) digits.

(** ** Sample items of a journey *)

Module Journey.

(** A flight in the calendar and the ticket of the flight back in the
    mail. *)
Definition flightEvent : CalendarEvent :=
  {| ev_subject := Some "Flight BA576 LHR to MXP"; ev_bodyPreview := None; ev_location := None;
     ev_start := Some "2025-06-10T07:25:00"; ev_end := Some "2025-06-10T10:30:00" |}.

Definition ticketMail : Message :=
  {| msg_subject := Some "Your e-ticket AZ204 FCO to LHR"; msg_bodyPreview := Some "Departure 2025-06-14" |}.

Definition flightOut : Booking :=
  mkBooking flight "2025-06-10" "BA576" "Milan" "Italy" "" calendar "Flight BA576 LHR to MXP".

Definition flightBack : Booking :=
  mkBooking flight "2025-06-14" "AZ204" "London" "UK" "" email "Your e-ticket AZ204 FCO to LHR".

(** A confirmation that names the day of the flight before the day it
    was booked. *)
Definition bookedMail : Message :=
  {| msg_subject := Some "Flight confirmation AZ204";
     msg_bodyPreview := Some "Departure 2025-06-14, booked 2025-05-02" |}.

Definition flightBooked : Booking :=
  mkBooking flight "2025-05-02" "AZ204" "" "" "" email "Flight confirmation AZ204".

(** A hotel confirmation that names the day it was booked after the
    days of the stay, and the night it yields for that day. *)
Definition stayMail : Message :=
  {| msg_subject := Some "Your stay at Hotel Roma";
     msg_bodyPreview := Some "Arrival 2025-06-12, departure 2025-06-14, booked 2025-06-10" |}.

Definition nightBooked : Booking :=
  mkBooking hotel "2025-06-10" "" "" "" "Roma Arrival 2025" email "Your stay at Hotel Roma".

End Journey.

(** ** Vocabulary of the tax-year floor *)

(** The time value of 6 April 2025, 00:00. *)
Definition taxYearStartTime : Date := 1743897600000.

(** [p] on the [n] days from [first] on. *)
Fixpoint allDays (p : Z → bool) (first : Z) (n : nat) : bool :=
  match n with
  | O => true
  | S n' => p first && allDays p (first + 1) n'
  end.

(** On a day, the comparison of the formatted date with
    [TAX_YEAR_START] says whether the day is 6 April 2025 or later. *)
Definition floorAgrees (day : Z) : bool :=
  Bool.eqb (String.leb TAX_YEAR_START (fmtDate (day * msPerDay)))
           (dayOf taxYearStartTime <=? day).

(** ** The mail folders

    A mail folder as the folder listing returns it, and the mailbox as
    the listings show it to [findFolder]: the top-level folders, each
    with the child folders its own listing returns ([children.value ||
    []]); [None] is a listing that came back with an error.  The
    listings are requested again for every candidate; they are read
    here from one state of the mailbox. *)
Record MailFolder := mkFolder {
  displayName : string;
  folderId : string
}.

Definition Mailbox := option (list (MailFolder * list MailFolder)).

(** [for (const child of (children.value || []))] *)
Fixpoint findChild (folderName : string) (children : list MailFolder) : option string :=
  match children with
  | [] => None
  | child :: rest =>
      if String.eqb (displayName child) folderName then Some (folderId child)
      else findChild folderName rest
  end.

(** [for (const folder of (result.value || []))] *)
Fixpoint findTop (folderName : string) (top : list (MailFolder * list MailFolder)) : option string :=
  match top with
  | [] => None
  | (folder, children) :: rest =>
      if String.eqb (displayName folder) folderName then Some (folderId folder)
      else
        match findChild folderName children with
        | Some id => Some id
        | None => findTop folderName rest
        end
  end.

Definition findFolder (mailbox : Mailbox) (folderName : string) : option string :=
  match mailbox with
  | None => None
  | Some top => findTop folderName top
  end.

(** [if (id) return id]: an empty id is passed over. *)
Fixpoint findFirstFolder (mailbox : Mailbox) (candidates : list string) : option string :=
  match candidates with
  | [] => None
  | name :: rest =>
      if Js.truthyS (findFolder mailbox name) then findFolder mailbox name
      else findFirstFolder mailbox rest
  end.

Definition HOTEL_FOLDERS : list string := ["Hotels"; "Hotel"].
Definition FLIGHT_FOLDERS : list string := ["Flights"; "Flight"].

Section Folders.

Variable newDate : string → option Date.

(** [processEmails]; [messagesOf] gives the messages the listing of a
    folder returns, none when it came back with an error. *)
Definition processEmails (sc : Script) (mailbox : Mailbox) (messagesOf : string → list Message)
    : list Booking :=
  (match findFirstFolder mailbox HOTEL_FOLDERS with
   | Some hotelFolderId => processEmailsFromFolder newDate sc hotel (messagesOf hotelFolderId)
   | None => []
   end)
  ++
  (match findFirstFolder mailbox FLIGHT_FOLDERS with
   | Some flightFolderId => processEmailsFromFolder newDate sc flight (messagesOf flightFolderId)
   | None => []
   end).

End Folders.

(** A mailbox whose folders for the bookings are named in lower case. *)
Definition lowerCaseBox : list (MailFolder * list MailFolder) :=
  [ (mkFolder "Inbox" "id-inbox", [mkFolder "hotels" "id-hotels"; mkFolder "flights" "id-flights"]);
    (mkFolder "Archive" "id-archive", []) ].

(** The folders in the order [findFolder] reads them: every top-level
    folder followed by its children. *)
Definition readingOrder (top : list (MailFolder * list MailFolder)) : list MailFolder :=
  top ≫= (fun '(folder, children) => folder :: children).

(** The first folder of a name in a list of folders. *)
Definition firstNamed (folderName : string) (folders : list MailFolder) : option MailFolder :=
  head (filter (fun f => displayName f = folderName) folders).

(** ** The daily backup: the history of dated archives *)

(** The order of [Array.prototype.sort] without a comparator, on
    strings: by code units. *)
Definition strLe (a b : string) : Prop := String.leb a b = true.

#[global] Instance strLe_dec : RelDecision strLe := fun a b => decide (String.leb a b = true).

(** [s.endsWith(suffix)] *)
Definition endsWith (s suffix : string) : bool :=
  String.prefix (revString suffix) (revString s).

Definition MAX_HISTORY : nat := 5.

(** [`backup-${today}.json`] *)
Definition backupName (today : string) : string := "backup-" +:+ today +:+ ".json".

Definition isHistoryFile (f : string) : bool := String.prefix "backup-" f && endsWith f ".json".

(** [fs.readdirSync(HISTORY_DIR).filter(...).sort().reverse()] on the
    names the directory holds. *)
Definition historyFiles (dir : list string) : list string :=
  reverse (merge_sort strLe (filter (fun f => isHistoryFile f = true) dir)).

(** [historyFiles.slice(MAX_HISTORY)] under
    [if (historyFiles.length > MAX_HISTORY)]. *)
Definition toDelete (dir : list string) : list string :=
  if (MAX_HISTORY <? length (historyFiles dir))%nat then drop MAX_HISTORY (historyFiles dir)
  else [].

(** The directory after every file of [toDelete] was unlinked. *)
Definition afterCleanup (dir : list string) : list string :=
  filter (fun f => f ∉ toDelete dir) dir.

(** The archives of a directory, those in ascending order of their
    names, and the number of them beyond [MAX_HISTORY]. *)
Definition archives (dir : list string) : list string :=
  filter (fun f => isHistoryFile f = true) dir.

Definition sortedArchives (dir : list string) : list string := merge_sort strLe (archives dir).

Definition surplus (dir : list string) : nat := (length (sortedArchives dir) - MAX_HISTORY)%nat.

(** A history directory after the archive of 7 June 2025 was written. *)
Definition weekOfArchives : list string :=
  [ "backup-2025-06-03.json"; ".gitkeep"; "backup-2025-06-07.json"; "backup-2025-06-01.json";
    "backup-2025-06-05.json"; "backup-2025-06-02.json"; "backup-2025-06-06.json";
    "backup-2025-06-04.json"; "backup-notes.txt" ].

(** ** The daily backup: the summary sheet *)

(** [e.country || 'Unrecorded'] *)
Definition bucket (e : LocationRecord) : string := Js.orS (country e) "Unrecorded".

(** The names every plain object inherits from [Object.prototype]: read
    on an object used as a map, such a key gives the inherited value
    when the object has no entry of its own for it. *)
Definition objectPrototypeKeys : list string :=
  [ "constructor"; "__proto__"; "hasOwnProperty"; "isPrototypeOf"; "propertyIsEnumerable";
    "toLocaleString"; "toString"; "valueOf"; "__defineGetter__"; "__defineSetter__";
    "__lookupGetter__"; "__lookupSetter__" ].

(** A value of [countryCounts]: a number, or the text that [+ 1] makes
    of an inherited function or object and of every text after it. *)
Inductive Cell :=
| Num (n : nat)
| Text.

(** [(countryCounts[c] || 0) + 1], from the entry the object has for
    [c]; without one, the inherited value is read when [c] is a name of
    [Object.prototype]. *)
Definition bump (inherited : bool) (cell : option Cell) : Cell :=
  match cell with
  | Some (Num n) => Num (n + 1)
  | Some Text => Text
  | None => if inherited then Text else Num 1
  end.

Record Stats := mkStats {
  countryCounts : gmap string Cell;
  ukNights : nat;
  italyDays : nat;
  workDays : nat
}.

Definition noStats : Stats := mkStats ∅ 0 0 0.

(** The body of [Object.values(locations).forEach(e => ...)]; an
    assignment to [__proto__] of a value that is no object is without
    effect. *)
Definition statsStep (st : Stats) (e : LocationRecord) : Stats :=
  {| countryCounts :=
       if String.eqb (bucket e) "__proto__" then countryCounts st
       else
         <[bucket e := bump (bool_decide (bucket e ∈ objectPrototypeKeys))
                         (countryCounts st !! bucket e)]> (countryCounts st);
     ukNights := if bool_decide (country e = Some "UK") then S (ukNights st) else ukNights st;
     italyDays := if bool_decide (country e = Some "Italy") then S (italyDays st) else italyDays st;
     workDays := if Js.truthyB (working e) then S (workDays st) else workDays st |}.

Definition stats (entries : list LocationRecord) : Stats := fold_left statsStep entries noStats.

(** The number a row of the country table shows, none for a key the
    table does not have or a text. *)
Definition nightsOf (cell : option Cell) : nat :=
  match cell with
  | Some (Num n) => n
  | _ => 0%nat
  end.

(** The sum of the numbers of the country table. *)
Definition totalNights (counts : gmap string Cell) : nat :=
  map_fold (fun _ cell acc => (nightsOf (Some cell) + acc)%nat) 0%nat counts.

(** ** The midnight push

    The registry [fcmTokens] as [Object.entries] lists it: the uid and
    the [token] of every registration, [None] when the registration
    has none.  What [admin.messaging().send] does is not the script's:
    [send i token] is the outcome of the [i]-th call, a delivery or a
    rejection with the [code] of its error. *)

Inductive Outcome :=
| Delivered
| Rejected (code : option string).

(** [Object.values(tokens).map(t => t.token).filter(Boolean)] *)
Definition tokenList (tokens : list (string * option string)) : list string :=
  filter (fun t => nonEmpty t = true) (omap snd tokens).

Definition staleCode (code : option string) : bool :=
  match code with
  | Some c =>
      String.eqb c "messaging/registration-token-not-registered"
      || String.eqb c "messaging/invalid-registration-token"
  | None => false
  end.

Record PushState := mkPush {
  sent : nat;
  failed : nat;
  staleTokens : list string
}.

Definition noPush : PushState := mkPush 0 0 [].

(** [for (const token of tokenList)], from the [i]-th call on. *)
Fixpoint sendAll (send : nat → string → Outcome) (i : nat) (tokens : list string)
    (st : PushState) : PushState :=
  match tokens with
  | [] => st
  | token :: rest =>
      sendAll send (S i) rest
        match send i token with
        | Delivered => mkPush (S (sent st)) (failed st) (staleTokens st)
        | Rejected code =>
            mkPush (sent st) (S (failed st))
              (if staleCode code then staleTokens st ++ [token] else staleTokens st)
        end
  end.

(** [staleTokens.includes(data.token)] *)
Definition hasStaleToken (stale : list string) (data : option string) : bool :=
  match data with
  | Some t => bool_decide (t ∈ stale)
  | None => false
  end.

(** The registry after [db.ref('fcmTokens/' + uid).remove()] for every
    registration whose token is among the stale ones. *)
Definition removeStale (tokens : list (string * option string)) (stale : list string)
    : list (string * option string) :=
  filter (fun r => hasStaleToken stale (snd r) = false) tokens.

(** [sendMidnightPush]: the state of the loop and the registry it
    leaves. *)
Definition sendMidnightPush (send : nat → string → Outcome) (tokens : list (string * option string))
    : PushState * list (string * option string) :=
  let st := sendAll send 0 (tokenList tokens) noPush in
  (st, removeStale tokens (staleTokens st)).

(** A call to [token] was rejected as stale. *)
Definition rejectedAsStale (send : nat → string → Outcome) (tokens : list string) (token : string)
    : Prop :=
  ∃ i code, tokens !! i = Some token ∧ send i token = Rejected code ∧ staleCode code = true.

(** A registry with a device registered twice and a registration
    without a token, and sends that all fail for a passing reason. *)
Definition threeDevices : list (string * option string) :=
  [ ("uid-1", Some "token-a"); ("uid-2", None); ("uid-3", Some "token-b");
    ("uid-4", Some "token-a") ].

Definition serverDown (i : nat) (token : string) : Outcome :=
  Rejected (Some "messaging/internal-error").

(** The first send is rejected because the token is not registered any
    more, the others are delivered. *)
Definition firstIsStale (i : nat) (token : string) : Outcome :=
  match i with
  | O => Rejected (Some "messaging/registration-token-not-registered")
  | S _ => Delivered
  end.

(** A string that neither begins nor ends with white space. *)
Definition trimmed (s : string) : Prop :=
  (∀ c, head (list_ascii_of_string s) = Some c → Js.isSpace c = false)
  ∧ (∀ c, last (list_ascii_of_string s) = Some c → Js.isSpace c = false).

(** The formatted date of a day is below that of the next day in the
    order of strings, and has ten code units. *)
Definition dayIncreases (day : Z) : bool :=
  String.ltb (fmtDate (day * msPerDay)) (fmtDate ((day + 1) * msPerDay))
  && Nat.eqb (String.length (fmtDate (day * msPerDay))) 10.

(** A capitalised word, and a city as [extractCity] reads it: one such
    word, or two with white space between them. *)
Definition capitalised (w : list ascii) : Prop :=
  ∃ u ls, w = u :: ls ∧ Js.isUpper u = true ∧ ls ≠ []
          ∧ Forall (fun c => Js.isLower c = true) ls.

Definition cityShape (city : string) : Prop :=
  ∃ w1, capitalised w1
        ∧ (city = string_of_list_ascii w1
           ∨ ∃ sp w2, sp ≠ [] ∧ Forall (fun c => Js.isSpace c = true) sp ∧ capitalised w2
                      ∧ city = string_of_list_ascii (w1 ++ sp ++ w2)).
(** * Properties *)

(** ** Strings *)

Section StringFacts.

Lemma append_cons (c : ascii) (s t : string) : String c s +:+ t = String c (s +:+ t).
Proof. reflexivity. Qed.

Lemma append_empty_r (s : string) : s +:+ "" = s.
Proof. induction s as [|c s IH]; [reflexivity | by rewrite append_cons, IH]. Qed.

Lemma append_assoc (s t u : string) : (s +:+ t) +:+ u = s +:+ (t +:+ u).
Proof. induction s as [|c s IH]; [reflexivity | by rewrite !append_cons, IH]. Qed.

Lemma prefix_empty_r (e : string) : String.prefix e "" = true → e = "".
Proof. destruct e; simpl; [done | discriminate]. Qed.

Lemma prefix_app_l (e s t : string) :
  String.prefix e s = true → String.prefix e (s +:+ t) = true.
Proof.
  revert s. induction e as [|a e IH]; intros s H.
  - by destruct (s +:+ t).
  - destruct s as [|b s]; simpl in H; [discriminate |].
    rewrite append_cons. simpl.
    destruct (ascii_dec a b); [by apply IH | discriminate].
Qed.

Lemma prefix_refl (s : string) : String.prefix s s = true.
Proof.
  induction s as [|a s IH]; simpl; [reflexivity |].
  by destruct (ascii_dec a a).
Qed.

Lemma includes_empty (s : string) : Js.includes s "" = true.
Proof. by destruct s. Qed.

Lemma includes_prefix (s e : string) : String.prefix e s = true → Js.includes s e = true.
Proof. intros H. destruct s; unfold Js.includes; fold Js.includes; by rewrite H. Qed.

Lemma includes_refl (s : string) : Js.includes s s = true.
Proof. apply includes_prefix, prefix_refl. Qed.

Lemma includes_app_l (s t e : string) :
  Js.includes s e = true → Js.includes (s +:+ t) e = true.
Proof.
  induction s as [|c s IH]; intros H.
  - unfold Js.includes in H. rewrite orb_false_r in H.
    apply prefix_empty_r in H as ->. apply includes_empty.
  - rewrite append_cons.
    change (String.prefix e (String c s) || Js.includes s e = true) in H.
    change (String.prefix e (String c (s +:+ t)) || Js.includes (s +:+ t) e = true).
    apply orb_true_iff in H as [H | H].
    + pose proof (prefix_app_l e (String c s) t H) as H'.
      rewrite append_cons in H'. by rewrite H'.
    + rewrite (IH H). apply orb_true_r.
Qed.

Lemma includes_app_r (s t : string) : Js.includes (s +:+ t) t = true.
Proof.
  induction s as [|c s IH].
  - apply includes_refl.
  - rewrite append_cons.
    change (String.prefix t (String c (s +:+ t)) || Js.includes (s +:+ t) t = true).
    rewrite IH. apply orb_true_r.
Qed.

Lemma nonEmpty_true (s : string) : nonEmpty s = true ↔ s ≠ "".
Proof.
  unfold nonEmpty. rewrite negb_true_iff. apply String.eqb_neq.
Qed.

Lemma nonEmpty_false (s : string) : nonEmpty s = false ↔ s = "".
Proof.
  unfold nonEmpty. rewrite negb_false_iff. apply String.eqb_eq.
Qed.

Lemma truthyS_Some (s : string) : Js.truthyS (Some s) = nonEmpty s.
Proof. reflexivity. Qed.

Lemma orS_truthy (o : option string) (d : string) :
  Js.truthyS o = true → o = Some (Js.orS o d).
Proof.
  destruct o as [s|]; simpl; [| discriminate].
  destruct (String.eqb s ""); simpl; [discriminate | done].
Qed.

Lemma orS_falsy (o : option string) (d : string) :
  Js.truthyS o = false → Js.orS o d = d.
Proof.
  destruct o as [s|]; simpl; [| done].
  destruct (String.eqb s ""); simpl; [done | discriminate].
Qed.

Lemma orS_empty_nonEmpty (o : option string) : nonEmpty (Js.orS o "") = Js.truthyS o.
Proof.
  destruct o as [s|]; simpl; [| done].
  unfold nonEmpty. destruct (String.eqb s "") eqn:E; simpl; [done | by rewrite E].
Qed.

End StringFacts.

(** ** The matcher needs no more fuel *)

Section MatcherFacts.

(** The repetition hands on what the repeated matcher hands on. *)
Lemma rep_shrinking (m : mstate → cont → option mstate) (greedy : bool) (n : nat) :
  shrinking m → ∀ lo hi, shrinking (fun s k => rep m greedy lo hi n s k).
Proof.
  intros Hm. induction n as [|n IH]; intros lo hi s k1 k2 Hk; cbn [rep].
  - destruct lo; [apply Hk; lia | done].
  - destruct hi as [[|h]|].
    + apply Hk. lia.
    + rewrite (Hm s _ (fun s' =>
        if Nat.eqb lo 0 && Nat.eqb (length (rest s')) (length (rest s)) then None
        else rep m greedy (Nat.pred lo) (Nat.pred <$> Some (S h)) n s' k2)).
      * rewrite (Hk s) by lia. reflexivity.
      * intros s' Hs'. destruct (_ && _); [done |]. apply IH. intros s'' Hs''. apply Hk. lia.
    + rewrite (Hm s _ (fun s' =>
        if Nat.eqb lo 0 && Nat.eqb (length (rest s')) (length (rest s)) then None
        else rep m greedy (Nat.pred lo) (Nat.pred <$> None) n s' k2)).
      * rewrite (Hk s) by lia. reflexivity.
      * intros s' Hs'. destruct (_ && _); [done |]. apply IH. intros s'' Hs''. apply Hk. lia.
Qed.

Lemma run_shrinking (r : re) : shrinking (run r).
Proof.
  induction r as [|p|r1 IH1 r2 IH2|r1 IH1 r2 IH2|greedy lo hi r1 IH1|i r1 IH1| |];
    intros s k1 k2 Hk; cbn [run].
  - apply Hk. lia.
  - destruct (rest s) as [|c t] eqn:E; [done |]. destruct (p c); [| done].
    apply Hk. cbn. lia.
  - apply IH1. intros s' Hs'. apply IH2. intros s'' Hs''. apply Hk. lia.
  - rewrite (IH1 s k1 k2 Hk), (IH2 s k1 k2 Hk). reflexivity.
  - by apply rep_shrinking.
  - apply IH1. intros s' Hs'. apply Hk. cbn. lia.
  - destruct (xorb _ _); [apply Hk; lia | done].
  - destruct (rest s) eqn:E; [apply Hk; by rewrite E | done].
Qed.

(** Once the bound exceeds the iterations that can take place, the
    result of a repetition does not depend on it: the bound the matcher
    starts from is enough. *)
Lemma rep_enough_fuel (m : mstate → cont → option mstate) (greedy : bool) (n1 : nat) :
  shrinking m →
  ∀ n2 lo hi s k,
    (lo + length (rest s) < n1)%nat → (lo + length (rest s) < n2)%nat →
    rep m greedy lo hi n1 s k = rep m greedy lo hi n2 s k.
Proof.
  intros Hm. induction n1 as [|n1 IH]; intros n2 lo hi s k H1 H2; [lia |].
  destruct n2 as [|n2]; [lia |]. cbn [rep].
  assert (m s (fun s' =>
              if Nat.eqb lo 0 && Nat.eqb (length (rest s')) (length (rest s)) then None
              else rep m greedy (Nat.pred lo) (Nat.pred <$> hi) n1 s' k)
          = m s (fun s' =>
              if Nat.eqb lo 0 && Nat.eqb (length (rest s')) (length (rest s)) then None
              else rep m greedy (Nat.pred lo) (Nat.pred <$> hi) n2 s' k)) as Hagain.
  { apply Hm. intros s' Hs'.
    destruct (Nat.eqb_spec lo 0) as [-> | Hlo]; cbn [andb].
    - destruct (Nat.eqb_spec (length (rest s')) (length (rest s))); [done |].
      apply IH; change (Nat.pred 0) with 0%nat; lia.
    - apply IH; lia. }
  by rewrite Hagain.
Qed.

Lemma run_rep_fuel (greedy : bool) (lo : nat) (hi : option nat) (r : re) (s : mstate) (k : cont)
    (extra : nat) :
  rep (run r) greedy lo hi (lo + length (rest s) + 1 + extra) s k = run (Rep greedy lo hi r) s k.
Proof. cbn [run]. apply rep_enough_fuel; [apply run_shrinking | lia | lia]. Qed.

(** The scan of a global expression has left its loop within its fuel. *)
Lemma scanFrom_enough_fuel (r : re) (fuel : nat) :
  ∀ extra prev s pos,
    (length s < fuel)%nat →
    scanFrom (fuel + extra) r prev s pos = scanFrom fuel r prev s pos.
Proof.
  induction fuel as [|fuel IH]; intros extra prev s pos Hlen; [lia |].
  cbn [Nat.add scanFrom]. destruct (execAt r prev s pos) as [f|]; [| done].
  destruct (Nat.ltb_spec (length (rest (final f))) (length s)); [| done].
  f_equal. apply IH. lia.
Qed.

End MatcherFacts.

(** ** mergeFlights *)

Section FlightFacts.

Lemma splitSepFrom_cons_sep c t tok inSep :
  isSep c = true →
  splitSepFrom (String c t) tok inSep =
    if inSep then splitSepFrom t tok true else tok :: splitSepFrom t "" true.
Proof. intros H. cbn [splitSepFrom]. by rewrite H. Qed.

Lemma splitSepFrom_cons_free c t tok inSep :
  isSep c = false →
  splitSepFrom (String c t) tok inSep = splitSepFrom t (tok +:+ String c "") false.
Proof. intros H. cbn [splitSepFrom]. by rewrite H. Qed.

Lemma sepFree_app (s t : string) : sepFree s → sepFree t → sepFree (s +:+ t).
Proof.
  unfold sepFree. induction s as [|c s IH]; intros Hs Ht; [done |].
  rewrite append_cons. cbn [list_ascii_of_string] in *.
  inversion Hs; subst. constructor; auto.
Qed.

(** Every piece of a split is free of separators. *)
Lemma splitSepFrom_sepFree (s tok : string) (inSep : bool) :
  sepFree tok → Forall sepFree (splitSepFrom s tok inSep).
Proof.
  revert tok inSep. induction s as [|c s IH]; intros tok inSep Htok.
  - cbn. by constructor.
  - destruct (isSep c) eqn:E.
    + rewrite splitSepFrom_cons_sep by done. destruct inSep.
      * by apply IH.
      * constructor; [done |]. apply IH. constructor.
    + rewrite splitSepFrom_cons_free by done. apply IH.
      apply sepFree_app; [done |]. by repeat constructor.
Qed.

Lemma flightTokens_isToken (s x : string) : x ∈ flightTokens s → isToken x.
Proof.
  unfold flightTokens. intros [Hne Hx]%list_elem_of_filter. split.
  - by apply nonEmpty_true.
  - assert (sepFree "") as H0 by constructor.
    pose proof (splitSepFrom_sepFree s "" false H0) as H.
    rewrite Forall_forall in H. by apply H.
Qed.

(** Reading a separator-free run moves it into the current piece. *)
Lemma splitSepFrom_run (x rest tok : string) (inSep : bool) :
  sepFree x → x ≠ "" →
  splitSepFrom (x +:+ rest) tok inSep = splitSepFrom rest (tok +:+ x) false.
Proof.
  revert tok inSep. induction x as [|c x IH]; intros tok inSep Hx Hne; [done |].
  unfold sepFree in Hx. cbn [list_ascii_of_string] in Hx.
  inversion Hx as [|? ? Hc Hx']; subst.
  rewrite append_cons, splitSepFrom_cons_free by done.
  destruct x as [|c' x'].
  - done.
  - rewrite IH by done. by rewrite append_assoc.
Qed.

Lemma comma_isSep : isSep "," = true.
Proof. reflexivity. Qed.

Lemma blank_isSep : isSep " " = true.
Proof. reflexivity. Qed.

Lemma split_join (l : list string) (inSep : bool) :
  Forall isToken l → l ≠ [] → splitSepFrom (Js.join ", " l) "" inSep = l.
Proof.
  intros Hl. revert inSep. induction Hl as [|x l [Hne Hx] Hl IH]; intros inSep Hnil; [done |].
  destruct l as [|y l].
  - cbn [Js.join String.concat]. rewrite <- (append_empty_r x) at 1.
    by rewrite splitSepFrom_run.
  - change (Js.join ", " (x :: y :: l)) with (x +:+ ", " +:+ Js.join ", " (y :: l)).
    rewrite splitSepFrom_run by done.
    change (", " +:+ Js.join ", " (y :: l)) with (String "," (String " " (Js.join ", " (y :: l)))).
    rewrite splitSepFrom_cons_sep by apply comma_isSep.
    rewrite splitSepFrom_cons_sep by apply blank_isSep.
    f_equal. by apply IH.
Qed.

(** Joining designators and splitting again gives them back. *)
Lemma flightTokens_join (l : list string) :
  Forall isToken l → flightTokens (Js.join ", " l) = l.
Proof.
  intros Hl. unfold flightTokens, splitSep. destruct l as [|x l].
  - reflexivity.
  - rewrite split_join by done.
    induction Hl as [|y l' [Hy _] _ IH]; [done |].
    rewrite filter_cons_True by by apply nonEmpty_true. by rewrite IH.
Qed.

Lemma elem_of_uniqFrom (seen l : list string) (x : string) :
  x ∈ Js.uniqFrom seen l ↔ x ∈ l ∧ x ∉ seen.
Proof.
  revert seen. induction l as [|y l IH]; intros seen; cbn [Js.uniqFrom].
  - split; [intros H | intros [H _]]; inversion H.
  - case_bool_decide as Hy.
    + rewrite IH, elem_of_cons. split; [intros [? ?]; by auto |].
      intros [[-> | ?] ?]; [contradiction | done].
    + rewrite !elem_of_cons, IH, not_elem_of_cons.
      destruct (decide (x = y)) as [-> | Hne]; [tauto | tauto].
Qed.

Lemma elem_of_uniq (l : list string) (x : string) : x ∈ Js.uniq l ↔ x ∈ l.
Proof.
  unfold Js.uniq. rewrite elem_of_uniqFrom.
  split; [by intros [? _] | intros ?; split; [done | apply not_elem_of_nil]].
Qed.

Lemma flightTokens_empty : flightTokens "" = [].
Proof. reflexivity. Qed.

(** The flight set of a merge is the union of the two flight sets. *)
Lemma mergeFlights_tokens (existing : option string) (newFlights x : string) :
  x ∈ flightTokens (mergeFlights existing newFlights)
  ↔ x ∈ flightSet existing ∨ x ∈ flightTokens newFlights.
Proof.
  unfold mergeFlights, flightSet.
  destruct (Js.truthyS existing) eqn:He, (nonEmpty newFlights) eqn:Hn; cbn [negb andb].
  - rewrite flightTokens_join.
    + by rewrite elem_of_uniq, elem_of_app.
    + apply Forall_forall. intros y Hy%elem_of_uniq%elem_of_app.
      destruct Hy as [Hy | Hy]; by eapply flightTokens_isToken.
  - apply nonEmpty_false in Hn as ->. rewrite flightTokens_empty, elem_of_nil. tauto.
  - rewrite (orS_falsy existing "") by done. rewrite flightTokens_empty, elem_of_nil. tauto.
  - apply nonEmpty_false in Hn as ->. rewrite (orS_falsy existing "") by done.
    rewrite flightTokens_empty, elem_of_nil. tauto.
Qed.

End FlightFacts.

(** ** The update set of a run *)

Section UpdateFacts.

Variable sc : Script.
Variable existing : gmap string LocationRecord.

(** What the loop has written for a date is the merge of the stored
    record of that date with one of the bookings of that date. *)
Lemma updates_fold_lookup (bookings : list Booking) (st : SyncState) (d : string) :
  updates (fold_left (updateStep sc existing) bookings st) !! d = updates st !! d
  ∨ ∃ b, b ∈ bookings ∧ b_date b = d ∧ isManual (existing !! d) = false
         ∧ hasNew (existing !! d) (mergeEntry sc (existing !! d) b) = true
         ∧ updates (fold_left (updateStep sc existing) bookings st) !! d
           = Some (mergeEntry sc (existing !! d) b).
Proof.
  revert st. induction bookings as [|b bs IH]; intros st; [by left |].
  cbn [fold_left]. destruct (IH (updateStep sc existing st b)) as [Heq | (b' & Hin & Hd & Hm & Hn & Hl)].
  - rewrite Heq. unfold updateStep.
    destruct (isManual (existing !! b_date b)) eqn:Hman; [by left |].
    destruct (hasNew _ _) eqn:Hnew; [| by left].
    cbn [updates]. destruct (decide (b_date b = d)) as [<- | Hne].
    + right. exists b. rewrite lookup_insert_eq. repeat split; try done. apply elem_of_cons; by left.
    + left. by rewrite lookup_insert_ne.
  - right. exists b'. repeat split; try done. apply elem_of_cons; by right.
Qed.

Lemma updateFirebase_lookup (bookings : list Booking) (d : string) :
  updates (updateFirebase sc existing bookings) !! d = None
  ∨ ∃ b, b ∈ bookings ∧ b_date b = d ∧ isManual (existing !! d) = false
         ∧ hasNew (existing !! d) (mergeEntry sc (existing !! d) b) = true
         ∧ updates (updateFirebase sc existing bookings) !! d
           = Some (mergeEntry sc (existing !! d) b).
Proof.
  unfold updateFirebase.
  destruct (updates_fold_lookup bookings emptyState d) as [H | H]; [left | by right].
  rewrite H. apply lookup_empty.
Qed.

Lemma reconcile_lookup (bookings : list Booking) (d : string) :
  reconcile sc existing bookings !! d =
    match updates (updateFirebase sc existing bookings) !! d with
    | Some e => Some e
    | None => existing !! d
    end.
Proof.
  unfold reconcile, applyUpdates. rewrite lookup_union.
  destruct (updates _ !! d), (existing !! d); reflexivity.
Qed.

End UpdateFacts.

(** ** The merged entry against the stored record *)

Section MergeFacts.

Lemma preserved_refl (r : LocationRecord) : preserved r r.
Proof.
  unfold preserved. split_and!; try done.
  destruct (autoBooking r) as [[]|]; cbn; congruence.
Qed.

Lemma orS_Some_empty (s : string) : Js.orS (Some s) "" = s.
Proof. cbn. destruct (String.eqb_spec s ""); by subst. Qed.

Lemma orS_keeps (s d : string) : s ≠ "" → Js.orS (Some s) d = s.
Proof. intros H. cbn. apply String.eqb_neq in H. by rewrite H. Qed.

Lemma combinedSource_keeps (current : option LocationRecord) (booking : Booking) (line : string) :
  Js.includes (Js.orS (fieldOf current bookingSource) "") line = true →
  Js.includes (combinedSource current booking) line = true.
Proof.
  unfold combinedSource. intros H.
  destruct (nonEmpty _) eqn:Hne.
  - destruct (Js.includes _ (sourceInfo booking)); [done |]. by apply includes_app_l.
  - apply nonEmpty_false in Hne. rewrite Hne in H.
    unfold Js.includes in H. rewrite orb_false_r in H.
    apply prefix_empty_r in H as ->. apply includes_empty.
Qed.

Lemma mergeEntry_preserved (sc : Script) (r : LocationRecord) (booking : Booking) :
  preserved r (mergeEntry sc (Some r) booking).
Proof.
  unfold preserved, mergeEntry.
  cbn [place city country flights bookingSource autoBooking notes autoGps lat lon working
       fieldOf mbind option_bind].
  split_and!.
  - intros s -> Hs. by rewrite orS_keeps.
  - intros s -> Hs. by rewrite orS_keeps.
  - intros s -> Hs. by rewrite orS_keeps.
  - intros x Hx. unfold flightSet at 1. rewrite orS_Some_empty.
    apply mergeFlights_tokens. by left.
  - intros line. rewrite orS_Some_empty. apply (combinedSource_keeps (Some r)).
  - done.
  - intros s -> Hs. by rewrite orS_keeps.
  - by intros ->.
  - by intros ->.
  - by intros ->.
  - by intros ->.
Qed.

End MergeFacts.

(** ** The manual lock *)

(** C1. A record with a non-empty city whose [autoGps] and [autoBooking]
    are both false or absent is manual.  Whatever the bookings of a run,
    no update is emitted for its date and the store holds the very same
    record after the run. *)
Theorem manual_record_is_locked (sc : Script) (existing : gmap string LocationRecord)
    (bookings : list Booking) (d : string) (r : LocationRecord) :
  existing !! d = Some r →
  Js.truthyS (city r) = true →
  Js.truthyB (autoGps r) = false →
  Js.truthyB (autoBooking r) = false →
  updates (updateFirebase sc existing bookings) !! d = None
  ∧ reconcile sc existing bookings !! d = Some r.
Proof.
  intros Hr Hc Hg Hb.
  assert (isManual (existing !! d) = true) as Hman.
  { rewrite Hr. cbn. by rewrite Hc, Hg, Hb. }
  assert (updates (updateFirebase sc existing bookings) !! d = None) as Hnone.
  { destruct (updateFirebase_lookup sc existing bookings d) as [H | (b & _ & _ & Hm & _)]; [done |].
    congruence. }
  split; [done |]. by rewrite reconcile_lookup, Hnone.
Qed.

(** The record with city Paris, [autoGps] and [autoBooking] false, against
    a hotel and a flight booked for its day. *)
Lemma manual_record_is_locked_paris :
  updates (updateFirebase SyncBookings Sample.store
             [Sample.hotelAt "2025-06-05" "Lyon" "Hotel Y" calendar "Hotel Y";
              Sample.flightTo "2025-06-05" "AF12" "Lyon" "France" email "AF12 to Lyon"])
    !! "2025-06-05" = None
  ∧ reconcile SyncBookings Sample.store
      [Sample.hotelAt "2025-06-05" "Lyon" "Hotel Y" calendar "Hotel Y";
       Sample.flightTo "2025-06-05" "AF12" "Lyon" "France" email "AF12 to Lyon"]
    !! "2025-06-05" = Some Sample.paris.
Proof.
  apply (manual_record_is_locked SyncBookings Sample.store _ "2025-06-05" Sample.paris);
    vm_compute; reflexivity.
Defined.

(** ** Merges only add *)

(** X29. What one run keeps of a stored record: after the update set is
    applied the date still has a record, a non-empty stored place, city
    or country is the same, every stored flight is still in the flight
    set, every piece of the stored audit trail is still contained in the
    trail, [autoBooking] once true is true, non-empty notes are the same,
    and [autoGps], [lat], [lon] and [working] are the same when they are
    truthy.  The bookings are any list, so several of them may be for
    the same date. *)
Theorem reconcile_only_adds (sc : Script) (existing : gmap string LocationRecord)
    (bookings : list Booking) (d : string) (r : LocationRecord) :
  existing !! d = Some r →
  ∃ r', reconcile sc existing bookings !! d = Some r' ∧ preserved r r'.
Proof.
  intros Hr. rewrite reconcile_lookup.
  destruct (updateFirebase_lookup sc existing bookings d) as [H | (b & _ & _ & _ & _ & H)];
    rewrite H.
  - exists r. split; [done | apply preserved_refl].
  - eexists. split; [reflexivity |]. rewrite Hr. apply mergeEntry_preserved.
Qed.

(** A flight and a hotel booked for the same stored day. *)
Lemma reconcile_only_adds_same_date :
  ∃ r', reconcile SyncBookings Sample.store
          [Sample.flightTo "2025-06-01" "AZ204" "Rome" "Italy" email "AZ204 to FCO";
           Sample.hotelAt "2025-06-01" "Rome" "Hotel Z" email "Hotel Z Rome"]
        !! "2025-06-01" = Some r'
        ∧ preserved Sample.rome r'.
Proof.
  apply (reconcile_only_adds SyncBookings Sample.store _ "2025-06-01" Sample.rome).
  vm_compute. reflexivity.
Defined.

(** The conflict text is not among the fields a merge carries over: a
    later merge that finds no conflict of its own is emitted without
    it. *)
Remark stored_conflict_is_not_carried (sc : Script) (r : LocationRecord) (booking : Booking) :
  b_country booking = "" →
  countryConflict (mergeEntry sc (Some r) booking) = None.
Proof.
  intros H. unfold mergeEntry, conflictOf. cbn [countryConflict]. rewrite H.
  destruct sc; [| done]. cbn [nonEmpty String.eqb negb]. by rewrite andb_false_r.
Qed.

(** C2.  A run does take information away from a stored record.  The
    comments of [updateFirebase] say "existing data takes priority" and
    "Preserve existing fields", but the entry is built anew and only
    [lat], [lon], [working] and [autoGps] are copied into it.  The London
    GPS day of the sample store, first run: a flight to Milan is merged
    and the record is written with the conflict text.  Second run, over
    the store the first one left: a hotel night booked for the same day
    adds its place, passes the test for new information, and the record
    is written again without the conflict text, by the sync script and by
    the backfill script alike.  The fields that [preserved] names are
    kept there all the same. *)
Theorem later_merge_erases_the_conflict :
  (countryConflict <$>
     reconcile SyncBookings Sample.store
       [Sample.flightTo "2025-06-10" "BA576" "Milan" "Italy" calendar "BA576 LHR to MXP"]
     !! "2025-06-10")
  = Some (Some "GPS says UK, booking says Italy")
  ∧ (countryConflict <$>
       reconcile SyncBookings
         (reconcile SyncBookings Sample.store
            [Sample.flightTo "2025-06-10" "BA576" "Milan" "Italy" calendar "BA576 LHR to MXP"])
         [Sample.hotelAt "2025-06-10" "Milan" "Hotel Duomo" calendar "Hotel Duomo Milan"]
       !! "2025-06-10")
    = Some None
  ∧ (countryConflict <$>
       reconcile BackfillBookings
         (reconcile SyncBookings Sample.store
            [Sample.flightTo "2025-06-10" "BA576" "Milan" "Italy" calendar "BA576 LHR to MXP"])
         [Sample.hotelAt "2025-06-10" "Milan" "Hotel Duomo" calendar "Hotel Duomo Milan"]
       !! "2025-06-10")
    = Some None
  ∧ (place <$>
       reconcile SyncBookings
         (reconcile SyncBookings Sample.store
            [Sample.flightTo "2025-06-10" "BA576" "Milan" "Italy" calendar "BA576 LHR to MXP"])
         [Sample.hotelAt "2025-06-10" "Milan" "Hotel Duomo" calendar "Hotel Duomo Milan"]
       !! "2025-06-10")
    = Some (Some "Hotel Duomo").
Proof. repeat split; vm_compute; reflexivity. Qed.

(** ** The country conflict *)

(** In the sync script a merge over a GPS record whose country differs
    from the booking's carries the conflict text, and the country of the
    record stays. *)
Lemma sync_country_conflict (cur : LocationRecord) (booking : Booking) (k : string) :
  Js.truthyB (autoGps cur) = true →
  country cur = Some k → k ≠ "" →
  b_country booking ≠ "" → k ≠ b_country booking →
  countryConflict (mergeEntry SyncBookings (Some cur) booking)
    = Some ("GPS says " +:+ k +:+ ", booking says " +:+ b_country booking)
  ∧ country (mergeEntry SyncBookings (Some cur) booking) = Some k.
Proof.
  intros Hg Hk Hne Hb Hdiff.
  unfold mergeEntry, conflictOf. cbn [countryConflict country fieldOf mbind option_bind].
  rewrite Hg, Hk. rewrite orS_keeps by done. rewrite truthyS_Some.
  rewrite (proj2 (nonEmpty_true k)) by done.
  rewrite (proj2 (nonEmpty_true (b_country booking))) by done.
  rewrite bool_decide_eq_false_2 by congruence.
  split; [done | by rewrite orS_keeps].
Qed.

(** The backfill script never sets the conflict. *)
Lemma backfill_no_conflict (current : option LocationRecord) (booking : Booking) :
  countryConflict (mergeEntry BackfillBookings current booking) = None.
Proof. reflexivity. Qed.

(** C6, on the day located in London by GPS and a flight booked to
    Italy: the backfill script emits the merged record with the stored
    country and without any [countryConflict], where the sync script
    emits it with the conflict text. *)
Theorem backfill_drops_country_conflict :
  updates (updateFirebase BackfillBookings Sample.store
             [Sample.flightTo "2025-06-10" "BA576" "Milan" "Italy" calendar "BA576 LHR to MXP"])
    !! "2025-06-10"
  = Some {| place := Some ""; city := Some "London"; country := Some "UK";
            flights := Some "BA576"; notes := Some ""; lat := Some 51; lon := Some (-1);
            working := None; autoGps := Some true; autoBooking := Some true;
            bookingSource := Some "calendar: BA576 LHR to MXP"; countryConflict := None |}
  ∧ countryConflict <$>
      (updates (updateFirebase SyncBookings Sample.store
                  [Sample.flightTo "2025-06-10" "BA576" "Milan" "Italy" calendar "BA576 LHR to MXP"])
         !! "2025-06-10")
    = Some (Some "GPS says UK, booking says Italy").
Proof. split; vm_compute; reflexivity. Qed.

(** ** No-op suppression *)

Section HasNewFacts.

Lemma changed_filled (o : option string) (d : string) :
  changed o (Some (Js.orS o d)) ↔ Js.truthyS o = false ∧ d ≠ "".
Proof.
  unfold changed. rewrite orS_Some_empty.
  destruct (Js.truthyS o) eqn:E.
  - pose proof (orS_truthy o "" E) as H1. pose proof (orS_truthy o d E) as H2.
    split; [| by intros [? _]]. intros H. exfalso. apply H. congruence.
  - rewrite !orS_falsy by done. split; [by auto | intros [_ ?]; congruence].
Qed.

Lemma fill_test (o : option string) (d : string) :
  negb (Js.truthyS o) && Js.truthyS (Some (Js.orS o d)) = true ↔ changed o (Some (Js.orS o d)).
Proof.
  rewrite changed_filled, andb_true_iff, negb_true_iff, truthyS_Some.
  split; intros [H1 H2]; (split; [done |]).
  - rewrite orS_falsy in H2 by done. by apply nonEmpty_true.
  - rewrite orS_falsy by done. by apply nonEmpty_true.
Qed.

Lemma flights_test (fc : option string) (fe : string) :
  negb (Js.truthyS fc) && Js.truthyS (Some fe)
  || Js.truthyS (Some fe) && negb (bool_decide (Some fe = fc)) = true
  ↔ changed fc (Some fe) ∧ Js.orS (Some fe) "" ≠ "".
Proof.
  unfold changed. rewrite orS_Some_empty, truthyS_Some.
  rewrite orb_true_iff, !andb_true_iff, !negb_true_iff, nonEmpty_true, bool_decide_eq_false.
  split.
  - intros [[Hf Hne] | [Hne Hd]]; (split; [| done]).
    + rewrite orS_falsy by done. congruence.
    + intros H. apply Hd. subst fe. destruct fc as [s|]; [| done].
      by rewrite orS_Some_empty.
  - intros [Hc Hne]. right. split; [done |]. intros <-. by rewrite orS_Some_empty in Hc.
Qed.

Lemma source_test (bc : option string) (be : string) :
  negb (Js.truthyS bc) && Js.truthyS (Some be) = true ↔ newlyNonEmpty bc (Some be).
Proof.
  unfold newlyNonEmpty. rewrite orS_Some_empty, andb_true_iff, negb_true_iff, truthyS_Some.
  rewrite <- orS_empty_nonEmpty, nonEmpty_false, nonEmpty_true. done.
Qed.

(** The test of the source is [addsLocation]. *)
Lemma hasNew_addsLocation (sc : Script) (current : option LocationRecord) (booking : Booking) :
  hasNew current (mergeEntry sc current booking) = true
  ↔ addsLocation current (mergeEntry sc current booking).
Proof.
  destruct current as [cur|]; [| done].
  unfold hasNew, addsLocation, mergeEntry.
  cbn [place city flights bookingSource fieldOf mbind option_bind].
  rewrite !orb_true_iff, (fill_test (place cur)), (fill_test (city cur)).
  rewrite (source_test (bookingSource cur)).
  rewrite <- flights_test, orb_true_iff. tauto.
Qed.

End HasNewFacts.

(** C7, as the code has it.  For a date that is not manually locked, a
    booking emits its merged record as an update if and only if the
    stored record is absent, or place or city changes (which for these
    two means: becomes non-empty), or flights changes to a non-empty
    value, or bookingSource was empty and becomes non-empty; otherwise
    the booking is skipped and counted as skipped.  An audit line added
    to a trail that was not empty is not one of the cases. *)
Theorem update_emitted_iff_adds_location (sc : Script) (existing : gmap string LocationRecord)
    (st : SyncState) (booking : Booking) :
  isManual (existing !! b_date booking) = false →
  (emitted st (updateStep sc existing st booking) (b_date booking)
     (mergeEntry sc (existing !! b_date booking) booking)
   ↔ addsLocation (existing !! b_date booking) (mergeEntry sc (existing !! b_date booking) booking))
  ∧ (skipped st (updateStep sc existing st booking)
     ↔ ¬ addsLocation (existing !! b_date booking) (mergeEntry sc (existing !! b_date booking) booking)).
Proof.
  intros Hman. unfold updateStep. rewrite Hman.
  pose proof (hasNew_addsLocation sc (existing !! b_date booking) booking) as Hspec.
  destruct (hasNew _ _); unfold emitted, skipped; cbn [updates skippedCount skip].
  - assert (addsLocation (existing !! b_date booking)
              (mergeEntry sc (existing !! b_date booking) booking)) as Ha by by apply Hspec.
    split; split; try done.
    + intros [_ Hc]. lia.
  - assert (¬ addsLocation (existing !! b_date booking)
              (mergeEntry sc (existing !! b_date booking) booking)) as Ha.
    { intros H. apply Hspec in H. discriminate. }
    split; split; try done.
    + intros [_ Hc]. lia.
Qed.

(** A first booking for a day the store does not have is emitted. *)
Lemma update_emitted_iff_adds_location_new_day :
  (emitted emptyState (updateStep SyncBookings Sample.store emptyState Sample.milanNight)
     "2025-07-02" (mergeEntry SyncBookings (Sample.store !! "2025-07-02") Sample.milanNight)
   ↔ addsLocation (Sample.store !! "2025-07-02")
       (mergeEntry SyncBookings (Sample.store !! "2025-07-02") Sample.milanNight))
  ∧ (skipped emptyState (updateStep SyncBookings Sample.store emptyState Sample.milanNight)
     ↔ ¬ addsLocation (Sample.store !! "2025-07-02")
           (mergeEntry SyncBookings (Sample.store !! "2025-07-02") Sample.milanNight)).
Proof.
  apply (update_emitted_iff_adds_location SyncBookings Sample.store emptyState Sample.milanNight).
  vm_compute. reflexivity.
Defined.

(** C7 as the specification words it fails: the merge of the email
    [Sample.romeStay] into the stored day changes bookingSource, a new
    audit line is appended, and yet no update is emitted; the booking is
    counted as skipped. *)
Lemma audit_line_alone_is_skipped :
  addsInformation (Sample.store !! "2025-06-01")
    (mergeEntry SyncBookings (Sample.store !! "2025-06-01") Sample.romeStay)
  ∧ bookingSource (mergeEntry SyncBookings (Sample.store !! "2025-06-01") Sample.romeStay)
    = Some "calendar: Stay at Hotel X | email: Rome stay"
  ∧ skipped emptyState (updateStep SyncBookings Sample.store emptyState Sample.romeStay)
  ∧ ¬ emitted emptyState (updateStep SyncBookings Sample.store emptyState Sample.romeStay)
        "2025-06-01" (mergeEntry SyncBookings (Sample.store !! "2025-06-01") Sample.romeStay).
Proof.
  repeat split.
  - right. right. right. vm_compute. discriminate.
  - vm_compute. intros [_ H]. discriminate.
Qed.

(** ** The audit trail *)

Section AuditFacts.

Lemma sourceInfo_nonEmpty (booking : Booking) : nonEmpty (sourceInfo booking) = true.
Proof. unfold sourceInfo. by destruct (b_source booking). Qed.

Lemma append_nonEmpty (s t : string) : nonEmpty s = true → nonEmpty (s +:+ t) = true.
Proof. by destruct s. Qed.

Lemma combinedSource_nonEmpty (current : option LocationRecord) (booking : Booking) :
  nonEmpty (combinedSource current booking) = true.
Proof.
  unfold combinedSource.
  destruct (nonEmpty (Js.orS (fieldOf current bookingSource) "")) eqn:E.
  - destruct (Js.includes _ _); [done | by apply append_nonEmpty].
  - apply sourceInfo_nonEmpty.
Qed.

(** The merged trail always holds the line of the booking. *)
Lemma combinedSource_includes (current : option LocationRecord) (booking : Booking) :
  Js.includes (combinedSource current booking) (sourceInfo booking) = true.
Proof.
  unfold combinedSource. destruct (nonEmpty _).
  - destruct (Js.includes (Js.orS (fieldOf current bookingSource) "") (sourceInfo booking)) eqn:E;
      [done |].
    rewrite <- append_assoc. apply includes_app_r.
  - apply includes_refl.
Qed.


Lemma mergeEntry_not_manual (sc : Script) (current : option LocationRecord) (booking : Booking) :
  isManual (Some (mergeEntry sc current booking)) = false.
Proof. cbn. by rewrite andb_false_r. Qed.




(** The record of the booking's date after a run over that one
    booking. *)
Lemma single_run_lookup (sc : Script) (existing : gmap string LocationRecord) (booking : Booking) :
  reconcile sc existing [booking] !! b_date booking =
    if isManual (existing !! b_date booking) then existing !! b_date booking
    else if hasNew (existing !! b_date booking) (mergeEntry sc (existing !! b_date booking) booking)
         then Some (mergeEntry sc (existing !! b_date booking) booking)
         else existing !! b_date booking.
Proof.
  rewrite reconcile_lookup.
  change (updateFirebase sc existing [booking]) with (updateStep sc existing emptyState booking).
  unfold updateStep. destruct (isManual _); [by cbn; rewrite lookup_empty |].
  destruct (hasNew _ _); cbn [updates skip emptyState].
  - by rewrite lookup_insert_eq.
  - by rewrite lookup_empty.
Qed.





End AuditFacts.




(** ** The nights of a stay *)

Section NightFacts.

Lemma msPerDay_pos : 0 < msPerDay.
Proof. reflexivity. Qed.

Lemma dayOf_add (t k : Z) : dayOf (t + k * msPerDay) = dayOf t + k.
Proof. unfold dayOf. apply Z.div_add. discriminate. Qed.

Lemma dayOf_start (n : Z) : dayOf (n * msPerDay) = n.
Proof. unfold dayOf. apply Z.div_mul. discriminate. Qed.

(** The formatted date depends on the day alone. *)
Lemma fmtDate_day (t : Date) : fmtDate t = fmtDate (dayOf t * msPerDay).
Proof. unfold fmtDate, getFullYear, getMonth, getDate. by rewrite dayOf_start. Qed.

Lemma dateRangeLoop_below (n : nat) (d e : Date) :
  (∀ k, (k < n)%nat → d + Z.of_nat k * msPerDay ≤ e) →
  dateRangeLoop n d e = (fun k => fmtDate (d + Z.of_nat k * msPerDay)) <$> seq 0 n.
Proof.
  revert d. induction n as [|n IH]; intros d Hle; [reflexivity |].
  cbn [dateRangeLoop]. pose proof (Hle 0%nat ltac:(lia)) as H0.
  rewrite (proj2 (Z.leb_le d e)) by lia.
  cbn [seq fmap list_fmap]. f_equal; [f_equal; lia |].
  rewrite IH.
  - rewrite <- seq_shift, <- list_fmap_compose. apply list_fmap_ext.
    intros _ k _. cbn. f_equal. lia.
  - intros k Hk. specialize (Hle (S k) ltac:(lia)). lia.
Qed.

Lemma steps_below (start end_ : Date) (k : nat) :
  (k < dateRangeSteps start end_)%nat → start + Z.of_nat k * msPerDay ≤ end_.
Proof.
  unfold dateRangeSteps. intros Hk.
  pose proof (Z.mul_div_le (end_ - start) msPerDay msPerDay_pos).
  assert (Z.of_nat k ≤ (end_ - start) / msPerDay) by lia.
  pose proof msPerDay_pos. nia.
Qed.

(** After [dateRangeSteps] iterations the test of the loop fails: the
    loop has left, and more fuel changes nothing. *)
Lemma steps_exit (start end_ : Date) :
  end_ < start + Z.of_nat (dateRangeSteps start end_) * msPerDay.
Proof.
  unfold dateRangeSteps. pose proof msPerDay_pos.
  pose proof (Z.mod_pos_bound (end_ - start) msPerDay msPerDay_pos).
  pose proof (Z.div_mod (end_ - start) msPerDay ltac:(lia)).
  destruct (Z.le_gt_cases 0 ((end_ - start) / msPerDay + 1)); [| nia].
  rewrite Z2Nat.id by done. nia.
Qed.

Lemma dateRangeLoop_exit (n : nat) (d e : Date) : e < d → dateRangeLoop n d e = [].
Proof. intros H. destruct n; [done |]. cbn. by rewrite (proj2 (Z.leb_gt d e)). Qed.

Lemma dateRangeLoop_more (n extra : nat) (d e : Date) :
  e < d + Z.of_nat n * msPerDay →
  dateRangeLoop (n + extra) d e = dateRangeLoop n d e.
Proof.
  revert d. induction n as [|n IH]; intros d H.
  - rewrite !dateRangeLoop_exit; [done | lia | lia].
  - cbn [Nat.add dateRangeLoop]. destruct (d <=? e); [| done].
    f_equal. apply IH. lia.
Qed.

Lemma dateRange_enough_fuel (start end_ : Date) (extra : nat) :
  dateRangeLoop (dateRangeSteps start end_ + extra) start end_ = dateRange start end_.
Proof. apply dateRangeLoop_more, steps_exit. Qed.

(** [dateRange] is the days from the day of [start], one per whole day
    that fits between [start] and [end_]. *)
Lemma dateRange_days (start end_ : Date) :
  dateRange start end_ = daysFrom (dayOf start) (dateRangeSteps start end_).
Proof.
  unfold dateRange. rewrite dateRangeLoop_below by apply steps_below.
  unfold daysFrom. apply list_fmap_ext. intros _ k _. cbn.
  by rewrite fmtDate_day, dayOf_add.
Qed.

(** The number of nights the scripts find: the whole days between
    check-in and check-out. *)
Lemma nights_days (checkIn checkOut : Date) :
  nights checkIn checkOut
  = daysFrom (dayOf checkIn) (Z.to_nat ((checkOut - checkIn) / msPerDay)).
Proof.
  unfold nights. rewrite dateRange_days. f_equal. unfold dateRangeSteps. f_equal.
  change 86400000 with msPerDay.
  replace (checkOut - msPerDay - checkIn) with (checkOut - checkIn + (-1) * msPerDay) by lia.
  rewrite Z.div_add by discriminate. lia.
Qed.

Lemma whole_days (checkIn checkOut : Date) :
  (checkOut - checkIn) / msPerDay
  = dayOf checkOut - dayOf checkIn - (if timeOfDay checkOut <? timeOfDay checkIn then 1 else 0).
Proof.
  unfold dayOf, timeOfDay. pose proof msPerDay_pos as Hpos.
  pose proof (Z.div_mod checkIn msPerDay ltac:(lia)) as Hi.
  pose proof (Z.div_mod checkOut msPerDay ltac:(lia)) as Ho.
  pose proof (Z.mod_pos_bound checkIn msPerDay Hpos).
  pose proof (Z.mod_pos_bound checkOut msPerDay Hpos).
  destruct (Z.ltb_spec (checkOut mod msPerDay) (checkIn mod msPerDay)).
  - symmetry. apply (Z.div_unique _ _ _ (checkOut mod msPerDay - checkIn mod msPerDay + msPerDay));
      [lia | nia].
  - symmetry. apply (Z.div_unique _ _ _ (checkOut mod msPerDay - checkIn mod msPerDay));
      [lia | nia].
Qed.

(** When the stay starts no later in the day than it ends, as between
    two midnights, the nights are the days from check-in to the day
    before check-out. *)
Lemma nights_aligned (checkIn checkOut : Date) :
  timeOfDay checkIn ≤ timeOfDay checkOut →
  nights checkIn checkOut = residentNights checkIn checkOut.
Proof.
  intros H. rewrite nights_days, whole_days.
  rewrite (proj2 (Z.ltb_ge _ _)) by done. unfold residentNights. do 2 f_equal. lia.
Qed.

(** When it starts later in the day than it ends, the last night is
    missing. *)
Lemma nights_late_start (checkIn checkOut : Date) :
  timeOfDay checkOut < timeOfDay checkIn →
  nights checkIn checkOut
  = daysFrom (dayOf checkIn) (Z.to_nat (dayOf checkOut - dayOf checkIn - 1)).
Proof.
  intros H. rewrite nights_days, whole_days.
  by rewrite (proj2 (Z.ltb_lt _ _)) by done.
Qed.

End NightFacts.

(** The stay from 1 June 2025 to 4 June 2025, between two midnights, has
    its three nights. *)
Lemma nights_of_june_stay :
  nights 1748736000000 1748995200000 = ["2025-06-01"; "2025-06-02"; "2025-06-03"]
  ∧ (b_date <$> processEvent isoDate SyncBookings Sample.romeAllDay)
    = ["2025-06-01"; "2025-06-02"; "2025-06-03"].
Proof. split; vm_compute; reflexivity. Qed.

(** C3, on the calendar event [Sample.romeEvent], a stay from 1 June
    15:00 to 4 June 11:00: its nights are 1, 2 and 3 June, and both
    scripts produce 1 and 2 June only, since the loop of [dateRange]
    compares the time values and not the days. *)
Theorem timed_stay_loses_last_night :
  isoDate "2025-06-01T15:00:00" = Some 1748790000000
  ∧ isoDate "2025-06-04T11:00:00" = Some 1749034800000
  ∧ residentNights 1748790000000 1749034800000 = ["2025-06-01"; "2025-06-02"; "2025-06-03"]
  ∧ nights 1748790000000 1749034800000 = ["2025-06-01"; "2025-06-02"]
  ∧ (b_date <$> processEvent isoDate SyncBookings Sample.romeEvent) = ["2025-06-01"; "2025-06-02"]
  ∧ (b_date <$> processEvent isoDate BackfillBookings Sample.romeEvent) = ["2025-06-01"; "2025-06-02"].
Proof. repeat split; vm_compute; reflexivity. Qed.

(** ** Items about a car rental *)

(** C8. An item whose text matches the car-rental expression produces
    no booking, whatever else the text says: the test comes first, in
    the calendar loop and in the email loop of both scripts, and for an
    email whatever the folder it lies in. *)
Theorem car_rental_yields_no_booking (newDate : string → option Date) (sc : Script) :
  (∀ event, isCarRental (eventText event) = true → processEvent newDate sc event = [])
  ∧ (∀ folderType msg, isCarRental (messageText msg) = true →
       processMessage newDate sc folderType msg = []).
Proof.
  split.
  - intros event H. unfold processEvent. by rewrite H.
  - intros folderType msg H. unfold processMessage. by rewrite H.
Qed.

(** A rental event that also names a flight and an airport, and a rental
    email in the hotel folder that names a flight, a hotel and two
    dates. *)
Lemma car_rental_yields_no_booking_hertz :
  processEvent isoDate SyncBookings Sample.rentalEvent = []
  ∧ processMessage isoDate BackfillBookings hotel Sample.rentalMail = [].
Proof.
  split.
  - apply (proj1 (car_rental_yields_no_booking isoDate SyncBookings)). vm_compute. reflexivity.
  - apply (proj2 (car_rental_yields_no_booking isoDate BackfillBookings)). vm_compute. reflexivity.
Defined.

(** Each part of the vocabulary is matched, in any case of the letters. *)
Lemma car_rental_vocabulary :
  isCarRental "Car rental" = true ∧ isCarRental "your HERTZ booking" = true
  ∧ isCarRental "Avis" = true ∧ isCarRental "europcar" = true ∧ isCarRental "Sixt" = true
  ∧ isCarRental "Enterprise" = true ∧ isCarRental "rent-a-car" = true
  ∧ isCarRental "pick up at 9, drop off at 5" = true
  ∧ isCarRental "vehicle collection" = true
  ∧ isCarRental "Flight BA123 and Hotel Roma" = false.
Proof. repeat split; vm_compute; reflexivity. Qed.

(** Without the rental words the same items produce bookings. *)
Lemma other_signals_alone_yield_bookings :
  length (processMessage isoDate BackfillBookings hotel
            (mkMessage (Some "Flight and hotel")
               (Some "Flight BA123 on 2025-06-12, near your hotel, until 2025-06-15")))
  = 4%nat.
Proof. vm_compute. reflexivity. Qed.

(** ** Flight designators *)


(** ** A hotel email with a single date *)

Section SingleDateFacts.

Variable newDate : string → option Date.

Lemma dateRange_same_day (d : Date) : dateRange d d = [fmtDate d].
Proof.
  unfold dateRange, dateRangeSteps. rewrite Z.sub_diag. cbn [Z.div Z.add Z.to_nat Pos.to_nat].
  change (Z.to_nat (0 / msPerDay + 1)) with 1%nat. cbn [dateRangeLoop].
  by rewrite Z.leb_refl.
Qed.

(** The backfill script takes one date for a stay of one night. *)
Lemma backfill_single_night (d : Date) :
  String.leb TAX_YEAR_START (fmtDate d) = true →
  hotelNightsOfEmail BackfillBookings [d] = [fmtDate d].
Proof.
  intros H. unfold hotelNightsOfEmail. cbn [head last length Nat.ltb Nat.leb].
  unfold nights. replace (d + 86400000 - 86400000) with d by lia.
  rewrite dateRange_same_day. unfold inTaxYear. by rewrite filter_cons_True.
Qed.

(** The sync script takes no night from one date. *)
Lemma sync_single_no_night (d : Date) : hotelNightsOfEmail SyncBookings [d] = [].
Proof. reflexivity. Qed.

Lemma hotelOnly_app (l1 l2 : list Booking) : hotelOnly (l1 ++ l2) = hotelOnly l1 ++ hotelOnly l2.
Proof. apply filter_app. Qed.

Lemma hotelOnly_hotels (allText subject : string) (dates : list string) :
  hotelOnly (hotelFromEmail allText subject <$> dates) = hotelFromEmail allText subject <$> dates.
Proof.
  unfold hotelOnly. induction dates as [|x l IH]; [done |].
  cbn [fmap list_fmap]. rewrite filter_cons_True by done. f_equal. apply IH.
Qed.

Lemma hotelOnly_flight (dates : list Date) (isFlight : bool) (allTextUpper subject : string) :
  hotelOnly (match head dates with
             | Some first => if isFlight then [flightFromEmail allTextUpper subject first] else []
             | None => []
             end) = [].
Proof. destruct (head dates), isFlight; reflexivity. Qed.

(** In the backfill script a hotel email with exactly one valid date
    gives exactly one hotel booking, for that date. *)
Lemma backfill_one_date_one_hotel (folderType : BookingType) (msg : Message) (d : Date) :
  isCarRental (messageText msg) = false →
  bool_decide (folderType = hotel) || test emailHotelPattern (messageText msg) = true →
  validDates newDate BackfillBookings (messageText msg) = [d] →
  hotelOnly (processMessage newDate BackfillBookings folderType msg)
  = [hotelFromEmail (messageText msg) (Js.orS (msg_subject msg) "") (fmtDate d)].
Proof.
  intros Hcar Hhotel Hdates. unfold processMessage. rewrite Hcar, Hhotel, Hdates.
  rewrite hotelOnly_app, hotelOnly_flight, hotelOnly_hotels. cbn [app].
  assert (String.leb TAX_YEAR_START (fmtDate d) = true) as Hvalid.
  { assert (d ∈ validDates newDate BackfillBookings (messageText msg)) as Hin
      by (rewrite Hdates; apply elem_of_cons; by left).
    unfold validDates in Hin. by apply list_elem_of_filter in Hin as [? _]. }
  by rewrite backfill_single_night.
Qed.

(** In the sync script it gives none. *)
Lemma sync_one_date_no_hotel (folderType : BookingType) (msg : Message) (d : Date) :
  validDates newDate SyncBookings (messageText msg) = [d] →
  hotelOnly (processMessage newDate SyncBookings folderType msg) = [].
Proof.
  intros Hdates. unfold processMessage.
  destruct (isCarRental _); [done |]. rewrite Hdates.
  rewrite hotelOnly_app, hotelOnly_flight. cbn [app].
  destruct (bool_decide (folderType = hotel) || _); [| done].
  by rewrite sync_single_no_night.
Qed.

End SingleDateFacts.

(** C4, on the email [Sample.oneDateMail] of the hotel folder, whose only
    date is 12 June 2025: the backfill script takes it for a stay of one
    night and produces one hotel booking for that day; the sync script
    asks for two dates and produces nothing. *)
Theorem sync_ignores_single_date_hotel_email :
  validDates isoDate SyncBookings (messageText Sample.oneDateMail) = [1749686400000]
  ∧ fmtDate 1749686400000 = "2025-06-12"
  ∧ processMessage isoDate SyncBookings hotel Sample.oneDateMail = []
  ∧ ((fun b => (b_type b, b_date b)) <$> processMessage isoDate BackfillBookings hotel Sample.oneDateMail)
    = [(hotel, "2025-06-12")].
Proof. repeat split; vm_compute; reflexivity. Qed.

(** ** Deduplication *)

Section DedupFacts.

Lemma list_of_append (s t : string) :
  list_ascii_of_string (s +:+ t) = list_ascii_of_string s ++ list_ascii_of_string t.
Proof.
  induction s as [|c s IH]; [done |].
  rewrite append_cons. cbn [list_ascii_of_string app]. by rewrite IH.
Qed.

Lemma list_of_string_inj (s t : string) :
  list_ascii_of_string s = list_ascii_of_string t → s = t.
Proof.
  intros H. rewrite <- (string_of_list_ascii_of_string s), <- (string_of_list_ascii_of_string t).
  by rewrite H.
Qed.

(** The key [date + '|' + type] separates the groups. *)
Lemma bookingKey_inj (x y : Booking) : bookingKey x = bookingKey y ↔ groupOf x = groupOf y.
Proof.
  unfold bookingKey, groupOf. split; [| by intros [= -> ->]].
  intros H. apply (f_equal list_ascii_of_string) in H. rewrite !list_of_append in H.
  destruct (b_type x), (b_type y); cbn [typeName] in H.
  - apply app_inv_tail in H. apply list_of_string_inj in H. by rewrite H.
  - exfalso. apply (f_equal last) in H. rewrite !app_assoc in H.
    change (list_ascii_of_string "flight") with (list_ascii_of_string "fligh" ++ ["t"%char]) in H.
    change (list_ascii_of_string "hotel") with (list_ascii_of_string "hote" ++ ["l"%char]) in H.
    rewrite !app_assoc, !last_snoc in H. discriminate.
  - exfalso. apply (f_equal last) in H. rewrite !app_assoc in H.
    change (list_ascii_of_string "flight") with (list_ascii_of_string "fligh" ++ ["t"%char]) in H.
    change (list_ascii_of_string "hotel") with (list_ascii_of_string "hote" ++ ["l"%char]) in H.
    rewrite !app_assoc, !last_snoc in H. discriminate.
  - apply app_inv_tail in H. apply list_of_string_inj in H. by rewrite H.
Qed.

Lemma key_seen (l : list Booking) (b : Booking) :
  bookingKey b ∈ (bookingKey <$> l) ↔ groupOf b ∈ (groupOf <$> l).
Proof.
  rewrite !list_elem_of_fmap. split; intros (x & Hx & Hin); exists x; split; try done.
  - symmetry. apply bookingKey_inj. by symmetry.
  - symmetry. apply bookingKey_inj. by symmetry.
Qed.

(** The set [seen] holds the keys of the bookings read so far. *)
Lemma dedup_seen (l : list Booking) :
  (fold_left dedupStep l (∅, [])).1 = list_to_set (bookingKey <$> l).
Proof.
  induction l as [|b l IH] using rev_ind; [done |].
  rewrite fold_left_app. cbn [fold_left].
  destruct (fold_left dedupStep l (∅, [])) as [seen dd]. cbn [fst] in IH. subst seen.
  unfold dedupStep. rewrite fmap_app, list_to_set_app_L. cbn [fmap list_fmap list_to_set].
  case_bool_decide as Hin; cbn [fst].
  - apply set_eq. intros k. rewrite elem_of_union, elem_of_union, elem_of_singleton, elem_of_empty.
    split; [by auto |]. intros [? | [-> | []]]; done.
  - apply set_eq. intros k.
    rewrite !elem_of_union, elem_of_singleton, elem_of_empty. tauto.
Qed.

(** One more booking at the end of the list. *)
Lemma deduplicate_snoc (l : list Booking) (b : Booking) :
  deduplicate (l ++ [b]) =
    if bool_decide (groupOf b ∈ (groupOf <$> l)) then
      if nonEmpty (b_flights b) then mergeIntoFirst (b_date b) (b_flights b) (deduplicate l)
      else deduplicate l
    else deduplicate l ++ [b].
Proof.
  unfold deduplicate. rewrite fold_left_app. cbn [fold_left].
  pose proof (dedup_seen l) as Hseen.
  destruct (fold_left dedupStep l (∅, [])) as [seen dd]. cbn [fst snd] in *. subst seen.
  unfold dedupStep.
  rewrite (bool_decide_ext (bookingKey b ∈ list_to_set (C := gset string) (bookingKey <$> l))
             (groupOf b ∈ (groupOf <$> l))).
  - by destruct (bool_decide _).
  - rewrite elem_of_list_to_set. apply key_seen.
Qed.

Lemma sameButFlights_all (dd : list Booking) : Forall2 sameButFlights dd dd.
Proof. induction dd; by constructor. Qed.

Lemma mergeIntoFirst_same (date fl : string) (dd : list Booking) :
  Forall2 sameButFlights (mergeIntoFirst date fl dd) dd.
Proof.
  induction dd as [|k dd IH]; cbn [mergeIntoFirst]; [constructor |].
  destruct (String.eqb (b_date k) date).
  - constructor; [done | apply sameButFlights_all].
  - by constructor.
Qed.

Lemma sameButFlights_trans (a b c : Booking) :
  sameButFlights a b → sameButFlights b c → sameButFlights a c.
Proof. unfold sameButFlights. congruence. Qed.

Lemma sameButFlights_group (a b : Booking) : sameButFlights a b → groupOf a = groupOf b.
Proof. unfold sameButFlights, withFlights, groupOf. intros [= -> -> _ _ _ _ _]. done. Qed.

Lemma Forall2_same_groups (l1 l2 : list Booking) :
  Forall2 sameButFlights l1 l2 → groupOf <$> l1 = groupOf <$> l2.
Proof.
  induction 1 as [|a b l1 l2 Hab _ IH]; [done |].
  cbn [fmap list_fmap] in *. f_equal; [by apply sameButFlights_group | done].
Qed.

Lemma firstOfGroups_snoc (seen : list (string * BookingType)) (l : list Booking) (b : Booking) :
  firstOfGroups seen (l ++ [b]) =
    firstOfGroups seen l
    ++ (if bool_decide (groupOf b ∈ seen ++ (groupOf <$> l)) then [] else [b]).
Proof.
  revert seen. induction l as [|x l IH]; intros seen; cbn [app firstOfGroups fmap list_fmap].
  - rewrite app_nil_r. by destruct (bool_decide _).
  - case_bool_decide as Hx.
    + rewrite IH.
      rewrite (bool_decide_ext (groupOf b ∈ seen ++ (groupOf <$> l))
                 (groupOf b ∈ seen ++ groupOf x :: (groupOf <$> l))); [done |].
      rewrite !elem_of_app, elem_of_cons. split; [tauto |].
      intros [? | [-> | ?]]; tauto.
    + cbn [app]. rewrite IH.
      rewrite (bool_decide_ext (groupOf b ∈ (groupOf x :: seen) ++ (groupOf <$> l))
                 (groupOf b ∈ seen ++ groupOf x :: (groupOf <$> l))); [done |].
      rewrite !elem_of_app, !elem_of_cons. tauto.
Qed.

(** The kept bookings are the first bookings of the groups, up to
    their flights. *)
Lemma deduplicate_first (l : list Booking) :
  Forall2 sameButFlights (deduplicate l) (firstOfGroups [] l).
Proof.
  induction l as [|b l IH] using rev_ind; [constructor |].
  rewrite deduplicate_snoc, firstOfGroups_snoc. cbn [app].
  destruct (bool_decide (groupOf b ∈ groupOf <$> l)).
  - rewrite app_nil_r. destruct (nonEmpty (b_flights b)); [| done].
    eapply Forall2_trans; [| apply mergeIntoFirst_same | apply IH].
    apply sameButFlights_trans.
  - apply Forall2_app; [done |]. by constructor.
Qed.

Lemma firstOfGroups_groups (seen : list (string * BookingType)) (l : list Booking)
    (g : string * BookingType) :
  g ∈ (groupOf <$> firstOfGroups seen l) ↔ g ∈ (groupOf <$> l) ∧ g ∉ seen.
Proof.
  revert seen. induction l as [|x l IH]; intros seen; cbn [firstOfGroups fmap list_fmap].
  - rewrite elem_of_nil. tauto.
  - case_bool_decide as Hx.
    + rewrite IH, elem_of_cons. split; [tauto |]. intros [[-> | ?] ?]; tauto.
    + cbn [fmap list_fmap]. rewrite !elem_of_cons, IH, not_elem_of_cons.
      destruct (decide (g = groupOf x)) as [-> | ?]; tauto.
Qed.

(** Every group of the list has its kept booking. *)
Lemma deduplicate_groups (l : list Booking) (g : string * BookingType) :
  g ∈ (groupOf <$> deduplicate l) ↔ g ∈ (groupOf <$> l).
Proof.
  rewrite (Forall2_same_groups _ _ (deduplicate_first l)), firstOfGroups_groups.
  split; [tauto |]. intros ?. split; [done | apply not_elem_of_nil].
Qed.

(** Where the flights of a later booking go: into the first kept
    booking that has its date. *)
Lemma mergeIntoFirst_target (date fl : string) (dd : list Booking) :
  (∃ k, k ∈ dd ∧ b_date k = date) →
  ∃ pre k post,
    dd = pre ++ k :: post
    ∧ Forall (fun x => b_date x ≠ date) pre
    ∧ b_date k = date
    ∧ mergeIntoFirst date fl dd
      = pre ++ withFlights k (mergeFlights (Some (b_flights k)) fl) :: post.
Proof.
  induction dd as [|x dd IH]; intros (k & Hin & Hk).
  - by apply elem_of_nil in Hin.
  - cbn [mergeIntoFirst]. destruct (String.eqb_spec (b_date x) date) as [Heq | Hne].
    + exists [], x, dd. repeat split; try done.
    + apply elem_of_cons in Hin as [-> | Hin]; [done |].
      destruct IH as (pre & k' & post & -> & Hpre & Hk' & Hm); [by exists k |].
      exists (x :: pre), k', post. rewrite Hm. repeat split; try done. by constructor.
Qed.

Lemma firstOfGroups_app_l (seen : list (string * BookingType)) (l1 l2 : list Booking) (c : Booking) :
  c ∈ firstOfGroups seen l1 → c ∈ firstOfGroups seen (l1 ++ l2).
Proof.
  revert seen. induction l1 as [|x l1 IH]; intros seen; cbn [firstOfGroups app].
  - intros H. by apply elem_of_nil in H.
  - destruct (bool_decide (groupOf x ∈ seen)); [by apply IH |].
    rewrite !elem_of_cons. intros [-> | H]; [by left | right; by apply IH].
Qed.

Lemma Forall2_find_left {A B} (P : A → B → Prop) (l1 : list A) (l2 : list B) (y : B) :
  Forall2 P l1 l2 → y ∈ l2 → ∃ x, x ∈ l1 ∧ P x y.
Proof.
  induction 1 as [|a b l1 l2 Hab _ IH]; intros Hy.
  - by apply elem_of_nil in Hy.
  - apply elem_of_cons in Hy as [-> | Hy].
    + exists a. split; [apply elem_of_cons; by left | done].
    + destruct (IH Hy) as (x & Hx & HP). exists x. split; [apply elem_of_cons; by right | done].
Qed.

End DedupFacts.

(** C5, as the code has it.  The deduplication of the calendar bookings
    followed by the email bookings keeps, up to their flights, the first
    booking of every group (date, type), in the order of the list; the
    first booking of each group of the calendar is therefore kept,
    whatever the emails hold.  A later booking of a group already met is
    dropped; when its flights are not empty they are merged, as a union
    of flight sets, into the first kept booking that has its date, of
    whichever type. *)
Theorem deduplicate_keeps_first_merges_by_date (calendarBookings emailBookings : list Booking) :
  Forall2 sameButFlights (combine calendarBookings emailBookings)
    (firstOfGroups [] (calendarBookings ++ emailBookings))
  ∧ (∀ c, c ∈ firstOfGroups [] calendarBookings →
       ∃ k, k ∈ combine calendarBookings emailBookings ∧ sameButFlights k c)
  ∧ (∀ l b, groupOf b ∈ (groupOf <$> l) →
       (b_flights b = "" → deduplicate (l ++ [b]) = deduplicate l)
       ∧ (b_flights b ≠ "" →
          ∃ pre k post,
            deduplicate l = pre ++ k :: post
            ∧ Forall (fun x => b_date x ≠ b_date b) pre
            ∧ b_date k = b_date b
            ∧ deduplicate (l ++ [b])
              = pre ++ withFlights k (mergeFlights (Some (b_flights k)) (b_flights b)) :: post
            ∧ (∀ x, x ∈ flightTokens (mergeFlights (Some (b_flights k)) (b_flights b))
                    ↔ x ∈ flightTokens (b_flights k) ∨ x ∈ flightTokens (b_flights b)))).
Proof.
  split; [apply deduplicate_first |]. split.
  - intros c Hc. apply (Forall2_find_left _ _ _ _ (deduplicate_first _)).
    by apply firstOfGroups_app_l.
  - intros l b Hg. rewrite deduplicate_snoc, bool_decide_eq_true_2 by done. split.
    + intros ->. reflexivity.
    + intros Hne. rewrite (proj2 (nonEmpty_true _) Hne).
      destruct (mergeIntoFirst_target (b_date b) (b_flights b) (deduplicate l))
        as (pre & k & post & Hdd & Hpre & Hk & Hm).
      { apply deduplicate_groups in Hg. apply list_elem_of_fmap in Hg as (k & Hk & Hin).
        exists k. split; [done |]. by injection Hk as <- _. }
      exists pre, k, post. repeat split; try done.
      * intros Hx. apply mergeFlights_tokens in Hx. unfold flightSet in Hx.
        by rewrite orS_Some_empty in Hx.
      * intros Hx. apply mergeFlights_tokens. unfold flightSet. by rewrite orS_Some_empty.
Qed.

(** The email about the second flight of the day, after the hotel night
    and the first flight of the calendar. *)
Lemma deduplicate_keeps_first_merges_by_date_same_day :
  ∃ pre k post,
    deduplicate [Sample.hotelAt "2025-06-01" "Rome" "Hotel X" calendar "Hotel X";
                 Sample.flightTo "2025-06-01" "BA1" "Rome" "Italy" calendar "BA1 to FCO"]
      = pre ++ k :: post
    ∧ Forall (fun x => b_date x ≠ "2025-06-01") pre
    ∧ b_date k = "2025-06-01"
    ∧ deduplicate Sample.sameDay
      = pre ++ withFlights k (mergeFlights (Some (b_flights k)) "BA2") :: post
    ∧ (∀ x, x ∈ flightTokens (mergeFlights (Some (b_flights k)) "BA2")
            ↔ x ∈ flightTokens (b_flights k) ∨ x ∈ flightTokens "BA2").
Proof.
  refine (proj2 (proj2 (proj2 (deduplicate_keeps_first_merges_by_date [] []))
                   [Sample.hotelAt "2025-06-01" "Rome" "Hotel X" calendar "Hotel X";
                    Sample.flightTo "2025-06-01" "BA1" "Rome" "Italy" calendar "BA1 to FCO"]
                   (Sample.flightTo "2025-06-01" "BA2" "Rome" "Italy" email "BA2 to FCO") _) _).
  - apply elem_of_cons. right. apply elem_of_cons. left. reflexivity.
  - discriminate.
Defined.

(** C5 as the specification words it fails: the flight BA2 of the email
    is a later booking of the group (1 June, flight), whose kept booking
    is the calendar flight BA1; its flights are merged into the hotel
    night, the first kept booking of that date, and the kept flight stays
    as it was. *)
Lemma duplicate_flights_leave_their_group :
  deduplicate Sample.sameDay
  = [ mkBooking hotel "2025-06-01" "BA2" "Rome" "" "Hotel X" calendar "Hotel X";
      mkBooking flight "2025-06-01" "BA1" "Rome" "Italy" "" calendar "BA1 to FCO" ]
  ∧ ¬ (∃ k, k ∈ deduplicate Sample.sameDay ∧ b_type k = flight
            ∧ "BA2" ∈ flightTokens (b_flights k)).
Proof.
  assert (deduplicate Sample.sameDay
          = [ mkBooking hotel "2025-06-01" "BA2" "Rome" "" "Hotel X" calendar "Hotel X";
              mkBooking flight "2025-06-01" "BA1" "Rome" "Italy" "" calendar "BA1 to FCO" ]) as E
    by (vm_compute; reflexivity).
  split; [done |]. rewrite E. intros (k & Hk & Ht & Hf).
  apply elem_of_cons in Hk as [-> | Hk]; [discriminate |].
  apply elem_of_cons in Hk as [-> | Hk]; [| by apply elem_of_nil in Hk].
  change (flightTokens (b_flights _)) with ["BA1"] in Hf.
  apply elem_of_cons in Hf as [Hf | Hf]; [discriminate | by apply elem_of_nil in Hf].
Qed.

(** * Further properties *)

(** ** The update set and the counters *)

Section RunFacts.

Variable sc : Script.
Variable existing : gmap string LocationRecord.

Lemma updates_fold_last (bookings : list Booking) (st : SyncState) (d : string) :
  updates (fold_left (updateStep sc existing) bookings st) !! d =
    if isManual (existing !! d) then updates st !! d
    else match last (writers sc existing d bookings) with
         | Some b => Some (mergeEntry sc (existing !! d) b)
         | None => updates st !! d
         end.
Proof.
  induction bookings as [|b bs IH] using rev_ind.
  - cbn. by destruct (isManual _).
  - rewrite fold_left_app. cbn [fold_left]. unfold writers in *. rewrite filter_app.
    unfold updateStep at 1.
    destruct (decide (b_date b = d)) as [Hd | Hd].
    + subst d. destruct (isManual (existing !! b_date b)) eqn:Hman; [exact IH |].
      destruct (hasNew _ _) eqn:Hnew.
      * cbn [updates]. rewrite lookup_insert_eq.
        rewrite filter_cons_True by done. rewrite filter_nil. by rewrite last_snoc.
      * cbn [skip updates]. rewrite filter_cons_False by (intros [_ ?]; congruence).
        rewrite filter_nil, app_nil_r. exact IH.
    + rewrite filter_cons_False by (intros [? _]; congruence).
      rewrite filter_nil, app_nil_r.
      destruct (isManual (existing !! b_date b)); [exact IH |].
      destruct (hasNew _ _); [| exact IH].
      cbn [updates]. rewrite lookup_insert_ne by done. exact IH.
Qed.

Lemma counters_step (st : SyncState) (b : Booking) :
  (newCount (updateStep sc existing st b)
   = newCount st + length (filter (fun b => existing !! b_date b = None) [b]))%nat
  ∧ (newCount (updateStep sc existing st b) + mergedCount (updateStep sc existing st b)
     + skippedCount (updateStep sc existing st b)
     = newCount st + mergedCount st + skippedCount st + 1)%nat.
Proof.
  unfold updateStep. destruct (existing !! b_date b) as [r|] eqn:Hcur.
  - rewrite filter_cons_False by congruence. rewrite filter_nil.
    destruct (isManual (Some r)); [cbn; lia |].
    destruct (hasNew _ _); cbn; lia.
  - rewrite filter_cons_True by done. rewrite filter_nil. cbn. lia.
Qed.

Lemma counters_fold (bookings : list Booking) (st : SyncState) :
  (newCount (fold_left (updateStep sc existing) bookings st) =
     newCount st + length (filter (fun b => existing !! b_date b = None) bookings))%nat
  ∧ (newCount (fold_left (updateStep sc existing) bookings st)
     + mergedCount (fold_left (updateStep sc existing) bookings st)
     + skippedCount (fold_left (updateStep sc existing) bookings st)
     = newCount st + mergedCount st + skippedCount st + length bookings)%nat.
Proof.
  revert st. induction bookings as [|b bs IH]; intros st; [cbn; lia |].
  cbn [fold_left]. destruct (IH (updateStep sc existing st b)) as [H1 H2].
  destruct (counters_step st b) as [S1 S2].
  change (b :: bs) with ([b] ++ bs). rewrite filter_app, !length_app.
  cbn [length] in *. lia.
Qed.

End RunFacts.

(** X1. The update a run writes for a date is the merge of the stored
    record of that date with one booking only: the last booking of that
    date whose merge passes the test of [hasNew].  What earlier bookings
    of the same date would have added is overwritten; a manually entered
    date gets no update. *)
Theorem update_is_merge_of_last_writer (sc : Script) (existing : gmap string LocationRecord)
    (bookings : list Booking) (d : string) :
  updates (updateFirebase sc existing bookings) !! d =
    if isManual (existing !! d) then None
    else mergeEntry sc (existing !! d) <$> last (writers sc existing d bookings).
Proof.
  unfold updateFirebase. rewrite updates_fold_last. cbn [updates emptyState].
  rewrite lookup_empty. destruct (isManual _); [done |]. by destruct (last _).
Qed.

(** X2. Every booking of a run is counted once, as new, merged or
    skipped.  The count of new ones is the number of bookings, not of
    dates, whose date has no stored record: the nights of one stay on
    fresh dates, or a flight and a hotel of one fresh date, each count.
    The dates are to be no names of [Object.prototype], as no formatted
    date is: read under such a name the snapshot object gives an
    inherited value, and the booking counts as merged. *)
Theorem every_booking_is_counted_once (sc : Script) (existing : gmap string LocationRecord)
    (bookings : list Booking) :
  (newCount (updateFirebase sc existing bookings)
   + mergedCount (updateFirebase sc existing bookings)
   + skippedCount (updateFirebase sc existing bookings) = length bookings)%nat
  ∧ ((∀ b, b ∈ bookings → b_date b ∉ objectPrototypeKeys) →
     newCount (updateFirebase sc existing bookings)
     = length (filter (fun b => existing !! b_date b = None) bookings)).
Proof.
  destruct (counters_fold sc existing bookings emptyState) as [H1 H2].
  unfold updateFirebase. cbn [newCount mergedCount skippedCount emptyState] in *.
  split; [lia |]. intros _. lia.
Qed.

(** The night in Milan on a new day and the email on the stored day of
    Rome: one new. *)
Lemma every_booking_is_counted_once_two :
  newCount (updateFirebase SyncBookings Sample.store [Sample.romeStay; Sample.milanNight])
  = length (filter (fun b => Sample.store !! b_date b = None) [Sample.romeStay; Sample.milanNight]).
Proof.
  apply (proj2 (every_booking_is_counted_once SyncBookings Sample.store
                  [Sample.romeStay; Sample.milanNight])).
  intros b Hb. apply elem_of_cons in Hb as [-> | Hb].
  - apply (proj1 (bool_decide_eq_false _)). vm_compute. reflexivity.
  - apply elem_of_cons in Hb as [-> | Hb]; [| by apply elem_of_nil in Hb].
    apply (proj1 (bool_decide_eq_false _)). vm_compute. reflexivity.
Defined.

(** X3. A run touches the dates of its bookings only: the record of any
    other date is after the run what it was before, also when the store
    has none. *)
Theorem other_dates_are_untouched (sc : Script) (existing : gmap string LocationRecord)
    (bookings : list Booking) (d : string) :
  (∀ b, b ∈ bookings → b_date b ≠ d) →
  updates (updateFirebase sc existing bookings) !! d = None
  ∧ reconcile sc existing bookings !! d = existing !! d.
Proof.
  intros Hd.
  assert (updates (updateFirebase sc existing bookings) !! d = None) as Hnone.
  { destruct (updateFirebase_lookup sc existing bookings d) as [H | (b & Hin & Hb & _)]; [done |].
    by apply Hd in Hin. }
  split; [done |]. by rewrite reconcile_lookup, Hnone.
Qed.

Lemma other_dates_are_untouched_gps_day :
  updates (updateFirebase SyncBookings Sample.store [Sample.romeStay; Sample.milanNight])
    !! "2025-06-10" = None
  ∧ reconcile SyncBookings Sample.store [Sample.romeStay; Sample.milanNight] !! "2025-06-10"
    = Sample.store !! "2025-06-10".
Proof.
  apply (other_dates_are_untouched SyncBookings Sample.store
           [Sample.romeStay; Sample.milanNight] "2025-06-10").
  intros b Hb. apply elem_of_cons in Hb as [-> | Hb]; [vm_compute; discriminate |].
  apply elem_of_cons in Hb as [-> | Hb]; [vm_compute; discriminate |].
  by apply elem_of_nil in Hb.
Defined.

(** ** The algebra of mergeFlights *)

Section MergeFlightsFacts.

Lemma uniqFrom_seen_ext (seen1 seen2 l : list string) :
  (∀ x, x ∈ seen1 ↔ x ∈ seen2) → Js.uniqFrom seen1 l = Js.uniqFrom seen2 l.
Proof.
  revert seen1 seen2. induction l as [|y l IH]; intros seen1 seen2 H; [done |].
  cbn [Js.uniqFrom]. rewrite (bool_decide_ext (y ∈ seen1) (y ∈ seen2)) by apply H.
  destruct (bool_decide (y ∈ seen2)); [by apply IH |].
  f_equal. apply IH. intros x. rewrite !elem_of_cons, H. tauto.
Qed.

Lemma uniqFrom_app (seen l1 l2 : list string) :
  Js.uniqFrom seen (l1 ++ l2) = Js.uniqFrom seen l1 ++ Js.uniqFrom (l1 ++ seen) l2.
Proof.
  revert seen. induction l1 as [|y l1 IH]; intros seen; [done |].
  cbn [app Js.uniqFrom]. case_bool_decide as Hy.
  - rewrite IH. f_equal. apply uniqFrom_seen_ext. intros x.
    rewrite !elem_of_app, elem_of_cons, elem_of_app. split; [tauto |].
    intros [-> | [? | ?]]; tauto.
  - cbn [app]. rewrite IH. do 2 f_equal. apply uniqFrom_seen_ext. intros x.
    rewrite !elem_of_app, !elem_of_cons, elem_of_app. tauto.
Qed.

Lemma uniqFrom_all_seen (seen l : list string) :
  (∀ x, x ∈ l → x ∈ seen) → Js.uniqFrom seen l = [].
Proof.
  induction l as [|y l IH]; intros H; [done |].
  cbn [Js.uniqFrom]. rewrite bool_decide_eq_true_2 by (apply H, elem_of_cons; by left).
  apply IH. intros x Hx. apply H, elem_of_cons. by right.
Qed.

Lemma uniqFrom_NoDup_id (seen l : list string) :
  NoDup l → (∀ x, x ∈ l → x ∉ seen) → Js.uniqFrom seen l = l.
Proof.
  intros Hl. revert seen. induction Hl as [|y l Hy Hl IH]; intros seen Hs; [done |].
  cbn [Js.uniqFrom]. rewrite bool_decide_eq_false_2 by (apply Hs, elem_of_cons; by left).
  f_equal. apply IH. intros x Hx. rewrite not_elem_of_cons. split.
  - intros ->. contradiction.
  - apply Hs, elem_of_cons. by right.
Qed.

Lemma uniqFrom_NoDup (seen l : list string) : NoDup (Js.uniqFrom seen l).
Proof.
  revert seen. induction l as [|y l IH]; intros seen; cbn [Js.uniqFrom]; [constructor |].
  destruct (bool_decide (y ∈ seen)); [apply IH |].
  constructor; [| apply IH]. rewrite elem_of_uniqFrom, not_elem_of_cons. tauto.
Qed.

Lemma uniq_NoDup (l : list string) : NoDup (Js.uniq l).
Proof. apply uniqFrom_NoDup. Qed.

(** A list without repetition absorbs what it already holds. *)
Lemma uniq_absorb (u l : list string) :
  NoDup u → (∀ x, x ∈ l → x ∈ u) → Js.uniq (u ++ l) = u.
Proof.
  intros Hu Hl. unfold Js.uniq. rewrite uniqFrom_app, app_nil_r.
  rewrite (uniqFrom_all_seen u l Hl), app_nil_r.
  apply uniqFrom_NoDup_id; [done |]. intros x _. apply not_elem_of_nil.
Qed.

Lemma join_cons_nonEmpty (x : string) (l : list string) :
  x ≠ "" → nonEmpty (Js.join ", " (x :: l)) = true.
Proof.
  intros Hx. apply nonEmpty_true. destruct x as [|c x]; [done |].
  destruct l; cbn [Js.join String.concat]; [done |]. by rewrite append_cons.
Qed.

Lemma join_tokens_nonEmpty (l : list string) :
  Forall isToken l → nonEmpty (Js.join ", " l) = negb (bool_decide (l = [])).
Proof.
  intros Hl. destruct Hl as [|x l [Hx _] _]; [done |]. by rewrite join_cons_nonEmpty.
Qed.

Lemma uniq_tokens (l1 l2 : string) :
  Forall isToken (Js.uniq (flightTokens l1 ++ flightTokens l2)).
Proof.
  apply Forall_forall. intros y Hy%elem_of_uniq%elem_of_app.
  destruct Hy as [Hy | Hy]; by eapply flightTokens_isToken.
Qed.

(** A booking without flights leaves the stored field. *)
Lemma mergeFlights_nothing (existing : option string) :
  mergeFlights existing "" = Js.orS existing "".
Proof.
  unfold mergeFlights. cbn [nonEmpty String.eqb negb]. rewrite andb_true_r.
  destruct (Js.truthyS existing) eqn:He; cbn [negb]; [done |]. by rewrite orS_falsy.
Qed.

Lemma mergeFlights_both (existing : option string) (newFlights : string) :
  Js.truthyS existing = true → nonEmpty newFlights = true →
  mergeFlights existing newFlights
  = Js.join ", " (Js.uniq (flightTokens (Js.orS existing "") ++ flightTokens newFlights)).
Proof. intros He Hn. unfold mergeFlights. by rewrite He, Hn. Qed.

Lemma mergeFlights_fresh (existing : option string) (newFlights : string) :
  Js.truthyS existing = false → mergeFlights existing newFlights = newFlights.
Proof.
  intros He. unfold mergeFlights. rewrite He. cbn [negb andb].
  destruct (nonEmpty newFlights) eqn:Hn; cbn [negb]; [done |].
  symmetry. by apply nonEmpty_false.
Qed.

(** What two non-empty fields merge to is normalised. *)
Lemma mergeFlights_normalised (s newFlights : string) :
  s ≠ "" → newFlights ≠ "" → normalised (mergeFlights (Some s) newFlights).
Proof.
  intros Hs Hn. rewrite mergeFlights_both.
  - eexists. split; [reflexivity |]. split; [apply uniq_NoDup | apply uniq_tokens].
  - rewrite truthyS_Some. by apply nonEmpty_true.
  - by apply nonEmpty_true.
Qed.

(** Merging the same normalised flights a second time changes nothing. *)
Lemma mergeFlights_again (existing : option string) (newFlights : string) :
  normalised newFlights →
  mergeFlights (Some (mergeFlights existing newFlights)) newFlights
  = mergeFlights existing newFlights.
Proof.
  intros (l & -> & Hnd & Htok).
  destruct l as [|x l].
  - (* no flights in the booking *)
    cbn [Js.join String.concat]. rewrite !mergeFlights_nothing. apply orS_Some_empty.
  - assert (nonEmpty (Js.join ", " (x :: l)) = true) as Hne.
    { apply join_cons_nonEmpty. by destruct (Forall_inv Htok). }
    destruct (Js.truthyS existing) eqn:He.
    + (* both sides hold flights *)
      rewrite (mergeFlights_both existing) by done.
      rewrite flightTokens_join by done.
      set (u := Js.uniq (flightTokens (Js.orS existing "") ++ x :: l)).
      assert (Forall isToken u) as Hu.
      { apply Forall_forall. intros y Hy%elem_of_uniq%elem_of_app.
        destruct Hy as [Hy | Hy]; [by eapply flightTokens_isToken |].
        by apply (proj1 (Forall_forall _ _) Htok). }
      assert (u ≠ []) as Hnil.
      { intros E.
        assert (x ∈ u) as Hx
          by (apply elem_of_uniq, elem_of_app; right; apply elem_of_cons; by left).
        rewrite E in Hx. by apply elem_of_nil in Hx. }
      rewrite mergeFlights_both.
      * rewrite orS_Some_empty, !flightTokens_join by done.
        f_equal. apply uniq_absorb; [apply uniq_NoDup |].
        intros y Hy. apply elem_of_uniq, elem_of_app. by right.
      * rewrite truthyS_Some, join_tokens_nonEmpty by done. by rewrite bool_decide_eq_false_2.
      * done.
    + (* the stored field is empty *)
      rewrite (mergeFlights_fresh existing) by done.
      rewrite mergeFlights_both by (by rewrite ?truthyS_Some).
      rewrite orS_Some_empty, flightTokens_join by done.
      f_equal. by apply uniq_absorb.
Qed.

End MergeFlightsFacts.

(** X4. The flight set of a merge is the union of the two flight sets,
    so that on flight sets [mergeFlights] is idempotent, commutative and
    associative: the order in which bookings are merged does not change
    which designators a record holds. *)
Theorem mergeFlights_is_set_union (a b c : string) :
  (∀ x, x ∈ flightTokens (mergeFlights (Some a) b) ↔ x ∈ flightTokens a ∨ x ∈ flightTokens b)
  ∧ (∀ x, x ∈ flightTokens (mergeFlights (Some a) a) ↔ x ∈ flightTokens a)
  ∧ (∀ x, x ∈ flightTokens (mergeFlights (Some a) b) ↔ x ∈ flightTokens (mergeFlights (Some b) a))
  ∧ (∀ x, x ∈ flightTokens (mergeFlights (Some (mergeFlights (Some a) b)) c)
          ↔ x ∈ flightTokens (mergeFlights (Some a) (mergeFlights (Some b) c))).
Proof.
  assert (∀ s t x, x ∈ flightTokens (mergeFlights (Some s) t)
                   ↔ x ∈ flightTokens s ∨ x ∈ flightTokens t) as U.
  { intros s t x. rewrite mergeFlights_tokens. unfold flightSet. by rewrite orS_Some_empty. }
  split_and!; intros x; rewrite ?U; tauto.
Qed.

(** X5. When the stored field and the booking both hold flights, the
    merged field is normalised: its designators are joined by a comma
    and a blank and none occurs twice, whatever the separators and
    repetitions of the two inputs. *)
Theorem merged_flights_are_normalised (stored newFlights : string) :
  stored ≠ "" → newFlights ≠ "" →
  normalised (mergeFlights (Some stored) newFlights)
  ∧ NoDup (flightTokens (mergeFlights (Some stored) newFlights)).
Proof.
  intros Hs Hn. split; [by apply mergeFlights_normalised |].
  destruct (mergeFlights_normalised stored newFlights Hs Hn) as (l & -> & Hnd & Htok).
  by rewrite flightTokens_join.
Qed.

Lemma merged_flights_are_normalised_sample :
  normalised (mergeFlights (Some "BA123,BA456  BA123") "AZ12 , BA456")
  ∧ NoDup (flightTokens (mergeFlights (Some "BA123,BA456  BA123") "AZ12 , BA456")).
Proof. apply merged_flights_are_normalised; discriminate. Defined.

(** ** A second run of the same booking *)

Section SecondRunFacts.

Lemma fill_again (o : option string) (d : string) :
  negb (Js.truthyS (Some (Js.orS o d))) && Js.truthyS (Some (Js.orS (Some (Js.orS o d)) d))
  = false.
Proof.
  rewrite !truthyS_Some. destruct (nonEmpty (Js.orS o d)) eqn:E; [done |].
  apply nonEmpty_false in E. cbn [negb andb].
  destruct (Js.truthyS o) eqn:Ho.
  - pose proof (orS_truthy o d Ho) as H. rewrite E in H. subst o. discriminate.
  - rewrite (orS_falsy o d Ho) in E |- *. subst d. reflexivity.
Qed.

(** The merge of a booking into its own merge passes no test of
    [hasNew]. *)
Lemma merge_again_adds_nothing (sc : Script) (current : option LocationRecord) (booking : Booking) :
  normalised (b_flights booking) →
  hasNew (Some (mergeEntry sc current booking))
         (mergeEntry sc (Some (mergeEntry sc current booking)) booking) = false.
Proof.
  intros Hn. unfold hasNew.
  cbn [mergeEntry place city flights bookingSource fieldOf mbind option_bind].
  rewrite !fill_again, (mergeFlights_again _ _ Hn).
  rewrite bool_decide_eq_true_2 by done.
  rewrite (truthyS_Some (combinedSource current booking)), combinedSource_nonEmpty.
  cbn [negb andb orb]. rewrite andb_false_r, andb_negb_l. reflexivity.
Qed.

(** The second run of a booking over the store its first run left. *)
Lemma second_run_silent (sc : Script) (existing : gmap string LocationRecord) (booking : Booking) :
  normalised (b_flights booking) →
  updates (updateFirebase sc (reconcile sc existing [booking]) [booking]) = ∅.
Proof.
  intros Hn.
  change (updateFirebase sc (reconcile sc existing [booking]) [booking])
    with (updateStep sc (reconcile sc existing [booking]) emptyState booking).
  unfold updateStep. rewrite single_run_lookup.
  destruct (isManual (existing !! b_date booking)) eqn:Hman.
  - by rewrite Hman.
  - destruct (hasNew (existing !! b_date booking) _) eqn:Hnew.
    + rewrite mergeEntry_not_manual. by rewrite merge_again_adds_nothing.
    + by rewrite Hman, Hnew.
Qed.

(** A run without updates leaves the store. *)
Lemma silent_store (sc : Script) (store : gmap string LocationRecord) (bookings : list Booking) :
  updates (updateFirebase sc store bookings) = ∅ → reconcile sc store bookings = store.
Proof. intros H. unfold reconcile, applyUpdates. rewrite H. apply (left_id_L ∅ (∪)). Qed.

End SecondRunFacts.

(** X6. A run over one booking whose flights field is normalised, as the
    extractors and [mergeFlights] write it, reaches a fixed point at
    once: a second run of the same booking over the resulting store
    emits no update and leaves the store as it is. *)
Theorem second_run_of_a_booking_is_silent (sc : Script) (existing : gmap string LocationRecord)
    (booking : Booking) :
  normalised (b_flights booking) →
  updates (updateFirebase sc (reconcile sc existing [booking]) [booking]) = ∅
  ∧ reconcile sc (reconcile sc existing [booking]) [booking] = reconcile sc existing [booking].
Proof.
  intros Hn. pose proof (second_run_silent sc existing booking Hn) as Hempty.
  split; [exact Hempty | by apply silent_store].
Qed.

Lemma second_run_of_a_booking_is_silent_flight :
  updates (updateFirebase SyncBookings
             (reconcile SyncBookings Sample.store
                [Sample.flightTo "2025-06-01" "AZ204, BA123" "Rome" "Italy" email "AZ204 to FCO"])
             [Sample.flightTo "2025-06-01" "AZ204, BA123" "Rome" "Italy" email "AZ204 to FCO"]) = ∅
  ∧ reconcile SyncBookings
      (reconcile SyncBookings Sample.store
         [Sample.flightTo "2025-06-01" "AZ204, BA123" "Rome" "Italy" email "AZ204 to FCO"])
      [Sample.flightTo "2025-06-01" "AZ204, BA123" "Rome" "Italy" email "AZ204 to FCO"]
    = reconcile SyncBookings Sample.store
        [Sample.flightTo "2025-06-01" "AZ204, BA123" "Rome" "Italy" email "AZ204 to FCO"].
Proof.
  apply (second_run_of_a_booking_is_silent SyncBookings Sample.store).
  exists ["AZ204"; "BA123"]. split; [reflexivity |]. split.
  - apply NoDup_cons. split; [| apply NoDup_singleton].
    intros H. apply elem_of_cons in H as [H | H]; [discriminate | by apply elem_of_nil in H].
  - repeat constructor; try discriminate.
Defined.

(** X7. Every record a run writes carries [autoBooking] and an audit
    trail that holds the line of a booking of its date; the lock test
    does not take it for a manual record, and it is the record of its
    date in the store after the run. *)
Theorem written_records_stay_open (sc : Script) (existing : gmap string LocationRecord)
    (bookings : list Booking) (d : string) (e : LocationRecord) :
  updates (updateFirebase sc existing bookings) !! d = Some e →
  autoBooking e = Some true
  ∧ isManual (Some e) = false
  ∧ (∃ b, b ∈ bookings ∧ b_date b = d
          ∧ Js.includes (Js.orS (bookingSource e) "") (sourceInfo b) = true)
  ∧ reconcile sc existing bookings !! d = Some e.
Proof.
  intros He.
  destruct (updateFirebase_lookup sc existing bookings d) as [H | (b & Hin & Hb & _ & _ & H)];
    [congruence |].
  rewrite He in H. injection H as ->. split_and!.
  - reflexivity.
  - apply mergeEntry_not_manual.
  - exists b. split_and!; try done. cbn [mergeEntry bookingSource].
    rewrite orS_Some_empty. apply combinedSource_includes.
  - by rewrite reconcile_lookup, He.
Qed.

Lemma written_records_stay_open_milan :
  autoBooking (mergeEntry SyncBookings None Sample.milanNight) = Some true
  ∧ isManual (Some (mergeEntry SyncBookings None Sample.milanNight)) = false
  ∧ (∃ b, b ∈ [Sample.milanNight] ∧ b_date b = "2025-07-02"
          ∧ Js.includes (Js.orS (bookingSource (mergeEntry SyncBookings None Sample.milanNight)) "")
              (sourceInfo b) = true)
  ∧ reconcile SyncBookings Sample.store [Sample.milanNight] !! "2025-07-02"
    = Some (mergeEntry SyncBookings None Sample.milanNight).
Proof.
  apply (written_records_stay_open SyncBookings Sample.store [Sample.milanNight] "2025-07-02").
  vm_compute. reflexivity.
Defined.

(** ** The deduplication as a whole *)

Section DedupWhole.

Lemma firstOfGroups_NoDup (seen : list (string * BookingType)) (l : list Booking) :
  NoDup (groupOf <$> firstOfGroups seen l).
Proof.
  revert seen. induction l as [|x l IH]; intros seen; cbn [firstOfGroups fmap list_fmap].
  - constructor.
  - case_bool_decide as Hx; [apply IH |].
    cbn [fmap list_fmap]. apply NoDup_cons. split; [| apply IH].
    rewrite firstOfGroups_groups, elem_of_cons. tauto.
Qed.

Lemma firstOfGroups_length (seen : list (string * BookingType)) (l : list Booking) :
  (length (firstOfGroups seen l) ≤ length l)%nat.
Proof.
  revert seen. induction l as [|x l IH]; intros seen; cbn [firstOfGroups length]; [lia |].
  case_bool_decide; cbn [length].
  - specialize (IH seen). lia.
  - specialize (IH (groupOf x :: seen)). lia.
Qed.

(** A list that holds no group twice is kept as it is. *)
Lemma deduplicate_distinct (l : list Booking) : NoDup (groupOf <$> l) → deduplicate l = l.
Proof.
  induction l as [|b l IH] using rev_ind; [done |].
  rewrite fmap_app. cbn [fmap list_fmap]. intros Hnd.
  apply NoDup_app in Hnd as (Hl & Hb & _).
  rewrite deduplicate_snoc, bool_decide_eq_false_2, IH; [done | done |].
  intros Hin. apply (Hb _ Hin). apply list_elem_of_singleton. reflexivity.
Qed.

Lemma flightsOfDay_app (d : string) (l1 l2 : list Booking) (x : string) :
  flightsOfDay d (l1 ++ l2) x ↔ flightsOfDay d l1 x ∨ flightsOfDay d l2 x.
Proof.
  unfold flightsOfDay. split.
  - intros (b & Hin & Hd & Hx). apply elem_of_app in Hin as [Hin | Hin]; [left | right]; by exists b.
  - intros [(b & Hin & Hd & Hx) | (b & Hin & Hd & Hx)]; exists b; rewrite elem_of_app; tauto.
Qed.

Lemma flightsOfDay_one (d : string) (b : Booking) (x : string) :
  flightsOfDay d [b] x ↔ b_date b = d ∧ x ∈ flightTokens (b_flights b).
Proof.
  unfold flightsOfDay. split.
  - intros (k & Hin & Hd & Hx). apply list_elem_of_singleton in Hin as ->. done.
  - intros [Hd Hx]. exists b. by rewrite list_elem_of_singleton.
Qed.

Lemma flightsOfDay_cons (d : string) (b : Booking) (l : list Booking) (x : string) :
  flightsOfDay d (b :: l) x ↔ flightsOfDay d [b] x ∨ flightsOfDay d l x.
Proof. apply (flightsOfDay_app d [b] l). Qed.

End DedupWhole.

(** X8. The deduplication keeps exactly one booking of every group
    (date, type) of its input and no other: the kept bookings have
    pairwise distinct groups, every group of the input is among them,
    they are no more than the input had, and a list that was
    deduplicated is left as it is by a second pass. *)
Theorem deduplicate_one_per_group (allBookings : list Booking) :
  NoDup (groupOf <$> deduplicate allBookings)
  ∧ (∀ g, g ∈ (groupOf <$> deduplicate allBookings) ↔ g ∈ (groupOf <$> allBookings))
  ∧ (length (deduplicate allBookings) ≤ length allBookings)%nat
  ∧ deduplicate (deduplicate allBookings) = deduplicate allBookings.
Proof.
  assert (NoDup (groupOf <$> deduplicate allBookings)) as Hnd.
  { rewrite (Forall2_same_groups _ _ (deduplicate_first allBookings)). apply firstOfGroups_NoDup. }
  split_and!.
  - done.
  - apply deduplicate_groups.
  - rewrite (Forall2_length _ _ _ (deduplicate_first allBookings)). apply firstOfGroups_length.
  - by apply deduplicate_distinct.
Qed.

(** X9. The deduplication loses no flight code and invents none: the
    codes the kept bookings hold for a day are the codes the bookings
    of the input held for that day. *)
Theorem deduplicate_keeps_flights_of_day (allBookings : list Booking) (dateStr code : string) :
  flightsOfDay dateStr (deduplicate allBookings) code ↔ flightsOfDay dateStr allBookings code.
Proof.
  induction allBookings as [|b l IH] using rev_ind; [done |].
  rewrite deduplicate_snoc, (flightsOfDay_app dateStr l [b]), <- IH, flightsOfDay_one.
  case_bool_decide as Hg.
  - destruct (nonEmpty (b_flights b)) eqn:Hne.
    + destruct (mergeIntoFirst_target (b_date b) (b_flights b) (deduplicate l))
        as (pre & k & post & Hdd & _ & Hk & ->).
      { apply deduplicate_groups in Hg. apply list_elem_of_fmap in Hg as (k & Hk & Hin).
        exists k. split; [done |]. by injection Hk as <- _. }
      rewrite Hdd, !flightsOfDay_app, !(flightsOfDay_cons dateStr _ post), !flightsOfDay_one.
      cbn [withFlights b_date b_flights]. rewrite mergeFlights_tokens. unfold flightSet.
      rewrite orS_Some_empty, Hk. tauto.
    + apply nonEmpty_false in Hne. rewrite Hne, flightTokens_empty, elem_of_nil. tauto.
  - rewrite flightsOfDay_app, flightsOfDay_one. tauto.
Qed.

(** ** What a match of the flight expression holds *)

Section MatchFacts.

Lemma run_Chr_inv (p : ascii → bool) (s : mstate) (k : cont) (z : mstate) :
  run (Chr p) s k = Some z →
  ∃ c t, rest s = c :: t ∧ p c = true ∧ k (mkM (Some c) t (caps s)) = Some z.
Proof.
  cbn [run]. destruct (rest s) as [|c t]; [done |].
  destruct (p c) eqn:Hp; [| done]. intros H. by exists c, t.
Qed.

(** A repetition of a class takes code units of the class, between
    [lo] and [hi] of them, and leaves the captures as they were. *)
Lemma rep_Chr_inv (p : ascii → bool) (greedy : bool) (n : nat) :
  ∀ (lo : nat) (hi : option nat) (s : mstate) (k : cont) (z : mstate),
    (∀ h, hi = Some h → (lo ≤ h)%nat) →
    rep (run (Chr p)) greedy lo hi n s k = Some z →
    ∃ cs t b,
      rest s = cs ++ t ∧ Forall (fun c => p c = true) cs
      ∧ (lo ≤ length cs)%nat ∧ (∀ h, hi = Some h → (length cs ≤ h)%nat)
      ∧ k (mkM b t (caps s)) = Some z.
Proof.
  induction n as [|n IH]; intros lo hi s k z Hhi; cbn [rep].
  - destruct lo; [| done]. intros H. exists [], (rest s), (before s).
    split_and!; [done | constructor | done | cbn [length]; lia | by destruct s].
  - assert (∀ lo', (lo' = 0%nat ∨ lo = S lo') →
              run (Chr p) s
                (fun s' =>
                   if Nat.eqb lo 0 && Nat.eqb (length (rest s')) (length (rest s)) then None
                   else rep (run (Chr p)) greedy (Nat.pred lo) (Nat.pred <$> hi) n s' k) = Some z →
              hi ≠ Some 0%nat →
              ∃ cs t b,
                rest s = cs ++ t ∧ Forall (fun c => p c = true) cs
                ∧ (lo ≤ length cs)%nat ∧ (∀ h, hi = Some h → (length cs ≤ h)%nat)
                ∧ k (mkM b t (caps s)) = Some z) as Hagain.
    { intros lo' _ H Hne. apply run_Chr_inv in H as (c & t & Hs & Hp & H).
      cbn [rest] in H. rewrite Hs in H. cbn [length] in H.
      replace (Nat.eqb (length t) (S (length t))) with false in H
        by (symmetry; apply Nat.eqb_neq; lia).
      rewrite andb_false_r in H.
      apply IH in H as (cs & t' & b & Ht & Hcs & Hlo & Hhi' & H).
      - cbn [rest caps] in *. exists (c :: cs), t', b. split_and!.
        + by rewrite Hs, Ht.
        + by constructor.
        + cbn [length]. lia.
        + intros h ->. cbn [length]. specialize (Hhi' (Nat.pred h) eq_refl).
          destruct h; [done | cbn in Hhi'; lia].
        + done.
      - intros h Hh. destruct hi as [h0|]; [| done]. injection Hh as <-.
        specialize (Hhi h0 eq_refl). lia. }
    assert (k s = Some z → lo = 0%nat →
            ∃ cs t b,
              rest s = cs ++ t ∧ Forall (fun c => p c = true) cs
              ∧ (lo ≤ length cs)%nat ∧ (∀ h, hi = Some h → (length cs ≤ h)%nat)
              ∧ k (mkM b t (caps s)) = Some z) as Hstop.
    { intros H ->. exists [], (rest s), (before s).
      split_and!; [done | constructor | done | cbn [length]; lia | by destruct s]. }
    destruct hi as [[|h]|].
    + intros H. apply Hstop; [done |]. specialize (Hhi 0%nat eq_refl). lia.
    + destruct lo as [|lo].
      * destruct greedy.
        -- destruct (run (Chr p) s _) eqn:Hr.
           ++ intros [= ->]. by apply (Hagain 0%nat); [left | |].
           ++ intros H. by apply Hstop.
        -- destruct (k s) eqn:Hk.
           ++ intros [= ->]. by apply Hstop.
           ++ intros H. by apply (Hagain 0%nat); [left | |].
      * intros H. by apply (Hagain lo); [right | |].
    + destruct lo as [|lo].
      * destruct greedy.
        -- destruct (run (Chr p) s _) eqn:Hr.
           ++ intros [= ->]. by apply (Hagain 0%nat); [left | |].
           ++ intros H. by apply Hstop.
        -- destruct (k s) eqn:Hk.
           ++ intros [= ->]. by apply Hstop.
           ++ intros H. by apply (Hagain 0%nat); [left | |].
      * intros H. by apply (Hagain lo); [right | |].
Qed.

Lemma run_Rep_Chr_inv (p : ascii → bool) (greedy : bool) (lo : nat) (hi : option nat)
    (s : mstate) (k : cont) (z : mstate) :
  (∀ h, hi = Some h → (lo ≤ h)%nat) →
  run (Rep greedy lo hi (Chr p)) s k = Some z →
  ∃ cs t b,
    rest s = cs ++ t ∧ Forall (fun c => p c = true) cs
    ∧ (lo ≤ length cs)%nat ∧ (∀ h, hi = Some h → (length cs ≤ h)%nat)
    ∧ k (mkM b t (caps s)) = Some z.
Proof. intros Hhi. cbn [run]. by apply rep_Chr_inv. Qed.

(** A group around such a repetition captures what it took. *)
Lemma run_Grp_Rep_Chr_inv (i : nat) (p : ascii → bool) (greedy : bool) (lo h : nat)
    (s : mstate) (k : cont) (z : mstate) :
  (lo ≤ h)%nat →
  run (Grp i (Rep greedy lo (Some h) (Chr p))) s k = Some z →
  ∃ cs t b,
    Forall (fun c => p c = true) cs ∧ (lo ≤ length cs ≤ h)%nat
    ∧ k (mkM b t ((i, string_of_list_ascii cs) :: caps s)) = Some z.
Proof.
  intros Hlo. change (run (Grp i ?r) s k)
    with (run r s (fun s' => k (mkM (before s') (rest s') ((i, consumed s s') :: caps s')))).
  intros H. apply run_Rep_Chr_inv in H as (cs & t & b & Hs & Hcs & Hl & Hh & H).
  - exists cs, t, b. split_and!; [done | done | by apply Hh |].
    cbn [before rest caps] in H. unfold consumed in H. cbn [rest] in H.
    rewrite Hs, length_app in H.
    replace (length cs + length t - length t)%nat with (length cs) in H by lia.
    by rewrite take_app_length in H.
  - intros ? [= <-]. done.
Qed.

(** The state at the end of a match of the flight expression holds the
    two letters as group 1 and the digits as group 2. *)
Lemma flightPattern_inv (s0 z : mstate) :
  run flightPattern s0 Some = Some z →
  ∃ letters digits,
    caps z = (2%nat, string_of_list_ascii digits) :: (1%nat, string_of_list_ascii letters) :: caps s0
    ∧ length letters = 2%nat ∧ Forall (fun c => Js.isUpper c = true) letters
    ∧ (1 ≤ length digits ≤ 4)%nat ∧ Forall (fun c => Js.isDigit c = true) digits.
Proof.
  unfold flightPattern. cbn [seqs].
  change (run (Seq Bnd ?r) s0 Some)
    with (if xorb (isWordAt (before s0)) (isWordAt (head (rest s0))) then run r s0 Some else None).
  destruct (xorb _ _); [| done].
  change (run (Seq ?r1 ?r2) s0 Some) with (run r1 s0 (fun s' => run r2 s' Some)).
  intros H. apply run_Grp_Rep_Chr_inv in H as (letters & t1 & b1 & Hup & Hl1 & H); [| lia].
  change (run (Seq ?r1 ?r2) ?s Some) with (run r1 s (fun s' => run r2 s' Some)) in H.
  apply run_Rep_Chr_inv in H as (sp & t2 & b2 & _ & _ & _ & _ & H); [| done].
  cbn [caps] in H.
  change (run (Seq ?r1 ?r2) ?s Some) with (run r1 s (fun s' => run r2 s' Some)) in H.
  apply run_Grp_Rep_Chr_inv in H as (digits & t3 & b3 & Hdg & Hl2 & H); [| lia].
  cbn [run caps] in H. destruct (xorb _ _); [| done]. injection H as <-.
  exists letters, digits. cbn [caps]. split_and!; try done; lia.
Qed.

(** The matches of an expression come from runs of it on fresh
    captures. *)
Lemma execAt_inv (r : re) (s : list ascii) :
  ∀ prev pos f, execAt r prev s pos = Some f →
    ∃ prev' s', run r (mkM prev' s' []) Some = Some (final f).
Proof.
  induction s as [|c s IH]; intros prev pos f; cbn [execAt].
  - destruct (run r _ Some) eqn:Hr; [| done]. intros [= <-]. cbn [final]. eauto.
  - destruct (run r _ Some) eqn:Hr.
    + intros [= <-]. cbn [final]. eauto.
    + apply IH.
Qed.

Lemma scanFrom_inv (r : re) (fuel : nat) :
  ∀ prev s pos f, f ∈ scanFrom fuel r prev s pos →
    ∃ prev' s', run r (mkM prev' s' []) Some = Some (final f).
Proof.
  induction fuel as [|fuel IH]; intros prev s pos f; cbn [scanFrom].
  - intros H. by apply elem_of_nil in H.
  - destruct (execAt r prev s pos) as [g|] eqn:Hg; [| intros H; by apply elem_of_nil in H].
    destruct (_ <? _)%nat.
    + rewrite elem_of_cons. intros [-> | H]; [by eapply execAt_inv | by eapply IH].
    + rewrite list_elem_of_singleton. intros ->. by eapply execAt_inv.
Qed.

Lemma string_of_list_app (l1 l2 : list ascii) :
  string_of_list_ascii (l1 ++ l2) = string_of_list_ascii l1 +:+ string_of_list_ascii l2.
Proof. induction l1 as [|c l1 IH]; [done |]. cbn. by rewrite IH. Qed.

Lemma flightCode_designator (text : string) (f : found) :
  f ∈ scan flightPattern text → designator (flightCode f).
Proof.
  intros Hf. apply scanFrom_inv in Hf as (prev & s & Hrun).
  apply flightPattern_inv in Hrun as (letters & digits & Hcaps & Hrest).
  exists letters, digits. split; [| done].
  unfold flightCode, group. rewrite Hcaps. cbn [lookupCap Nat.eqb caps].
  by rewrite !orS_Some_empty, string_of_list_app.
Qed.

Lemma upper_not_sep (c : ascii) : Js.isUpper c = true → isSep c = false.
Proof.
  destruct c as [[] [] [] [] [] [] [] []]; vm_compute; congruence.
Qed.

Lemma digit_not_sep (c : ascii) : Js.isDigit c = true → isSep c = false.
Proof.
  destruct c as [[] [] [] [] [] [] [] []]; vm_compute; congruence.
Qed.

Lemma designator_isToken (code : string) : designator code → isToken code.
Proof.
  intros (letters & digits & -> & Hl & Hup & Hd & Hdg). split.
  - destruct letters; [done | discriminate].
  - unfold sepFree. rewrite list_ascii_of_string_of_list_ascii. apply Forall_app. split.
    + eapply Forall_impl; [apply Hup | apply upper_not_sep].
    + eapply Forall_impl; [apply Hdg | apply digit_not_sep].
Qed.

Lemma extractFlights_designators (text : string) : Forall designator (extractFlights text).
Proof.
  unfold extractFlights. destruct (nonEmpty text); [| constructor].
  apply Forall_forall. intros code Hin. apply elem_of_uniq, list_elem_of_fmap in Hin as (f & -> & Hf).
  by eapply flightCode_designator.
Qed.

Lemma extractFlights_NoDup (text : string) : NoDup (extractFlights text).
Proof. unfold extractFlights. destruct (nonEmpty text); [apply uniq_NoDup | constructor]. Qed.

Lemma extractFlights_normalised (text : string) :
  normalised (Js.join ", " (extractFlights text)).
Proof.
  exists (extractFlights text). split_and!; [done | apply extractFlights_NoDup |].
  eapply Forall_impl; [apply extractFlights_designators | apply designator_isToken].
Qed.

End MatchFacts.

(** X10. Every code [extractFlights] returns is two upper-case letters
    followed by one to four digits, whatever the text, and no code is
    returned twice; joined with [", "] as the bookings hold them, the
    codes are read back as they were by the split of [mergeFlights]. *)
Theorem extractFlights_returns_designators (text : string) :
  Forall designator (extractFlights text)
  ∧ NoDup (extractFlights text)
  ∧ flightTokens (Js.join ", " (extractFlights text)) = extractFlights text.
Proof.
  split_and!.
  - apply extractFlights_designators.
  - apply extractFlights_NoDup.
  - apply flightTokens_join.
    eapply Forall_impl; [apply extractFlights_designators | apply designator_isToken].
Qed.

(** ** What the two readers produce *)

Section PipelineFacts.

Variable newDate : string → option Date.

Lemma normalised_empty : normalised "".
Proof. exists []. split_and!; [done | constructor | constructor]. Qed.

(** A booking of the calendar is a flight booking built from the start
    of its event or a hotel booking built for one night. *)
Lemma processEvent_inv (sc : Script) (event : CalendarEvent) (b : Booking) :
  b ∈ processEvent newDate sc event →
  (∃ evStart, parseDate newDate (ev_start event) = Some evStart
     ∧ b = flightFromEvent (eventText event) (Js.toUpperCase (eventText event))
             (Js.orS (ev_subject event) "") evStart
     ∧ (sc = BackfillBookings → String.ltb (fmtDate evStart) TAX_YEAR_START = false))
  ∨ (∃ evStart evEnd dateStr,
       parseDate newDate (ev_start event) = Some evStart
       ∧ parseDate newDate (ev_end event) = Some evEnd
       ∧ dateStr ∈ nights evStart evEnd
       ∧ (sc = BackfillBookings → dateStr ∈ inTaxYear (nights evStart evEnd))
       ∧ b = hotelFromEvent (eventText event) (Js.orS (ev_location event) "")
               (Js.orS (ev_subject event) "") dateStr).
Proof.
  unfold processEvent. destruct (isCarRental _); [by intros ?%elem_of_nil |].
  destruct (negb _ && negb _); [by intros ?%elem_of_nil |].
  destruct (parseDate newDate (ev_start event)) as [evStart|]; [| by intros ?%elem_of_nil].
  assert ((sc = BackfillBookings → String.ltb (fmtDate evStart) TAX_YEAR_START = false)
          ∨ match sc with
            | SyncBookings => false
            | BackfillBookings => String.ltb (fmtDate evStart) TAX_YEAR_START
            end = true) as [Hfloor | ->].
  { destruct sc; [by left |]. destruct (String.ltb _ _); [by right | by left]. }
  2: by intros ?%elem_of_nil.
  replace (match sc with
           | SyncBookings => false
           | BackfillBookings => String.ltb (fmtDate evStart) TAX_YEAR_START
           end) with false by (destruct sc; [done | by rewrite Hfloor]).
  rewrite elem_of_app. intros [H | H].
  - left. destruct (test calendarFlightPattern _); [| by apply elem_of_nil in H].
    apply list_elem_of_singleton in H. by exists evStart.
  - right. destruct (parseDate newDate (ev_end event)) as [evEnd|]; [| by apply elem_of_nil in H].
    destruct (test calendarHotelPattern _); [| by apply elem_of_nil in H].
    apply list_elem_of_fmap in H as (dateStr & -> & Hd).
    exists evStart, evEnd, dateStr. split_and!; try done.
    + destruct sc; [done |]. unfold inTaxYear in Hd. by apply list_elem_of_filter in Hd as [_ ?].
    + by intros ->.
Qed.

(** A booking of a mail folder is a flight booking dated by the first
    date of its message or a hotel booking built for one night. *)
Lemma processMessage_inv (sc : Script) (folderType : BookingType) (msg : Message) (b : Booking) :
  b ∈ processMessage newDate sc folderType msg →
  (∃ first, head (validDates newDate sc (messageText msg)) = Some first
     ∧ b = flightFromEmail (Js.toUpperCase (messageText msg)) (Js.orS (msg_subject msg) "") first)
  ∨ (∃ dateStr,
       dateStr ∈ hotelNightsOfEmail sc (validDates newDate sc (messageText msg))
       ∧ b = hotelFromEmail (messageText msg) (Js.orS (msg_subject msg) "") dateStr).
Proof.
  unfold processMessage. destruct (isCarRental _); [by intros ?%elem_of_nil |].
  rewrite elem_of_app. intros [H | H].
  - left. destruct (head _) as [first|]; [| by apply elem_of_nil in H].
    destruct (_ || _ || _); [| by apply elem_of_nil in H].
    apply list_elem_of_singleton in H. by exists first.
  - right. destruct (_ || _); [| by apply elem_of_nil in H].
    apply list_elem_of_fmap in H as (dateStr & -> & Hd). by exists dateStr.
Qed.

Lemma processCalendar_elem (sc : Script) (events : list CalendarEvent) (b : Booking) :
  b ∈ processCalendar newDate sc events
  ↔ ∃ event, event ∈ events ∧ b ∈ processEvent newDate sc event.
Proof. unfold processCalendar. rewrite list_elem_of_bind. split; intros (x & ? & ?); by exists x. Qed.

Lemma processEmailsFromFolder_elem (sc : Script) (folderType : BookingType)
    (messages : list Message) (b : Booking) :
  b ∈ processEmailsFromFolder newDate sc folderType messages
  ↔ ∃ msg, msg ∈ messages ∧ b ∈ processMessage newDate sc folderType msg.
Proof. unfold processEmailsFromFolder. rewrite list_elem_of_bind. split; intros (x & ? & ?); by exists x. Qed.

Lemma processCalendar_normalised (sc : Script) (events : list CalendarEvent) :
  Forall (fun b => normalised (b_flights b)) (processCalendar newDate sc events).
Proof.
  apply Forall_forall. intros b (event & _ & Hb)%processCalendar_elem.
  apply processEvent_inv in Hb as [(? & _ & -> & _) | (? & ? & ? & _ & _ & _ & _ & ->)].
  - apply extractFlights_normalised.
  - apply normalised_empty.
Qed.

Lemma processEmailsFromFolder_normalised (sc : Script) (folderType : BookingType)
    (messages : list Message) :
  Forall (fun b => normalised (b_flights b)) (processEmailsFromFolder newDate sc folderType messages).
Proof.
  apply Forall_forall. intros b (msg & _ & Hb)%processEmailsFromFolder_elem.
  apply processMessage_inv in Hb as [(? & _ & ->) | (? & _ & ->)].
  - apply extractFlights_normalised.
  - apply normalised_empty.
Qed.

End PipelineFacts.

Section DedupNormalised.

Lemma mergeFlights_keeps_normalised (s newFlights : string) :
  normalised s → normalised newFlights → normalised (mergeFlights (Some s) newFlights).
Proof.
  intros Hs Hn. destruct (nonEmpty s) eqn:Es.
  - destruct (nonEmpty newFlights) eqn:En.
    + apply mergeFlights_normalised; by apply nonEmpty_true.
    + apply nonEmpty_false in En as ->. by rewrite mergeFlights_nothing, orS_Some_empty.
  - rewrite mergeFlights_fresh; [done |]. by rewrite truthyS_Some.
Qed.

Lemma mergeIntoFirst_normalised (date fl : string) (dd : list Booking) :
  normalised fl →
  Forall (fun b => normalised (b_flights b)) dd →
  Forall (fun b => normalised (b_flights b)) (mergeIntoFirst date fl dd).
Proof.
  intros Hfl. induction 1 as [|d dd Hd Hdd IH]; cbn [mergeIntoFirst]; [constructor |].
  destruct (String.eqb (b_date d) date).
  - constructor; [| done]. cbn [withFlights b_flights]. by apply mergeFlights_keeps_normalised.
  - by constructor.
Qed.

Lemma deduplicate_normalised (l : list Booking) :
  Forall (fun b => normalised (b_flights b)) l →
  Forall (fun b => normalised (b_flights b)) (deduplicate l).
Proof.
  induction l as [|b l IH] using rev_ind; [done |].
  intros [Hl Hb]%Forall_app. apply Forall_inv in Hb.
  rewrite deduplicate_snoc. destruct (bool_decide _).
  - destruct (nonEmpty (b_flights b)); [| by apply IH].
    apply mergeIntoFirst_normalised; [exact Hb | by apply IH].
  - apply Forall_app. split; [by apply IH | by constructor].
Qed.

End DedupNormalised.

(** X11. Every booking the scripts hand to the update, that is every
    booking of the deduplicated calendar and mail bookings, holds its
    flights in the normal form of [mergeFlights]: distinct codes, none
    empty, joined by [", "].  A run over any one of them therefore
    settles at once: its second run over the store the first run left
    changes nothing. *)
Theorem bookings_of_a_run_settle (newDate : string → option Date) (sc : Script)
    (events : list CalendarEvent) (hotelMail flightMail : list Message) (b : Booking) :
  b ∈ combine (processCalendar newDate sc events)
        (processEmailsFromFolder newDate sc hotel hotelMail
         ++ processEmailsFromFolder newDate sc flight flightMail) →
  normalised (b_flights b)
  ∧ ∀ existing, reconcile sc (reconcile sc existing [b]) [b] = reconcile sc existing [b].
Proof.
  intros Hb.
  assert (normalised (b_flights b)) as Hn.
  { revert b Hb. apply Forall_forall. unfold combine. apply deduplicate_normalised.
    rewrite !Forall_app. split_and!.
    - apply processCalendar_normalised.
    - apply processEmailsFromFolder_normalised.
    - apply processEmailsFromFolder_normalised. }
  split; [done |]. intros existing. by apply silent_store, second_run_silent.
Qed.

Lemma bookings_of_a_run_settle_flight_back :
  normalised (b_flights Journey.flightBack)
  ∧ ∀ existing,
      reconcile SyncBookings (reconcile SyncBookings existing [Journey.flightBack])
        [Journey.flightBack]
      = reconcile SyncBookings existing [Journey.flightBack].
Proof.
  apply (bookings_of_a_run_settle isoDate SyncBookings [Journey.flightEvent] []
           [Journey.ticketMail]).
  vm_compute. apply list_elem_of_further, list_elem_of_here.
Defined.

(** ** The tax-year floor of the backfill script *)

Section FloorFacts.

Variable newDate : string → option Date.

Lemma not_ltb_leb (a b : string) : String.ltb a b = false → String.leb b a = true.
Proof.
  unfold String.ltb, String.leb. rewrite (String.compare_antisym a b).
  by destruct (String.compare b a).
Qed.

Lemma inTaxYear_floor (dates : list string) (d : string) :
  d ∈ inTaxYear dates → String.leb TAX_YEAR_START d = true.
Proof. unfold inTaxYear. by intros [? _]%list_elem_of_filter. Qed.

Lemma validDates_floor (allText : string) (d : Date) :
  d ∈ validDates newDate BackfillBookings allText →
  String.leb TAX_YEAR_START (fmtDate d) = true.
Proof. cbn [validDates]. by intros [? _]%list_elem_of_filter. Qed.

Lemma backfill_event_floor (event : CalendarEvent) (b : Booking) :
  b ∈ processEvent newDate BackfillBookings event → String.leb TAX_YEAR_START (b_date b) = true.
Proof.
  intros [(evStart & _ & -> & Hf) | (? & ? & d & _ & _ & _ & Hd & ->)]%processEvent_inv.
  - cbn [flightFromEvent b_date]. by apply not_ltb_leb, Hf.
  - cbn [hotelFromEvent b_date]. by eapply inTaxYear_floor, Hd.
Qed.

Lemma backfill_message_floor (folderType : BookingType) (msg : Message) (b : Booking) :
  b ∈ processMessage newDate BackfillBookings folderType msg →
  String.leb TAX_YEAR_START (b_date b) = true.
Proof.
  intros [(first & Hh & ->) | (d & Hd & ->)]%processMessage_inv.
  - cbn [flightFromEmail b_date]. eapply validDates_floor, head_Some_elem_of, Hh.
  - cbn [hotelFromEmail b_date]. cbn [hotelNightsOfEmail] in Hd.
    destruct (head _); [| by apply elem_of_nil in Hd].
    destruct (last _); [| by apply elem_of_nil in Hd].
    by eapply inTaxYear_floor.
Qed.

End FloorFacts.

Section ChronologyFacts.

Variable newDate : string → option Date.

Lemma allDays_spec (p : Z → bool) (n : nat) :
  ∀ first d, allDays p first n = true → first ≤ d < first + Z.of_nat n → p d = true.
Proof.
  induction n as [|n IH]; intros first d; cbn [allDays]; [lia |].
  intros [Hp H]%andb_true_iff Hd. destruct (decide (d = first)) as [-> | Hne]; [done |].
  apply (IH (first + 1)); [done | lia].
Qed.

(** The days of the years 2025 to 2028. *)
Lemma year_window (n : Z) :
  2025 ≤ fst (fst (civilFromDays n)) ≤ 2028 → 20089 ≤ n ≤ 21549.
Proof.
  unfold civilFromDays.
  set (z := n + 719468). set (era := z / 146097). set (doe := z - era * 146097).
  set (yoe := (doe - doe / 1460 + doe / 36524 - doe / 146096) / 365).
  set (doy := doe - (365 * yoe + yoe / 4 - yoe / 100)).
  set (mp := (5 * doy + 2) / 153).
  cbv zeta. cbn [fst snd]. intros H.
  assert (0 ≤ doe ≤ 146096) as Hdoe by (subst doe era; Z.to_euclidean_division_equations; lia).
  assert (0 ≤ yoe ≤ 399) as Hyoe.
  { subst yoe. clearbody doe. clear H. Z.to_euclidean_division_equations; lia. }
  assert (era = 5) as Hera.
  { clearbody era yoe. destruct (_ <=? 2) in H; lia. }
  assert (0 ≤ doy ≤ 365) as Hdoy.
  { subst doy yoe. clearbody doe. clear H. Z.to_euclidean_division_equations; lia. }
  assert (24 ≤ yoe ≤ 28 ∧ (yoe = 24 → 306 ≤ doy) ∧ (yoe = 28 → doy < 306)) as Hy.
  { subst mp. clearbody doy yoe era. subst era. revert H.
    destruct (Z.ltb_spec ((5 * doy + 2) / 153) 10) as [Hm | Hm]; cbv iota;
      match goal with |- context [?a <=? 2] => destruct (Z.leb_spec a 2) as [Hc | Hc] end;
      intros H; Z.to_euclidean_division_equations; lia. }
  assert (doe = doy + 365 * yoe + yoe / 4 - yoe / 100) as Hd by (subst doy; lia).
  assert (z = doe + 5 * 146097) as Hz by (subst doe; lia).
  subst z. clearbody doe doy yoe era. Z.to_euclidean_division_equations; lia.
Qed.

Lemma floor_agrees_2025_2028 : allDays floorAgrees 20089 1461 = true.
Proof. vm_compute. reflexivity. Qed.

(** In the years 2025 to 2028 the comparison of the formatted date with
    [TAX_YEAR_START] is the comparison of the time values. *)
Lemma floor_chronological (t : Date) :
  2025 ≤ getFullYear t ≤ 2028 →
  String.leb TAX_YEAR_START (fmtDate t) = (taxYearStartTime <=? t).
Proof.
  intros Hy. apply year_window in Hy.
  pose proof (allDays_spec _ _ _ (dayOf t) floor_agrees_2025_2028 ltac:(lia)) as H.
  unfold floorAgrees in H. apply Bool.eqb_prop in H. rewrite <- fmtDate_day in H. rewrite H.
  unfold dayOf, taxYearStartTime, msPerDay.
  destruct (Z.leb_spec (1743897600000 / 86400000) (t / 86400000));
    destruct (Z.leb_spec 1743897600000 t); try done; Z.to_euclidean_division_equations; lia.
Qed.

Lemma datesBy_window (pat : re) (allText : string) (d : Date) :
  d ∈ datesBy newDate pat allText → 2025 ≤ getFullYear d ≤ 2028.
Proof.
  unfold datesBy. intros (m & _ & H)%list_elem_of_omap.
  destruct (parseDate newDate _) as [d'|]; [| done].
  destruct (_ <=? _) eqn:Hlo; [| done]. destruct (getFullYear d' <=? 2028) eqn:Hhi; [| done].
  cbn [andb] in H. injection H as ->. lia.
Qed.

Lemma extractedDates_window (allText : string) (d : Date) :
  d ∈ extractedDates newDate allText → 2025 ≤ getFullYear d ≤ 2028.
Proof.
  unfold extractedDates. rewrite merge_sort_Permutation.
  intros (pat & Hd & _)%list_elem_of_bind. by eapply datesBy_window.
Qed.

Lemma extractedDates_sorted (allText : string) : Sorted Z.le (extractedDates newDate allText).
Proof. apply (Sorted_merge_sort Z.le). Qed.

End ChronologyFacts.

Section EarliestFacts.

Variable newDate : string → option Date.

Lemma filter_ext_elem {A} (P Q : A → Prop) `{∀ x, Decision (P x)} `{∀ x, Decision (Q x)}
    (l : list A) :
  (∀ x, x ∈ l → P x ↔ Q x) → filter P l = filter Q l.
Proof.
  induction l as [|a l IH]; intros Hext; [done |].
  assert (filter P l = filter Q l) as IH'.
  { apply IH. intros x Hx. apply Hext, elem_of_cons. by right. }
  destruct (decide (P a)) as [Hp | Hp].
  - rewrite !filter_cons_True, IH'; [done | | done]. apply Hext; [apply elem_of_cons; by left | done].
  - rewrite !filter_cons_False, IH'; [done | | done].
    intros Hq. apply Hp, Hext; [apply elem_of_cons; by left | done].
Qed.

Lemma StronglySorted_filter_le (P : Z → Prop) `{∀ x, Decision (P x)} (l : list Z) :
  StronglySorted Z.le l → StronglySorted Z.le (filter P l).
Proof.
  induction 1 as [|a l Hl IH Ha]; [constructor |].
  destruct (decide (P a)).
  - rewrite filter_cons_True by done. constructor; [done |].
    apply Forall_forall. intros x [_ Hx]%list_elem_of_filter.
    by eapply Forall_forall in Ha.
  - by rewrite filter_cons_False.
Qed.

Lemma head_least (l : list Z) (first : Z) :
  StronglySorted Z.le l → head l = Some first → ∀ d, d ∈ l → first ≤ d.
Proof.
  destruct 1 as [|a l Hl Ha]; [done |]. intros [= ->] d [-> | Hd]%elem_of_cons; [lia |].
  by eapply Forall_forall in Ha.
Qed.

Lemma validDates_sorted (sc : Script) (allText : string) :
  StronglySorted Z.le (validDates newDate sc allText).
Proof.
  assert (StronglySorted Z.le (extractedDates newDate allText)) as Hs.
  { apply (Sorted_StronglySorted Z.le _), extractedDates_sorted. }
  destruct sc; cbn [validDates]; [done |]. by apply StronglySorted_filter_le.
Qed.

Lemma validDates_window (sc : Script) (allText : string) (d : Date) :
  d ∈ validDates newDate sc allText → 2025 ≤ getFullYear d ≤ 2028.
Proof.
  destruct sc; cbn [validDates].
  - apply extractedDates_window.
  - intros [_ Hd]%list_elem_of_filter. by eapply extractedDates_window.
Qed.

Lemma no_date_no_booking (sc : Script) (folderType : BookingType) (msg : Message) :
  validDates newDate sc (messageText msg) = [] → processMessage newDate sc folderType msg = [].
Proof.
  intros H. unfold processMessage. rewrite H. destruct (isCarRental _); [done |].
  cbn [head app]. destruct (_ || _); [| done]. by destruct sc.
Qed.

(** A kept booking is a booking of the list, up to its flights. *)
Lemma deduplicate_from (l : list Booking) (k : Booking) :
  k ∈ deduplicate l → ∃ b, b ∈ l ∧ sameButFlights k b.
Proof.
  assert (∀ seen b, b ∈ firstOfGroups seen l → b ∈ l) as Hsub.
  { induction l as [|x l IH]; intros seen b; cbn [firstOfGroups]; [done |].
    destruct (bool_decide _); rewrite ?elem_of_cons; [eauto |].
    intros [-> | Hb]; [by left | right; eauto]. }
  intros Hk. pose proof (deduplicate_first l) as HF.
  apply list_elem_of_lookup in Hk as (i & Hi).
  destruct (Forall2_lookup_l _ _ _ _ _ HF Hi) as (b & Hb & Hkb).
  exists b. split; [| done]. eapply Hsub, list_elem_of_lookup_2, Hb.
Qed.

End EarliestFacts.

(** X12. The backfill script never writes a day before the tax year:
    whatever the calendar and the two mail folders hold, every update
    of a backfill run is for a date that is not below [TAX_YEAR_START]
    in the order of strings the script compares by. *)
Theorem backfill_never_writes_before_tax_year (newDate : string → option Date)
    (existing : gmap string LocationRecord) (events : list CalendarEvent)
    (hotelMail flightMail : list Message) (d : string) (e : LocationRecord) :
  updates (updateFirebase BackfillBookings existing
             (combine (processCalendar newDate BackfillBookings events)
                (processEmailsFromFolder newDate BackfillBookings hotel hotelMail
                 ++ processEmailsFromFolder newDate BackfillBookings flight flightMail))) !! d
  = Some e →
  String.leb TAX_YEAR_START d = true.
Proof.
  intros He.
  destruct (updateFirebase_lookup BackfillBookings existing
              (combine (processCalendar newDate BackfillBookings events)
                 (processEmailsFromFolder newDate BackfillBookings hotel hotelMail
                  ++ processEmailsFromFolder newDate BackfillBookings flight flightMail)) d)
    as [H | (k & Hin & Hk & _)]; [congruence |].
  apply deduplicate_from in Hin as (b & Hb & Hkb).
  apply sameButFlights_group in Hkb. injection Hkb as Hdate _. rewrite <- Hk, Hdate.
  rewrite !elem_of_app in Hb. destruct Hb as [Hb | [Hb | Hb]].
  - apply processCalendar_elem in Hb as (event & _ & Hb). by eapply backfill_event_floor.
  - apply processEmailsFromFolder_elem in Hb as (msg & _ & Hb). by eapply backfill_message_floor.
  - apply processEmailsFromFolder_elem in Hb as (msg & _ & Hb). by eapply backfill_message_floor.
Qed.

Lemma backfill_never_writes_before_tax_year_flight_out :
  String.leb TAX_YEAR_START "2025-06-10" = true.
Proof.
  apply (backfill_never_writes_before_tax_year isoDate Sample.store [Journey.flightEvent] []
           [Journey.ticketMail] "2025-06-10"
           (mergeEntry BackfillBookings (Some Sample.london) Journey.flightOut)).
  vm_compute. reflexivity.
Defined.

(** X13. The dates the backfill script keeps from a message are the
    dates the sync script keeps that fall on 6 April 2025, 00:00, or
    later: on the dates the readers accept, which lie in the years 2025
    to 2028, the comparison of the formatted date with [TAX_YEAR_START]
    as strings is the comparison of the time values. *)
Theorem backfill_dates_start_with_the_tax_year (newDate : string → option Date)
    (allText : string) :
  validDates newDate BackfillBookings allText
  = filter (fun d => taxYearStartTime ≤ d) (validDates newDate SyncBookings allText)
  ∧ ∀ sc d, d ∈ validDates newDate sc allText →
      2025 ≤ getFullYear d ≤ 2028
      ∧ String.leb TAX_YEAR_START (fmtDate d) = (taxYearStartTime <=? d).
Proof.
  split.
  - cbn [validDates]. apply filter_ext_elem. intros d Hd%extractedDates_window.
    rewrite (floor_chronological d Hd). apply Z.leb_le.
  - intros sc d Hd%validDates_window. split; [done | by apply floor_chronological].
Qed.

Lemma backfill_dates_start_with_the_tax_year_booked :
  2025 ≤ getFullYear 1749859200000 ≤ 2028
  ∧ String.leb TAX_YEAR_START (fmtDate 1749859200000) = (taxYearStartTime <=? 1749859200000).
Proof.
  apply (proj2 (backfill_dates_start_with_the_tax_year isoDate (messageText Journey.bookedMail))
           BackfillBookings 1749859200000).
  vm_compute. apply list_elem_of_further, list_elem_of_here.
Defined.


(** X14. A message in which no date is kept yields no booking at all,
    and the flight booking of a message is dated by the earliest of its
    kept dates, wherever in the text that date stands. *)
Theorem mail_flight_is_dated_by_the_earliest_date (newDate : string → option Date) (sc : Script)
    (folderType : BookingType) (msg : Message) :
  (validDates newDate sc (messageText msg) = [] → processMessage newDate sc folderType msg = [])
  ∧ ∀ b, b ∈ processMessage newDate sc folderType msg → b_type b = flight →
      ∃ first, first ∈ validDates newDate sc (messageText msg)
               ∧ (∀ d, d ∈ validDates newDate sc (messageText msg) → first ≤ d)
               ∧ b_date b = fmtDate first.
Proof.
  split; [apply no_date_no_booking |].
  intros b [(first & Hh & ->) | (d & _ & ->)]%processMessage_inv Ht; [| discriminate].
  exists first. split_and!.
  - by apply head_Some_elem_of.
  - by apply head_least; [apply validDates_sorted |].
  - reflexivity.
Qed.

(** The confirmation that names the day of the flight, 14 June, before
    the day it was booked, 2 May: the flight is dated 2 May. *)
Lemma mail_flight_is_dated_by_the_earliest_date_booked :
  ∃ first, first ∈ validDates isoDate SyncBookings (messageText Journey.bookedMail)
           ∧ (∀ d, d ∈ validDates isoDate SyncBookings (messageText Journey.bookedMail) → first ≤ d)
           ∧ b_date Journey.flightBooked = fmtDate first.
Proof.
  apply (proj2 (mail_flight_is_dated_by_the_earliest_date isoDate SyncBookings flight
                  Journey.bookedMail) Journey.flightBooked).
  - vm_compute. apply list_elem_of_here.
  - reflexivity.
Defined.

(** ** The nights of any stay *)

Section StayFacts.

Lemma daysFrom_length (first : Z) (n : nat) : length (daysFrom first n) = n.
Proof. unfold daysFrom. by rewrite length_fmap, length_seq. Qed.

Lemma daysFrom_lookup (first : Z) (n k : nat) :
  (k < n)%nat → daysFrom first n !! k = Some (fmtDate ((first + Z.of_nat k) * msPerDay)).
Proof.
  intros Hk. unfold daysFrom. rewrite list_lookup_fmap, lookup_seq_lt by done. reflexivity.
Qed.

End StayFacts.

(** X15. The nights the scripts record for a stay, whatever the two
    times: one night for every whole 24 hours between check-in and
    check-out, counted from the day of check-in on consecutive days.
    A stay of less than 24 hours, as an appointment of an hour, has no
    night; the [k]-th night is the day of check-in plus [k]. *)
Theorem nights_are_whole_days (checkIn checkOut : Date) :
  length (nights checkIn checkOut) = Z.to_nat ((checkOut - checkIn) / msPerDay)
  ∧ (nights checkIn checkOut = [] ↔ checkOut - checkIn < msPerDay)
  ∧ ∀ k, (k < length (nights checkIn checkOut))%nat →
      nights checkIn checkOut !! k = Some (fmtDate (checkIn + Z.of_nat k * msPerDay)).
Proof.
  rewrite nights_days, daysFrom_length. split_and!.
  - reflexivity.
  - rewrite <- length_zero_iff_nil, daysFrom_length. pose proof msPerDay_pos.
    split.
    + intros H0. apply Z.nle_gt. intros Hle.
      assert (1 ≤ (checkOut - checkIn) / msPerDay) by (apply Z.div_le_lower_bound; lia). lia.
    + intros Hlt. destruct (Z.le_gt_cases 0 (checkOut - checkIn)).
      * rewrite Z.div_small by lia. reflexivity.
      * assert ((checkOut - checkIn) / msPerDay < 0) by (apply Z.div_lt_upper_bound; lia). lia.
  - intros k Hk. rewrite daysFrom_lookup by done.
    by rewrite (fmtDate_day (checkIn + _)), dayOf_add.
Qed.

(** The second night of the stay of three nights and twenty hours. *)
Lemma nights_are_whole_days_second_night :
  nights 1748790000000 1749034800000 !! 1%nat
  = Some (fmtDate (1748790000000 + Z.of_nat 1 * msPerDay)).
Proof.
  apply (proj2 (proj2 (nights_are_whole_days 1748790000000 1749034800000)) 1%nat).
  vm_compute. lia.
Defined.


(** ** Where the city and the country of a booking come from *)

Section DestinationFacts.

Variable newDate : string → option Date.

Lemma airport_in_table (code : string) (table : list (string * Place)) (p : Place) :
  airport code table = Some p → (code, p) ∈ table.
Proof.
  induction table as [|[k v] table IH]; cbn [airport]; [done |].
  destruct (String.eqb_spec k code) as [-> | _].
  - intros [= ->]. apply elem_of_cons. by left.
  - intros H. apply elem_of_cons. right. by apply IH.
Qed.

Lemma destinationBy_in_table (pat : re) (text : string) (p : Place) :
  destinationBy pat text = Some p → ∃ code, (code, p) ∈ AIRPORTS.
Proof.
  unfold destinationBy. destruct (exec pat text); [| done].
  intros H%airport_in_table. eauto.
Qed.

Lemma extractDestination_in_table (text : string) (p : Place) :
  extractDestination text = Some p → ∃ code, (code, p) ∈ AIRPORTS.
Proof.
  unfold extractDestination. destruct (nonEmpty text); [| done].
  destruct (destinationBy routePattern text) eqn:Hr.
  { intros [= <-]. by eapply destinationBy_in_table. }
  destruct (destinationBy arrivingPattern text) eqn:Ha.
  { intros [= <-]. by eapply destinationBy_in_table. }
  destruct (2 <=? _)%nat.
  - destruct (last _) as [code|]; [| done]. cbn [mbind option_bind].
    intros H%airport_in_table. eauto.
  - destruct (extractAirports _) as [|code [|? ?]]; [done | | done].
    intros H%airport_in_table. eauto.
Qed.

Lemma table_cities_nonEmpty (code : string) (p : Place) :
  (code, p) ∈ AIRPORTS → nonEmpty (p_city p) = true ∧ nonEmpty (p_country p) = true.
Proof.
  assert (forallb (fun '(_, q) => nonEmpty (p_city q) && nonEmpty (p_country q)) AIRPORTS = true)
    as Hall by (vm_compute; reflexivity).
  rewrite forallb_forall in Hall. intros Hin. apply list_elem_of_In, Hall in Hin.
  by apply andb_true_iff in Hin.
Qed.

(** The city and the country of a flight booking whose destination was
    found. *)
Lemma destination_fields (text other : string) :
  Js.orS (p_country <$> extractDestination text) "" ≠ "" →
  ∃ code p, (code, p) ∈ AIRPORTS
            ∧ Js.orS (p_city <$> extractDestination text) other = p_city p
            ∧ Js.orS (p_country <$> extractDestination text) "" = p_country p.
Proof.
  destruct (extractDestination text) as [p|] eqn:Hd; [| done]. intros _.
  apply extractDestination_in_table in Hd as (code & Hin). exists code, p.
  destruct (table_cities_nonEmpty _ _ Hin) as [Hc Hk]. cbn [fmap option_fmap option_map].
  rewrite !orS_keeps by by apply nonEmpty_true. done.
Qed.

End DestinationFacts.

(** X16. The country of a booking is never free text: a booking that
    has a country is a flight booking, and its country and its city are
    those of one airport of the table.  A hotel booking has no country
    and no flights. *)
Theorem booking_country_comes_with_its_city (newDate : string → option Date) (sc : Script)
    (events : list CalendarEvent) (folderType : BookingType) (messages : list Message)
    (b : Booking) :
  b ∈ processCalendar newDate sc events ++ processEmailsFromFolder newDate sc folderType messages →
  (b_type b = hotel → b_country b = "" ∧ b_flights b = "")
  ∧ (b_country b ≠ "" →
     b_type b = flight
     ∧ ∃ code p, (code, p) ∈ AIRPORTS ∧ b_city b = p_city p ∧ b_country b = p_country p).
Proof.
  rewrite elem_of_app, processCalendar_elem, processEmailsFromFolder_elem.
  intros [(event & _ & Hb) | (msg & _ & Hb)].
  - apply processEvent_inv in Hb as [(? & _ & -> & _) | (? & ? & ? & _ & _ & _ & _ & ->)].
    + split; [discriminate |]. cbn [flightFromEvent b_country b_city b_type].
      intros H. split; [done | by apply destination_fields].
    + split; [done |]. intros H. by destruct H.
  - apply processMessage_inv in Hb as [(? & _ & ->) | (? & _ & ->)].
    + split; [discriminate |]. cbn [flightFromEmail b_country b_city b_type].
      intros H. split; [done | by apply destination_fields].
    + split; [done |]. intros H. by destruct H.
Qed.

Lemma booking_country_comes_with_its_city_flight_out :
  (b_type Journey.flightOut = hotel → b_country Journey.flightOut = "" ∧ b_flights Journey.flightOut = "")
  ∧ (b_country Journey.flightOut ≠ "" →
     b_type Journey.flightOut = flight
     ∧ ∃ code p, (code, p) ∈ AIRPORTS ∧ b_city Journey.flightOut = p_city p
                 ∧ b_country Journey.flightOut = p_country p).
Proof.
  apply (booking_country_comes_with_its_city isoDate SyncBookings [Journey.flightEvent] flight []).
  vm_compute. apply list_elem_of_here.
Defined.

(** ** The search for the mail folders *)

Section FolderFacts.

Lemma firstNamed_cons (folderName : string) (f : MailFolder) (folders : list MailFolder) :
  firstNamed folderName (f :: folders)
  = if String.eqb (displayName f) folderName then Some f else firstNamed folderName folders.
Proof.
  unfold firstNamed. destruct (String.eqb_spec (displayName f) folderName) as [Heq | Hne].
  - by rewrite filter_cons_True.
  - by rewrite filter_cons_False.
Qed.

Lemma firstNamed_app (folderName : string) (l1 l2 : list MailFolder) :
  firstNamed folderName (l1 ++ l2)
  = match firstNamed folderName l1 with
    | Some f => Some f
    | None => firstNamed folderName l2
    end.
Proof.
  induction l1 as [|f l1 IH]; [done |].
  cbn [app]. rewrite !firstNamed_cons. by destruct (String.eqb _ _).
Qed.

Lemma findChild_firstNamed (folderName : string) (children : list MailFolder) :
  findChild folderName children = folderId <$> firstNamed folderName children.
Proof.
  induction children as [|c children IH]; [done |].
  cbn [findChild]. rewrite firstNamed_cons. by destruct (String.eqb _ _).
Qed.

Lemma findTop_firstNamed (folderName : string) (top : list (MailFolder * list MailFolder)) :
  findTop folderName top = folderId <$> firstNamed folderName (readingOrder top).
Proof.
  induction top as [|[folder children] top IH]; [done |].
  cbn [findTop]. unfold readingOrder. cbn [mbind list_bind app].
  rewrite firstNamed_cons. destruct (String.eqb _ _); [done |].
  fold (readingOrder top). rewrite firstNamed_app, findChild_firstNamed, IH.
  by destruct (firstNamed folderName children).
Qed.

Lemma firstNamed_Some (folderName : string) (folders : list MailFolder) (f : MailFolder) :
  firstNamed folderName folders = Some f →
  ∃ pre post, folders = pre ++ f :: post ∧ displayName f = folderName
              ∧ Forall (fun g => displayName g ≠ folderName) pre.
Proof.
  induction folders as [|g folders IH]; [done |].
  rewrite firstNamed_cons. destruct (String.eqb_spec (displayName g) folderName) as [Heq | Hne].
  - intros [= ->]. by exists [], folders.
  - intros (pre & post & -> & Hf & Hpre)%IH. exists (g :: pre), post. split_and!; try done.
    by constructor.
Qed.

Lemma firstNamed_None (folderName : string) (folders : list MailFolder) :
  firstNamed folderName folders = None ↔ Forall (fun g => displayName g ≠ folderName) folders.
Proof.
  induction folders as [|g folders IH].
  - split; [constructor | done].
  - rewrite firstNamed_cons, Forall_cons.
    destruct (String.eqb_spec (displayName g) folderName) as [Heq | Hne].
    + split; [done | tauto].
    + rewrite IH. tauto.
Qed.

Lemma findFirstFolder_nonEmpty (mailbox : Mailbox) (candidates : list string) (id : string) :
  findFirstFolder mailbox candidates = Some id →
  id ≠ "" ∧ ∃ pre name post,
    candidates = pre ++ name :: post ∧ findFolder mailbox name = Some id
    ∧ Forall (fun n => Js.truthyS (findFolder mailbox n) = false) pre.
Proof.
  induction candidates as [|name rest IH]; [done |].
  cbn [findFirstFolder]. destruct (Js.truthyS (findFolder mailbox name)) eqn:Ht.
  - intros H. rewrite H in Ht. split.
    + rewrite truthyS_Some in Ht. by apply nonEmpty_true.
    + by exists [], name, rest.
  - intros [Hid (pre & n & post & -> & Hn & Hpre)]%IH. split; [done |].
    exists (name :: pre), n, post. split_and!; try done. by constructor.
Qed.

Lemma findFirstFolder_None (mailbox : Mailbox) (candidates : list string) :
  findFirstFolder mailbox candidates = None
  ↔ Forall (fun n => Js.truthyS (findFolder mailbox n) = false) candidates.
Proof.
  induction candidates as [|name rest IH].
  - split; [constructor | done].
  - cbn [findFirstFolder]. rewrite Forall_cons.
    destruct (Js.truthyS (findFolder mailbox name)) eqn:Ht.
    + split; [| intros [? _]; done]. intros H. by rewrite H in Ht.
    + rewrite IH. tauto.
Qed.

End FolderFacts.

(** X17. [findFolder] returns the id of the first folder of the name in
    the order it reads the mailbox, every top-level folder followed by
    its children; a child of an earlier folder is found before a later
    top-level folder of the same name.  [findFirstFolder] returns the
    find of the first candidate that has one with an id that is not
    empty, whatever the later candidates would find, and nothing when
    the listing came back with an error. *)
Theorem folder_search_follows_reading_order (mailbox : Mailbox) (candidates : list string) :
  (∀ top folderName,
     findFolder (Some top) folderName = folderId <$> firstNamed folderName (readingOrder top))
  ∧ (∀ id, findFirstFolder mailbox candidates = Some id ↔
       id ≠ "" ∧ ∃ top pre name post f before after,
         mailbox = Some top ∧ candidates = pre ++ name :: post
         ∧ readingOrder top = before ++ f :: after
         ∧ displayName f = name ∧ folderId f = id
         ∧ Forall (fun g => displayName g ≠ name) before
         ∧ Forall (fun n => Js.truthyS (findFolder mailbox n) = false) pre)
  ∧ findFirstFolder None candidates = None.
Proof.
  split_and!.
  - intros top folderName. apply findTop_firstNamed.
  - intros id. split.
    + intros [Hid (pre & name & post & Hc & Hf & Hpre)]%findFirstFolder_nonEmpty.
      split; [done |]. destruct mailbox as [top|]; [| done].
      cbn [findFolder] in Hf. rewrite findTop_firstNamed in Hf.
      destruct (firstNamed name (readingOrder top)) as [f|] eqn:Hfirst; [| done].
      injection Hf as Hf. apply firstNamed_Some in Hfirst as (before & after & Hro & Hname & Hbefore).
      by exists top, pre, name, post, f, before, after.
    + intros [Hid (top & pre & name & post & f & before & after
                     & -> & -> & Hro & Hname & Hf & Hbefore & Hpre)].
      assert (findFolder (Some top) name = Some id) as Hfind.
      { cbn [findFolder]. rewrite findTop_firstNamed, Hro, firstNamed_app.
        rewrite (proj2 (firstNamed_None name before) Hbefore), firstNamed_cons.
        rewrite (proj2 (String.eqb_eq _ _) Hname). cbn. by rewrite Hf. }
      induction Hpre as [|n pre Hn Hpre IH]; cbn [app findFirstFolder].
      * rewrite Hfind, truthyS_Some, (proj2 (nonEmpty_true id) Hid). done.
      * by rewrite Hn.
  - apply findFirstFolder_None, Forall_forall. intros n _. reflexivity.
Qed.

(** X18. The mail is read from folders named exactly [Hotels] or
    [Hotel], and [Flights] or [Flight]: a mailbox in which no top-level
    folder and no child of one has such a name yields no booking from
    the mail, whatever its folders hold, and so does a listing that
    came back with an error. *)
Theorem mail_is_read_from_named_folders (newDate : string → option Date) (sc : Script)
    (messagesOf : string → list Message) :
  processEmails newDate sc None messagesOf = []
  ∧ ∀ top,
      (∀ f, f ∈ readingOrder top → displayName f ∉ HOTEL_FOLDERS ++ FLIGHT_FOLDERS) →
      processEmails newDate sc (Some top) messagesOf = [].
Proof.
  split; [done |]. intros top Hnone.
  assert (∀ candidates, candidates ⊆ HOTEL_FOLDERS ++ FLIGHT_FOLDERS →
            findFirstFolder (Some top) candidates = None) as Hno.
  { intros candidates Hsub. apply findFirstFolder_None, Forall_forall. intros n Hn.
    cbn [findFolder]. rewrite findTop_firstNamed.
    rewrite (proj2 (firstNamed_None n (readingOrder top))); [done |].
    apply Forall_forall. intros g Hg Hname. apply (Hnone g Hg). rewrite Hname. by apply Hsub. }
  unfold processEmails. rewrite !Hno; [done | |].
  - intros x Hx. apply elem_of_app. by right.
  - intros x Hx. apply elem_of_app. by left.
Qed.

Lemma mail_is_read_from_named_folders_lower_case :
  processEmails isoDate SyncBookings (Some lowerCaseBox) (fun _ => [Journey.ticketMail]) = [].
Proof.
  apply (proj2 (mail_is_read_from_named_folders isoDate SyncBookings
                  (fun _ => [Journey.ticketMail]))).
  intros f Hf. vm_compute in Hf.
  repeat (apply elem_of_cons in Hf as [-> | Hf]);
    [| | | | by apply elem_of_nil in Hf];
    intros H; vm_compute in H;
    repeat (apply elem_of_cons in H as [H | H]; [discriminate |]);
    by apply elem_of_nil in H.
Defined.

(** ** The history of the daily backup *)

Section HistoryFacts.

Lemma compare_lt_trans (a b c : string) :
  String.compare a b = Lt → String.compare b c = Lt → String.compare a c = Lt.
Proof.
  revert b c. induction a as [|x a IH]; intros [|y b] [|z c]; cbn [String.compare]; try done.
  unfold Ascii.compare.
  destruct (N.compare_spec (N_of_ascii x) (N_of_ascii y)) as [Hxy | Hxy | Hxy]; [| | done];
    destruct (N.compare_spec (N_of_ascii y) (N_of_ascii z)) as [Hyz | Hyz | Hyz]; try done.
  - rewrite Hxy, Hyz, N.compare_refl. apply IH.
  - intros _ _. rewrite Hxy. by apply N.compare_lt_iff in Hyz as ->.
  - intros _ _. rewrite <- Hyz. by apply N.compare_lt_iff in Hxy as ->.
  - intros _ _. assert (N_of_ascii x < N_of_ascii z)%N as H by lia.
    by apply N.compare_lt_iff in H as ->.
Qed.

Lemma compare_refl (a : string) : String.compare a a = Eq.
Proof.
  induction a as [|x a IH]; [done |]. cbn [String.compare]. unfold Ascii.compare.
  by rewrite N.compare_refl.
Qed.

Lemma strLe_trans : Transitive strLe.
Proof.
  intros a b c. unfold strLe, String.leb.
  destruct (String.compare a b) eqn:Hab; [| | done];
    destruct (String.compare b c) eqn:Hbc; try done; intros _ _.
  - apply String.compare_eq_iff in Hab as ->. by rewrite Hbc.
  - apply String.compare_eq_iff in Hab as ->. by rewrite Hbc.
  - apply String.compare_eq_iff in Hbc as <-. by rewrite Hab.
  - by rewrite (compare_lt_trans a b c).
Qed.

Lemma strLe_total : Total strLe.
Proof. intros a b. apply String.leb_total. Qed.

Lemma strLe_neq_ltb (a b : string) : strLe a b → a ≠ b → String.ltb a b = true.
Proof.
  unfold strLe, String.leb, String.ltb. destruct (String.compare a b) eqn:H; try done.
  apply String.compare_eq_iff in H. congruence.
Qed.

Lemma revString_app (a b : string) : revString (a +:+ b) = revString b +:+ revString a.
Proof.
  unfold revString.
  assert (∀ s t, list_ascii_of_string (s +:+ t) = list_ascii_of_string s ++ list_ascii_of_string t)
    as Happ.
  { induction s as [|c s IH]; intros t; [done |]. rewrite append_cons. cbn. by rewrite IH. }
  by rewrite Happ, rev_app_distr, string_of_list_app.
Qed.

Lemma prefix_append (a b : string) : String.prefix a (a +:+ b) = true.
Proof.
  apply prefix_app_l, prefix_refl.
Qed.

Lemma backupName_isHistoryFile (today : string) : isHistoryFile (backupName today) = true.
Proof.
  unfold isHistoryFile, backupName, endsWith. rewrite prefix_append.
  by rewrite !revString_app, append_assoc, prefix_append.
Qed.

Variable dir : list string.


Lemma sorted_archives (f : string) : f ∈ sortedArchives dir ↔ f ∈ dir ∧ isHistoryFile f = true.
Proof.
  unfold sortedArchives. rewrite merge_sort_Permutation. unfold archives.
  rewrite list_elem_of_filter. tauto.
Qed.

Lemma toDelete_cut : toDelete dir = reverse (take (surplus dir) (sortedArchives dir)).
Proof.
  unfold toDelete, historyFiles. fold (archives dir). fold (sortedArchives dir).
  rewrite length_reverse, drop_reverse. fold (surplus dir).
  destruct (Nat.ltb_spec MAX_HISTORY (length (sortedArchives dir))); [done |].
  replace (surplus dir) with 0%nat by (unfold surplus; lia). done.
Qed.

Lemma elem_of_toDelete (f : string) : f ∈ toDelete dir ↔ f ∈ take (surplus dir) (sortedArchives dir).
Proof. by rewrite toDelete_cut, elem_of_reverse. Qed.

Lemma sorted_parts (x y : string) :
  x ∈ take (surplus dir) (sortedArchives dir) → y ∈ drop (surplus dir) (sortedArchives dir) →
  strLe x y.
Proof.
  apply (StronglySorted_app_1_elem_of strLe). rewrite take_drop.
  apply (@StronglySorted_merge_sort _ strLe _ strLe_trans strLe_total).
Qed.

Lemma elem_of_afterCleanup (f : string) : f ∈ afterCleanup dir ↔ f ∈ dir ∧ f ∉ toDelete dir.
Proof. unfold afterCleanup. rewrite list_elem_of_filter. tauto. Qed.

Lemma toDelete_archives (f : string) : f ∈ toDelete dir → f ∈ dir ∧ isHistoryFile f = true.
Proof.
  intros Hf%elem_of_toDelete. apply sorted_archives.
  rewrite <- (take_drop (surplus dir) (sortedArchives dir)), elem_of_app. by left.
Qed.

Hypothesis dir_NoDup : NoDup dir.

Lemma sorted_NoDup : NoDup (sortedArchives dir).
Proof. unfold sortedArchives. rewrite merge_sort_Permutation. by apply NoDup_filter. Qed.

Lemma kept_archives (f : string) :
  f ∈ archives (afterCleanup dir) ↔ f ∈ drop (surplus dir) (sortedArchives dir).
Proof.
  unfold archives. rewrite list_elem_of_filter, elem_of_afterCleanup, elem_of_toDelete.
  pose proof sorted_NoDup as Hnd. rewrite <- (take_drop (surplus dir) (sortedArchives dir)) in Hnd.
  apply NoDup_app in Hnd as (_ & Hdisj & _).
  pose proof (sorted_archives f) as Hs.
  rewrite <- (take_drop (surplus dir) (sortedArchives dir)), elem_of_app in Hs.
  split.
  - intros [Hh [Hd Hn]]. destruct (proj2 Hs) as [? | ?]; done.
  - intros Hf. destruct (proj1 Hs) as [Hd Hh]; [by right |].
    split_and!; [done | done |]. intros Ht. by apply (Hdisj f).
Qed.

Lemma kept_count : length (archives (afterCleanup dir)) = (length (archives dir) `min` MAX_HISTORY)%nat.
Proof.
  assert (archives (afterCleanup dir) ≡ₚ drop (surplus dir) (sortedArchives dir)) as ->.
  { apply NoDup_Permutation.
    - unfold archives, afterCleanup. by do 2 apply NoDup_filter.
    - pose proof sorted_NoDup as Hnd. rewrite <- (take_drop (surplus dir) (sortedArchives dir)) in Hnd.
      by apply NoDup_app in Hnd as (_ & _ & ?).
    - apply kept_archives. }
  rewrite length_drop.
  assert (length (sortedArchives dir) = length (archives dir)) as Hlen
    by (unfold sortedArchives; by rewrite merge_sort_Permutation).
  unfold surplus. lia.
Qed.

Lemma kept_above_deleted (k d : string) :
  k ∈ archives (afterCleanup dir) → d ∈ toDelete dir → String.ltb d k = true.
Proof.
  intros Hk Hd. apply strLe_neq_ltb.
  - apply sorted_parts; [by apply elem_of_toDelete | by apply kept_archives].
  - intros ->. unfold archives in Hk.
    apply list_elem_of_filter in Hk as [_ Hk]. apply elem_of_afterCleanup in Hk as [_ Hk]. done.
Qed.

Lemma greatest_kept (f : string) :
  f ∈ dir → (∀ g, g ∈ archives dir → String.leb g f = true) → f ∈ afterCleanup dir.
Proof.
  intros Hf Hmax. apply elem_of_afterCleanup. split; [done |]. intros Hd.
  pose proof (toDelete_archives f Hd) as [_ Hh]. apply elem_of_toDelete in Hd.
  assert (f ∈ sortedArchives dir) as Hs by by apply sorted_archives.
  assert (∃ k, k ∈ drop (surplus dir) (sortedArchives dir)) as [k Hk].
  { destruct (drop (surplus dir) (sortedArchives dir)) as [|k rest] eqn:Hdrop.
    - apply (f_equal length) in Hdrop. rewrite length_drop in Hdrop. cbn in Hdrop.
      apply list_elem_of_lookup in Hs as (i & Hi%lookup_lt_Some).
      unfold surplus, MAX_HISTORY in Hdrop. lia.
    - exists k. apply elem_of_cons. by left. }
  assert (k = f) as ->.
  { apply String.leb_antisym.
    - apply Hmax. unfold archives. apply list_elem_of_filter, and_comm, sorted_archives.
      rewrite <- (take_drop (surplus dir) (sortedArchives dir)), elem_of_app. by right.
    - by apply sorted_parts. }
  pose proof sorted_NoDup as Hnd. rewrite <- (take_drop (surplus dir) (sortedArchives dir)) in Hnd.
  apply NoDup_app in Hnd as (_ & Hdisj & _). by apply (Hdisj f).
Qed.

End HistoryFacts.

(** X19. The cleanup of the backup history, on a directory that holds no
    name twice: it deletes archives only, files named [backup-….json];
    it keeps [MAX_HISTORY] of them, or all when there are fewer; every
    archive it keeps is above every archive it deletes in the order of
    the names; and the archive of the day is kept when no archive of
    the directory is named above it. *)
Theorem history_keeps_the_latest_archives (dir : list string) :
  NoDup dir →
  (∀ f, f ∈ dir → isHistoryFile f = false → f ∈ afterCleanup dir)
  ∧ (∀ f, f ∈ afterCleanup dir → f ∈ dir)
  ∧ length (archives (afterCleanup dir)) = (length (archives dir) `min` MAX_HISTORY)%nat
  ∧ (∀ k d, k ∈ archives (afterCleanup dir) → d ∈ toDelete dir → String.ltb d k = true)
  ∧ (∀ today, backupName today ∈ dir →
       (∀ f, f ∈ archives dir → String.leb f (backupName today) = true) →
       backupName today ∈ afterCleanup dir).
Proof.
  intros Hnd. split_and!.
  - intros f Hf Hh. apply elem_of_afterCleanup. split; [done |].
    intros [_ Hd]%toDelete_archives. congruence.
  - by intros f [Hf _]%elem_of_afterCleanup.
  - by apply kept_count.
  - intros k d. by apply kept_above_deleted.
  - intros today. by apply greatest_kept.
Qed.

(** A week of archives: the two oldest go, the notes and the marker
    file stay. *)
Lemma history_keeps_the_latest_archives_week :
  (∀ f, f ∈ weekOfArchives → isHistoryFile f = false → f ∈ afterCleanup weekOfArchives)
  ∧ (∀ f, f ∈ afterCleanup weekOfArchives → f ∈ weekOfArchives)
  ∧ length (archives (afterCleanup weekOfArchives))
    = (length (archives weekOfArchives) `min` MAX_HISTORY)%nat
  ∧ (∀ k d, k ∈ archives (afterCleanup weekOfArchives) → d ∈ toDelete weekOfArchives →
       String.ltb d k = true)
  ∧ (∀ today, backupName today ∈ weekOfArchives →
       (∀ f, f ∈ archives weekOfArchives → String.leb f (backupName today) = true) →
       backupName today ∈ afterCleanup weekOfArchives).
Proof.
  apply (history_keeps_the_latest_archives weekOfArchives).
  apply (bool_decide_unpack _). vm_compute. exact I.
Defined.

Lemma week_of_archives_after :
  toDelete weekOfArchives = ["backup-2025-06-02.json"; "backup-2025-06-01.json"]
  ∧ afterCleanup weekOfArchives
    = [ "backup-2025-06-03.json"; ".gitkeep"; "backup-2025-06-07.json"; "backup-2025-06-05.json";
        "backup-2025-06-06.json"; "backup-2025-06-04.json"; "backup-notes.txt" ].
Proof. split; vm_compute; reflexivity. Qed.

(** ** The summary sheet of the daily backup *)

Section SummaryFacts.

Lemma totalNights_insert (counts : gmap string Cell) (c : string) (cell : Cell) :
  counts !! c = None →
  totalNights (<[c := cell]> counts) = (nightsOf (Some cell) + totalNights counts)%nat.
Proof.
  intros Hc. unfold totalNights. rewrite map_fold_insert_L; [done | | done].
  intros j1 j2 z1 z2 y _ _ _. lia.
Qed.

(** A new value for a key changes the sum by the difference of the two
    numbers. *)
Lemma totalNights_update (counts : gmap string Cell) (c : string) (cell : Cell) :
  (totalNights (<[c := cell]> counts) + nightsOf (counts !! c)
   = nightsOf (Some cell) + totalNights counts)%nat.
Proof.
  destruct (counts !! c) as [old|] eqn:Hc.
  - replace (totalNights counts) with (totalNights (<[c := old]> (delete c counts)))
      by (f_equal; rewrite insert_delete_eq; by apply insert_id).
    rewrite <- (insert_delete_eq counts), !totalNights_insert by apply lookup_delete_eq. lia.
  - rewrite totalNights_insert by done. cbn [nightsOf]. lia.
Qed.

Lemma stats_snoc (entries : list LocationRecord) (e : LocationRecord) :
  stats (entries ++ [e]) = statsStep (stats entries) e.
Proof. unfold stats. by rewrite fold_left_app. Qed.

Lemma bucket_country (e : LocationRecord) (c : string) :
  c ≠ "" → c ≠ "Unrecorded" → bucket e = c ↔ country e = Some c.
Proof.
  intros Hc Hu. unfold bucket, Js.orS. destruct (country e) as [k|]; [| split; congruence].
  destruct (String.eqb_spec k ""); split; congruence.
Qed.

Lemma proto_is_inherited : "__proto__" ∈ objectPrototypeKeys.
Proof. apply elem_of_cons. right. apply elem_of_cons. by left. Qed.

(** The cell of a key that is no name of [Object.prototype] is the
    number of the entries of that key. *)
Lemma countryCounts_count (entries : list LocationRecord) (c : string) :
  c ∉ objectPrototypeKeys →
  countryCounts (stats entries) !! c
  = (if length (filter (fun e => bucket e = c) entries) is O then None
     else Some (Num (length (filter (fun e => bucket e = c) entries)))).
Proof.
  intros Hc. induction entries as [|e entries IH] using rev_ind; [done |].
  rewrite stats_snoc, filter_app, length_app. cbn [statsStep countryCounts].
  destruct (String.eqb_spec (bucket e) "__proto__") as [Hp | Hp].
  - rewrite filter_cons_False, filter_nil, Nat.add_0_r; [exact IH |].
    intros <-. apply Hc. rewrite Hp. apply proto_is_inherited.
  - destruct (decide (bucket e = c)) as [<- | Hne].
    + rewrite lookup_insert_eq, filter_cons_True, filter_nil by done.
      rewrite bool_decide_eq_false_2, IH by done. cbn [length].
      destruct (length (filter _ entries)) as [|n]; cbn [bump];
        rewrite Nat.add_1_r; reflexivity.
    + rewrite lookup_insert_ne, filter_cons_False, filter_nil, Nat.add_0_r by done. exact IH.
Qed.

(** The cell of a name of [Object.prototype] is never a number. *)
Lemma inherited_cell_text (entries : list LocationRecord) (c : string) :
  c ∈ objectPrototypeKeys →
  countryCounts (stats entries) !! c = None ∨ countryCounts (stats entries) !! c = Some Text.
Proof.
  intros Hc. induction entries as [|e entries IH] using rev_ind; [by left |].
  rewrite stats_snoc. cbn [statsStep countryCounts].
  destruct (String.eqb (bucket e) "__proto__"); [exact IH |].
  destruct (decide (bucket e = c)) as [<- | Hne].
  - right. rewrite lookup_insert_eq, bool_decide_eq_true_2 by done.
    by destruct IH as [-> | ->].
  - by rewrite lookup_insert_ne.
Qed.

Lemma inherited_cell (entries : list LocationRecord) (c : string) :
  c ∈ objectPrototypeKeys → nightsOf (countryCounts (stats entries) !! c) = 0%nat.
Proof. intros Hc. by destruct (inherited_cell_text entries c Hc) as [-> | ->]. Qed.

Lemma nightsOf_count (entries : list LocationRecord) (c : string) :
  c ∉ objectPrototypeKeys →
  nightsOf (countryCounts (stats entries) !! c)
  = length (filter (fun e => bucket e = c) entries).
Proof.
  intros Hc. rewrite countryCounts_count by done. by destruct (length _).
Qed.

Lemma totalNights_count (entries : list LocationRecord) :
  totalNights (countryCounts (stats entries))
  = length (filter (fun e => bucket e ∉ objectPrototypeKeys) entries).
Proof.
  induction entries as [|e entries IH] using rev_ind; [done |].
  rewrite stats_snoc, filter_app, length_app. cbn [statsStep countryCounts].
  destruct (String.eqb_spec (bucket e) "__proto__") as [Hp | Hp].
  - rewrite filter_cons_False, filter_nil, Nat.add_0_r; [exact IH |].
    intros Hn. apply Hn. rewrite Hp. apply proto_is_inherited.
  - pose proof (totalNights_update (countryCounts (stats entries)) (bucket e)
                  (bump (bool_decide (bucket e ∈ objectPrototypeKeys))
                     (countryCounts (stats entries) !! bucket e))) as Hup.
    destruct (decide (bucket e ∈ objectPrototypeKeys)) as [Hin | Hout].
    + rewrite filter_cons_False, filter_nil, Nat.add_0_r by (intros Hn; by apply Hn).
      rewrite bool_decide_eq_true_2 in Hup |- * by done.
      destruct (inherited_cell_text entries (bucket e) Hin) as [H0 | H0];
        rewrite H0 in Hup |- *; cbn [bump nightsOf] in *; lia.
    + rewrite filter_cons_True, filter_nil by done.
      rewrite bool_decide_eq_false_2 in Hup |- * by done.
      rewrite (nightsOf_count entries (bucket e) Hout) in Hup.
      rewrite (countryCounts_count entries (bucket e) Hout) in Hup |- *.
      destruct (length (filter (fun e0 => bucket e0 = bucket e) entries));
        cbn [bump nightsOf length] in *; lia.
Qed.

Lemma figure_count (entries : list LocationRecord) :
  ukNights (stats entries) = length (filter (fun e => country e = Some "UK") entries)
  ∧ italyDays (stats entries) = length (filter (fun e => country e = Some "Italy") entries)
  ∧ workDays (stats entries) = length (filter (fun e => Js.truthyB (working e) = true) entries).
Proof.
  induction entries as [|e entries (IHu & IHi & IHw)] using rev_ind; [done |].
  rewrite stats_snoc, !filter_app, !length_app. cbn [statsStep ukNights italyDays workDays].
  split_and!.
  - case_bool_decide; [rewrite filter_cons_True by done | rewrite filter_cons_False by done];
      rewrite filter_nil; cbn [length]; lia.
  - case_bool_decide; [rewrite filter_cons_True by done | rewrite filter_cons_False by done];
      rewrite filter_nil; cbn [length]; lia.
  - destruct (Js.truthyB (working e)) eqn:Hw;
      [rewrite filter_cons_True by done | rewrite filter_cons_False by congruence];
      rewrite filter_nil; cbn [length]; lia.
Qed.

Lemma not_inherited (c : string) :
  bool_decide (c ∈ objectPrototypeKeys) = false → c ∉ objectPrototypeKeys.
Proof. apply bool_decide_eq_false. Qed.

End SummaryFacts.

(** X20. The figures of the summary sheet.  The country table is a plain
    object: for every key that is no name of [Object.prototype] its row
    counts the entries of that country, those without a country under
    [Unrecorded], and the numbers of the table add up to the number of
    entries with such keys.  The figures for UK nights and Italy days
    are the rows of [UK] and [Italy], and the figure for work days
    counts the entries marked as working in whatever country. *)
Theorem summary_figures_are_counts (entries : list LocationRecord) :
  (∀ c, c ∉ objectPrototypeKeys →
        nightsOf (countryCounts (stats entries) !! c)
        = length (filter (fun e => bucket e = c) entries))
  ∧ totalNights (countryCounts (stats entries))
    = length (filter (fun e => bucket e ∉ objectPrototypeKeys) entries)
  ∧ ukNights (stats entries) = nightsOf (countryCounts (stats entries) !! "UK")
  ∧ italyDays (stats entries) = nightsOf (countryCounts (stats entries) !! "Italy")
  ∧ workDays (stats entries)
    = length (filter (fun e => Js.truthyB (working e) = true) entries).
Proof.
  destruct (figure_count entries) as (Hu & Hi & Hw). split_and!.
  - intros c. apply nightsOf_count.
  - apply totalNights_count.
  - rewrite Hu, nightsOf_count by (apply not_inherited; vm_compute; reflexivity).
    f_equal. apply filter_ext_elem. intros e _. symmetry. by apply bucket_country.
  - rewrite Hi, nightsOf_count by (apply not_inherited; vm_compute; reflexivity).
    f_equal. apply filter_ext_elem. intros e _. symmetry. by apply bucket_country.
  - done.
Qed.

(** Three days in Italy, the UK and nowhere, and a day whose country is
    the word [constructor]: the sheet shows a text for it and the
    numbers add up to three. *)
Lemma summary_with_an_inherited_name :
  countryCounts
    (stats [Sample.rome; Sample.london; Sample.blank;
            mkRecord None None (Some "constructor") None None None None None None None None None])
  = {[ "Italy" := Num 1; "UK" := Num 1; "Unrecorded" := Num 1; "constructor" := Text ]}
  ∧ totalNights
      (countryCounts
         (stats [Sample.rome; Sample.london; Sample.blank;
                 mkRecord None None (Some "constructor") None None None None None None None None None]))
    = 3%nat.
Proof. split; vm_compute; reflexivity. Qed.

(** ** The midnight push *)

Section PushFacts.

Variable send : nat → string → Outcome.

Lemma sendAll_counts (tokens : list string) :
  ∀ i st, (sent (sendAll send i tokens st) + failed (sendAll send i tokens st)
           = sent st + failed st + length tokens)%nat.
Proof.
  induction tokens as [|token rest IH]; intros i st; cbn [sendAll length]; [lia |].
  rewrite IH. destruct (send i token); cbn [sent failed]; lia.
Qed.

Lemma sendAll_stale (tokens : list string) (t : string) :
  ∀ i st, t ∈ staleTokens (sendAll send i tokens st)
          ↔ t ∈ staleTokens st
            ∨ ∃ j code, tokens !! j = Some t ∧ send (i + j)%nat t = Rejected code
                        ∧ staleCode code = true.
Proof.
  induction tokens as [|token rest IH]; intros i st; cbn [sendAll].
  - split; [by left |]. intros [? | (j & code & Hj & _)]; [done | by destruct j].
  - rewrite IH. split.
    + intros [Hst | (j & code & Hj & Hs & Hc)].
      * destruct (send i token) as [|code] eqn:Hs; cbn [staleTokens] in Hst; [by left |].
        destruct (staleCode code) eqn:Hc; [| by left].
        apply elem_of_app in Hst as [Hst | ->%list_elem_of_singleton]; [by left |].
        right. exists 0%nat, code. by rewrite Nat.add_0_r.
      * right. exists (S j), code. by rewrite Nat.add_succ_r.
    + intros [Hst | (j & code & Hj & Hs & Hc)].
      * left. destruct (send i token) as [|code]; cbn [staleTokens]; [done |].
        destruct (staleCode code); [| done]. apply elem_of_app. by left.
      * destruct j as [|j].
        -- injection Hj as ->. rewrite Nat.add_0_r in Hs. left. rewrite Hs, Hc.
           cbn [staleTokens]. apply elem_of_app. right. by apply list_elem_of_singleton.
        -- right. exists j, code. by rewrite Nat.add_succ_r in Hs.
Qed.

Lemma hasStaleToken_spec (stale : list string) (data : option string) :
  hasStaleToken stale data = true ↔ ∃ t, data = Some t ∧ t ∈ stale.
Proof.
  destruct data as [t|]; cbn [hasStaleToken].
  - rewrite bool_decide_eq_true. split; [eauto |]. by intros (? & [= <-] & ?).
  - split; [done | by intros (? & ? & _)].
Qed.

Lemma filter_all {A} (P : A → Prop) `{∀ x, Decision (P x)} (l : list A) :
  (∀ x, x ∈ l → P x) → filter P l = l.
Proof.
  induction l as [|a l IH]; intros Hall; [done |].
  rewrite filter_cons_True by (apply Hall, elem_of_cons; by left).
  f_equal. apply IH. intros x Hx. apply Hall, elem_of_cons. by right.
Qed.

End PushFacts.

(** X21. The midnight push, whatever the sends do: every token of the
    list is sent to once and counted as sent or as failed; a
    registration is removed exactly when it has a token to which a send
    was rejected with one of the two stale codes, so a registration
    without a token stays, and so does every registration when the
    sends fail for another reason; nothing is added to the registry. *)
Theorem push_removes_stale_tokens_only (send : nat → string → Outcome)
    (tokens : list (string * option string)) :
  (sent (sendMidnightPush send tokens).1 + failed (sendMidnightPush send tokens).1
   = length (tokenList tokens))%nat
  ∧ (∀ uid data, (uid, data) ∈ (sendMidnightPush send tokens).2 ↔
       (uid, data) ∈ tokens
       ∧ ¬ ∃ t, data = Some t ∧ rejectedAsStale send (tokenList tokens) t)
  ∧ ((∀ i t code, send i t = Rejected code → staleCode code = false) →
     (sendMidnightPush send tokens).2 = tokens).
Proof.
  unfold sendMidnightPush. cbn [fst snd].
  assert (∀ t, t ∈ staleTokens (sendAll send 0 (tokenList tokens) noPush)
               ↔ rejectedAsStale send (tokenList tokens) t) as Hstale.
  { intros t. rewrite sendAll_stale. cbn [noPush staleTokens]. rewrite elem_of_nil.
    unfold rejectedAsStale. split; [intros [[] | H] | intros H; right]; exact H. }
  split_and!.
  - by rewrite sendAll_counts.
  - intros uid data. unfold removeStale. rewrite list_elem_of_filter. cbn [snd].
    rewrite <- not_true_iff_false, hasStaleToken_spec. split.
    + intros [Hn Hin]. split; [done |]. intros (t & -> & Ht). apply Hn. exists t.
      split; [done | by apply Hstale].
    + intros [Hin Hn]. split; [| done]. intros (t & -> & Ht). apply Hn. exists t.
      split; [done | by apply Hstale].
  - intros Hok. unfold removeStale. apply filter_all. intros [uid data] _. cbn [snd].
    apply not_true_iff_false. intros (t & -> & (i & code & _ & Hs & Hc)%Hstale)%hasStaleToken_spec.
    rewrite (Hok _ _ _ Hs) in Hc. discriminate.
Qed.

Lemma push_removes_stale_tokens_only_server_down :
  (sendMidnightPush serverDown threeDevices).2 = threeDevices.
Proof.
  apply (proj2 (proj2 (push_removes_stale_tokens_only serverDown threeDevices))).
  intros i t code [= <-]. reflexivity.
Defined.

(** The stale token goes with both registrations that hold it. *)
Lemma push_first_is_stale :
  sendMidnightPush firstIsStale threeDevices
  = (mkPush 2 1 ["token-a"], [("uid-2", None); ("uid-3", Some "token-b")]).
Proof. vm_compute. reflexivity. Qed.


(** ** The days a run covers *)

Section CoverFacts.

Variable sc : Script.
Variable existing : gmap string LocationRecord.

Lemma writers_fresh (bookings : list Booking) (d : string) :
  existing !! d = None →
  writers sc existing d bookings = filter (fun b => b_date b = d) bookings.
Proof.
  intros Hd. unfold writers. apply filter_ext_elem. intros b _. rewrite Hd. cbn [hasNew]. tauto.
Qed.

Lemma fresh_day_lookup (bookings : list Booking) (d : string) :
  existing !! d = None →
  reconcile sc existing bookings !! d
  = mergeEntry sc None <$> last (filter (fun b => b_date b = d) bookings).
Proof.
  intros Hd. rewrite reconcile_lookup. unfold updateFirebase.
  rewrite updates_fold_last, Hd, writers_fresh by done. cbn [isManual updates emptyState].
  rewrite lookup_empty. by destruct (last _).
Qed.

Lemma last_filter_Some (bookings : list Booking) (d : string) :
  is_Some (last (filter (fun b => b_date b = d) bookings)) ↔ ∃ b, b ∈ bookings ∧ b_date b = d.
Proof.
  rewrite last_is_Some. split.
  - intros Hne. destruct (filter _ bookings) as [|b l] eqn:Hf; [done |].
    assert (b ∈ filter (fun b => b_date b = d) bookings) as Hb
      by (rewrite Hf; apply elem_of_cons; by left).
    apply list_elem_of_filter in Hb as [? ?]. by exists b.
  - intros (b & Hin & Hb) Hnil.
    assert (b ∈ filter (fun b => b_date b = d) bookings) as H by by apply list_elem_of_filter.
    rewrite Hnil in H. by apply elem_of_nil in H.
Qed.

End CoverFacts.

(** X22. After a run every date of a booking has a record, and no record
    was removed: the dates of the store are those it had and those of
    the bookings.  The record of a date the store did not have is built
    from the last booking of that date alone: what a flight and a hotel
    night of one new date would both add, only the later of the two
    adds in this run. *)
Theorem every_booked_day_gets_a_record (sc : Script) (existing : gmap string LocationRecord)
    (bookings : list Booking) (d : string) :
  (is_Some (reconcile sc existing bookings !! d)
   ↔ is_Some (existing !! d) ∨ ∃ b, b ∈ bookings ∧ b_date b = d)
  ∧ (existing !! d = None →
     reconcile sc existing bookings !! d
     = mergeEntry sc None <$> last (filter (fun b => b_date b = d) bookings)).
Proof.
  split; [| by apply fresh_day_lookup].
  destruct (existing !! d) as [r|] eqn:Hd.
  - split; [intros _; left; by eexists |]. intros _. rewrite reconcile_lookup.
    destruct (updates _ !! d); rewrite ?Hd; by eexists.
  - rewrite fresh_day_lookup by done. rewrite <- (last_filter_Some bookings d).
    rewrite fmap_is_Some. split; [by right |]. intros [[? [=]] | H]; done.
Qed.

(** The flight and the hotel night of one new day: the record has the
    hotel, the flight code is not in it. *)
Lemma every_booked_day_gets_a_record_new_day :
  reconcile SyncBookings Sample.store
    [Sample.flightTo "2025-07-02" "BA576" "Milan" "Italy" calendar "BA576 to MXP";
     Sample.milanNight] !! "2025-07-02"
  = mergeEntry SyncBookings None
      <$> last (filter (fun b => b_date b = "2025-07-02")
                  [Sample.flightTo "2025-07-02" "BA576" "Milan" "Italy" calendar "BA576 to MXP";
                   Sample.milanNight]).
Proof.
  apply (proj2 (every_booked_day_gets_a_record SyncBookings Sample.store
                  [Sample.flightTo "2025-07-02" "BA576" "Milan" "Italy" calendar "BA576 to MXP";
                   Sample.milanNight] "2025-07-02")).
  vm_compute. reflexivity.
Defined.

Lemma new_day_keeps_the_later_booking_only :
  flights <$> (reconcile SyncBookings Sample.store
                 [Sample.flightTo "2025-07-02" "BA576" "Milan" "Italy" calendar "BA576 to MXP";
                  Sample.milanNight] !! "2025-07-02")
  = Some (Some "").
Proof. vm_compute. reflexivity. Qed.

(** ** The name of a hotel *)

Section HotelNameFacts.

(** [trimStart] on the code units: the leading white space goes. *)
Lemma trimStart_split (s : string) :
  ∃ pre, list_ascii_of_string s = pre ++ list_ascii_of_string (trimStart s)
         ∧ ∀ c, head (list_ascii_of_string (trimStart s)) = Some c → Js.isSpace c = false.
Proof.
  induction s as [|a s (pre & Hs & Hh)].
  - exists []. split; [done |]. intros c [=].
  - cbn [trimStart]. destruct (Js.isSpace a) eqn:Ha.
    + exists (a :: pre). split; [| done]. cbn. by rewrite Hs.
    + exists []. split; [done |]. intros c [= <-]. done.
Qed.

Lemma list_of_revString (s : string) :
  list_ascii_of_string (revString s) = rev (list_ascii_of_string s).
Proof. unfold revString. apply list_ascii_of_string_of_list_ascii. Qed.

Lemma head_rev {A} (l : list A) : head (rev l) = last l.
Proof.
  induction l as [|a l IH] using rev_ind; [done |].
  by rewrite rev_app_distr, last_snoc.
Qed.

Lemma last_rev {A} (l : list A) : last (rev l) = head l.
Proof. by rewrite <- head_rev, rev_involutive. Qed.

Lemma trim_trimmed (s : string) : trimmed (trim s).
Proof.
  unfold trim, trimmed. rewrite list_of_revString, head_rev, last_rev.
  destruct (trimStart_split s) as (pre1 & _ & Hhead1).
  destruct (trimStart_split (revString (trimStart s))) as (pre2 & Hs2 & Hhead2).
  split; [| exact Hhead2].
  set (B := list_ascii_of_string (trimStart (revString (trimStart s)))) in *.
  rewrite list_of_revString in Hs2.
  apply (f_equal (@rev ascii)) in Hs2. rewrite rev_involutive, rev_app_distr in Hs2.
  intros c Hc. apply Hhead1. rewrite Hs2.
  rewrite <- head_rev in Hc. destruct (rev B) as [|b l]; [done |]. exact Hc.
Qed.

Lemma firstHotelName_bounds (pats : list re) (text name : string) :
  firstHotelName pats text = Some name →
  (2 < String.length name < 80)%nat ∧ trimmed name.
Proof.
  induction pats as [|pat pats IH]; cbn [firstHotelName]; [done |].
  destruct (exec pat text) as [m|]; [| exact IH].
  destruct (2 <? _)%nat eqn:Hlo; [| exact IH].
  destruct (_ <? 80)%nat eqn:Hhi; [| exact IH].
  cbn [andb]. intros [= <-]. apply Nat.ltb_lt in Hlo, Hhi. split; [lia | apply trim_trimmed].
Qed.

End HotelNameFacts.

(** X23. The name [extractHotelName] returns has three to 79 code units
    and neither begins nor ends with white space, whatever the text and
    whichever of the three expressions found it. *)
Theorem hotel_name_is_trimmed_and_bounded (text name : string) :
  extractHotelName text = Some name →
  (2 < String.length name < 80)%nat ∧ trimmed name.
Proof.
  unfold extractHotelName. destruct (nonEmpty text); [| done]. apply firstHotelName_bounds.
Qed.

Lemma hotel_name_is_trimmed_and_bounded_roma :
  (2 < String.length "Roma  Rome" < 80)%nat ∧ trimmed "Roma  Rome".
Proof.
  apply (hotel_name_is_trimmed_and_bounded "Hotel Roma  Rome"). vm_compute. reflexivity.
Defined.

(** ** The two readers of the calendar *)

Section CalendarFacts.

Variable newDate : string → option Date.

Lemma filter_fmap_hotel (allText location subject : string) (dates : list string) :
  filter (fun b => String.leb TAX_YEAR_START (b_date b) = true)
    (hotelFromEvent allText location subject <$> dates)
  = hotelFromEvent allText location subject <$> inTaxYear dates.
Proof.
  unfold inTaxYear. induction dates as [|d dates IH]; [done |].
  cbn [fmap list_fmap]. destruct (String.leb TAX_YEAR_START d) eqn:Hd.
  - rewrite !filter_cons_True by done. cbn [fmap list_fmap]. f_equal. exact IH.
  - rewrite !filter_cons_False by (cbn [hotelFromEvent b_date]; congruence). exact IH.
Qed.

End CalendarFacts.

(** X24. The two scripts read the calendar alike from the tax year on:
    what the backfill script makes of an event is what the sync script
    makes of it, without the nights before [TAX_YEAR_START], and nothing
    at all when the event starts before it, also when nights of the
    stay fall into the tax year. *)
Theorem backfill_reads_the_calendar_as_sync_does (newDate : string → option Date)
    (event : CalendarEvent) :
  processEvent newDate BackfillBookings event
  = match parseDate newDate (ev_start event) with
    | Some evStart =>
        if String.ltb (fmtDate evStart) TAX_YEAR_START then []
        else filter (fun b => String.leb TAX_YEAR_START (b_date b) = true)
               (processEvent newDate SyncBookings event)
    | None => []
    end.
Proof.
  unfold processEvent. destruct (parseDate newDate (ev_start event)) as [evStart|].
  2: { destruct (isCarRental _); [done |]. by destruct (negb _ && negb _). }
  destruct (String.ltb (fmtDate evStart) TAX_YEAR_START) eqn:Hlt.
  { destruct (isCarRental _); [done |]. by destruct (negb _ && negb _). }
  destruct (isCarRental _); [done |]. destruct (negb _ && negb _); [done |].
  rewrite filter_app. f_equal.
  - destruct (test calendarFlightPattern _); [| done].
    rewrite filter_cons_True; [done |]. cbn [flightFromEvent b_date]. by apply not_ltb_leb.
  - destruct (parseDate newDate (ev_end event)); [| done].
    destruct (test calendarHotelPattern _); [| done]. by rewrite filter_fmap_hotel.
Qed.

(** ** A second run of a whole list *)

Section RerunFacts.

Variable sc : Script.

Lemma filter_none {A} (P : A → Prop) `{∀ x, Decision (P x)} (l : list A) :
  (∀ x, x ∈ l → ¬ P x) → filter P l = [].
Proof.
  induction l as [|a l IH]; intros Hnone; [done |].
  rewrite filter_cons_False by (apply Hnone, elem_of_cons; by left).
  apply IH. intros x Hx. apply Hnone, elem_of_cons. by right.
Qed.

(** With one booking for a date at most, the writers of a date are found
    in the booking alone. *)
Lemma writers_single (existing : gmap string LocationRecord) (bookings : list Booking)
    (b : Booking) :
  NoDup (b_date <$> bookings) → b ∈ bookings →
  writers sc existing (b_date b) bookings = writers sc existing (b_date b) [b].
Proof.
  unfold writers. induction bookings as [|x l IH]; [by intros _ ?%elem_of_nil |].
  cbn [fmap list_fmap]. intros [Hx Hl]%NoDup_cons [-> | Hb]%elem_of_cons.
  - change (x :: l) with ([x] ++ l). rewrite filter_app, (filter_none _ l), app_nil_r; [done |].
    intros y Hy [Hd _]. apply Hx. rewrite <- Hd. apply list_elem_of_fmap. by exists y.
  - rewrite filter_cons_False; [by apply IH |].
    intros [Hd _]. apply Hx. rewrite Hd. apply list_elem_of_fmap. by exists b.
Qed.

Lemma run_lookup_single (existing : gmap string LocationRecord) (bookings : list Booking)
    (b : Booking) :
  NoDup (b_date <$> bookings) → b ∈ bookings →
  reconcile sc existing bookings !! b_date b = reconcile sc existing [b] !! b_date b.
Proof.
  intros Hnd Hb. rewrite !reconcile_lookup. unfold updateFirebase.
  rewrite !updates_fold_last, (writers_single existing bookings b Hnd Hb). done.
Qed.

Lemma silent_step (store : gmap string LocationRecord) (b : Booking) :
  updates (updateFirebase sc store [b]) = ∅ →
  isManual (store !! b_date b) = true
  ∨ hasNew (store !! b_date b) (mergeEntry sc (store !! b_date b) b) = false.
Proof.
  change (updateFirebase sc store [b]) with (updateStep sc store emptyState b).
  unfold updateStep. destruct (isManual _); [by left |].
  destruct (hasNew _ _); [| by right]. cbn [updates emptyState].
  intros H. apply (f_equal (fun m => m !! b_date b)) in H.
  by rewrite lookup_insert_eq, lookup_empty in H.
Qed.

Lemma rerun_silent (existing : gmap string LocationRecord) (bookings : list Booking) :
  NoDup (b_date <$> bookings) →
  Forall (fun b => normalised (b_flights b)) bookings →
  updates (updateFirebase sc (reconcile sc existing bookings) bookings) = ∅.
Proof.
  intros Hnd Hnorm. apply map_eq. intros d. rewrite lookup_empty.
  destruct (updateFirebase_lookup sc (reconcile sc existing bookings) bookings d)
    as [H | (b & Hin & <- & Hman & Hnew & _)]; [done |].
  rewrite (run_lookup_single existing bookings b Hnd Hin) in Hman, Hnew.
  assert (normalised (b_flights b)) as Hb by by eapply Forall_forall in Hnorm.
  pose proof (second_run_silent sc existing b Hb) as Hsilent.
  apply silent_step in Hsilent as [H | H]; congruence.
Qed.

End RerunFacts.

(** X25. A run over bookings of pairwise distinct dates, with flights in
    normal form as the readers write them, is idempotent: run again
    over the store it left, the same bookings emit no update and the
    store stays as it is. *)
Theorem run_with_one_booking_a_day_is_idempotent (sc : Script)
    (existing : gmap string LocationRecord) (bookings : list Booking) :
  NoDup (b_date <$> bookings) →
  Forall (fun b => normalised (b_flights b)) bookings →
  updates (updateFirebase sc (reconcile sc existing bookings) bookings) = ∅
  ∧ reconcile sc (reconcile sc existing bookings) bookings = reconcile sc existing bookings.
Proof.
  intros Hnd Hnorm. pose proof (rerun_silent sc existing bookings Hnd Hnorm) as Hempty.
  split; [exact Hempty | by apply silent_store].
Qed.

Lemma run_with_one_booking_a_day_is_idempotent_journey :
  updates (updateFirebase SyncBookings
             (reconcile SyncBookings Sample.store [Journey.flightOut; Journey.flightBack])
             [Journey.flightOut; Journey.flightBack]) = ∅
  ∧ reconcile SyncBookings
      (reconcile SyncBookings Sample.store [Journey.flightOut; Journey.flightBack])
      [Journey.flightOut; Journey.flightBack]
    = reconcile SyncBookings Sample.store [Journey.flightOut; Journey.flightBack].
Proof.
  apply (run_with_one_booking_a_day_is_idempotent SyncBookings Sample.store
           [Journey.flightOut; Journey.flightBack]).
  - apply (bool_decide_unpack _). vm_compute. exact I.
  - repeat constructor.
    + exists ["BA576"]. split_and!; [done | apply NoDup_singleton | repeat constructor; discriminate].
    + exists ["AZ204"]. split_and!; [done | apply NoDup_singleton | repeat constructor; discriminate].
Defined.

(** With two bookings for one new day the second run does add: the
    flight code the first run left out. *)
Lemma second_run_adds_the_earlier_booking :
  flights <$> (reconcile SyncBookings
                 (reconcile SyncBookings Sample.store
                    [Sample.flightTo "2025-07-02" "BA576" "Milan" "Italy" calendar "BA576 to MXP";
                     Sample.milanNight])
                 [Sample.flightTo "2025-07-02" "BA576" "Milan" "Italy" calendar "BA576 to MXP";
                  Sample.milanNight] !! "2025-07-02")
  = Some (Some "BA576").
Proof. vm_compute. reflexivity. Qed.

(** ** The order of the formatted dates *)

Section DateOrderFacts.

Lemma days_increase_2025_2028 : allDays dayIncreases 20089 1461 = true.
Proof. vm_compute. reflexivity. Qed.

Lemma day_increases (day : Z) :
  20089 ≤ day ≤ 21549 →
  String.compare (fmtDate (day * msPerDay)) (fmtDate ((day + 1) * msPerDay)) = Lt
  ∧ String.length (fmtDate (day * msPerDay)) = 10%nat.
Proof.
  intros Hd. pose proof (allDays_spec _ _ _ day days_increase_2025_2028 ltac:(lia)) as H.
  unfold dayIncreases in H. apply andb_true_iff in H as [Hlt Hlen].
  apply Nat.eqb_eq in Hlen. split; [| done].
  unfold String.ltb in Hlt. by destruct (String.compare _ _).
Qed.

Lemma later_day_is_above (day : Z) (n : nat) :
  20089 ≤ day → day + Z.of_nat n ≤ 21549 →
  String.compare (fmtDate (day * msPerDay)) (fmtDate ((day + Z.of_nat (S n)) * msPerDay)) = Lt.
Proof.
  intros Hlo. induction n as [|n IH]; intros Hhi.
  - apply day_increases. lia.
  - eapply compare_lt_trans; [apply IH; lia |].
    replace (day + Z.of_nat (S (S n))) with (day + Z.of_nat (S n) + 1) by lia.
    apply day_increases. lia.
Qed.

Lemma compare_days (d1 d2 : Z) :
  20089 ≤ d1 ≤ 21549 → 20089 ≤ d2 ≤ 21549 →
  String.compare (fmtDate (d1 * msPerDay)) (fmtDate (d2 * msPerDay)) = (d1 ?= d2).
Proof.
  intros H1 H2. destruct (Z.compare_spec d1 d2) as [-> | Hlt | Hgt].
  - apply compare_refl.
  - replace d2 with (d1 + Z.of_nat (S (Z.to_nat (d2 - d1 - 1)))) by lia.
    apply later_day_is_above; lia.
  - rewrite String.compare_antisym.
    replace d1 with (d2 + Z.of_nat (S (Z.to_nat (d1 - d2 - 1)))) by lia.
    rewrite later_day_is_above by lia. reflexivity.
Qed.

Lemma compare_app_l (p a b : string) : String.compare (p +:+ a) (p +:+ b) = String.compare a b.
Proof.
  induction p as [|c p IH]; [done |]. rewrite !append_cons. cbn [String.compare].
  unfold Ascii.compare. by rewrite N.compare_refl.
Qed.

Lemma compare_app_r (a b s : string) :
  String.length a = String.length b →
  String.compare (a +:+ s) (b +:+ s) = String.compare a b.
Proof.
  revert b. induction a as [|x a IH]; intros [|y b]; try done.
  - intros _. apply compare_refl.
  - intros [= Hlen]. rewrite !append_cons. cbn [String.compare].
    destruct (Ascii.compare x y); [by apply IH | done | done].
Qed.

End DateOrderFacts.

(** X26. For time values of the years 2025 to 2028 the order of the
    formatted dates as strings is the order of the days, and so is the
    order of the names of their archives; two of them have the same
    formatted date exactly when they lie on the same day. *)
Theorem formatted_dates_order_as_days (t1 t2 : Date) :
  2025 ≤ getFullYear t1 ≤ 2028 → 2025 ≤ getFullYear t2 ≤ 2028 →
  String.leb (fmtDate t1) (fmtDate t2) = (dayOf t1 <=? dayOf t2)
  ∧ String.leb (backupName (fmtDate t1)) (backupName (fmtDate t2)) = (dayOf t1 <=? dayOf t2)
  ∧ (fmtDate t1 = fmtDate t2 ↔ dayOf t1 = dayOf t2).
Proof.
  intros H1%year_window H2%year_window.
  rewrite (fmtDate_day t1), (fmtDate_day t2).
  pose proof (compare_days (dayOf t1) (dayOf t2) H1 H2) as Hc.
  assert (String.leb (fmtDate (dayOf t1 * msPerDay)) (fmtDate (dayOf t2 * msPerDay))
          = (dayOf t1 <=? dayOf t2)) as Hleb.
  { unfold String.leb, Z.leb. by rewrite Hc. }
  split_and!.
  - exact Hleb.
  - rewrite <- Hleb. unfold String.leb, backupName.
    rewrite compare_app_l, compare_app_r; [done |].
    by rewrite (proj2 (day_increases _ H1)), (proj2 (day_increases _ H2)).
  - split.
    + intros Heq. rewrite Heq, compare_refl in Hc. symmetry in Hc. by apply Z.compare_eq in Hc.
    + by intros ->.
Qed.

Lemma formatted_dates_order_as_days_june :
  String.leb (fmtDate 1748790000000) (fmtDate 1749034800000)
  = (dayOf 1748790000000 <=? dayOf 1749034800000)
  ∧ String.leb (backupName (fmtDate 1748790000000)) (backupName (fmtDate 1749034800000))
    = (dayOf 1748790000000 <=? dayOf 1749034800000)
  ∧ (fmtDate 1748790000000 = fmtDate 1749034800000
     ↔ dayOf 1748790000000 = dayOf 1749034800000).
Proof.
  apply (formatted_dates_order_as_days 1748790000000 1749034800000); vm_compute; split; discriminate.
Defined.

(** ** The hotel nights of a message *)

Section MailStayFacts.

Lemma last_greatest (l : list Z) (z : Z) :
  StronglySorted Z.le l → last l = Some z → ∀ d, d ∈ l → d ≤ z.
Proof.
  induction 1 as [|a l Hl IH Ha]; [done |].
  destruct l as [|b l'].
  - intros [= ->] d Hd. apply list_elem_of_singleton in Hd as ->. lia.
  - change (last (a :: b :: l')) with (last (b :: l')). intros Hz d [-> | Hd]%elem_of_cons.
    + assert (z ∈ b :: l') as Hin by (apply last_Some_elem_of, Hz).
      by eapply Forall_forall in Ha.
    + by apply IH.
Qed.

Lemma hotelNights_inv (sc : Script) (dates : list Date) (dateStr : string) :
  dateStr ∈ hotelNightsOfEmail sc dates →
  ∃ checkIn lastDate,
    head dates = Some checkIn ∧ last dates = Some lastDate
    ∧ (sc = SyncBookings → (2 ≤ length dates)%nat)
    ∧ dateStr ∈ nights checkIn (if (1 <? length dates)%nat then lastDate else checkIn + 86400000).
Proof.
  destruct sc; cbn [hotelNightsOfEmail].
  - destruct (2 <=? length dates)%nat eqn:Hlen; [| by intros ?%elem_of_nil].
    apply Nat.leb_le in Hlen.
    destruct (head dates) as [checkIn|]; [| by intros ?%elem_of_nil].
    destruct (last dates) as [lastDate|]; [| by intros ?%elem_of_nil].
    intros Hd. exists checkIn, lastDate. split_and!; try done.
    by rewrite (proj2 (Nat.ltb_lt 1 (length dates))) by lia.
  - destruct (head dates) as [checkIn|]; [| by intros ?%elem_of_nil].
    destruct (last dates) as [lastDate|]; [| by intros ?%elem_of_nil].
    intros Hd%list_elem_of_filter. exists checkIn, lastDate. split_and!; try done. tauto.
Qed.

End MailStayFacts.

(** X27. The hotel nights of a message are nights of the stay from the
    earliest to the latest of its kept dates, whatever those dates mean
    in the text: a date of booking or of payment in the message moves
    the check-in or the check-out.  The sync script wants two kept
    dates; with one alone the backfill script takes a stay of one day. *)
Theorem mail_stay_spans_the_dates (newDate : string → option Date) (sc : Script)
    (folderType : BookingType) (msg : Message) (b : Booking) :
  b ∈ processMessage newDate sc folderType msg → b_type b = hotel →
  ∃ checkIn lastDate,
    checkIn ∈ validDates newDate sc (messageText msg)
    ∧ lastDate ∈ validDates newDate sc (messageText msg)
    ∧ (∀ d, d ∈ validDates newDate sc (messageText msg) → checkIn ≤ d ≤ lastDate)
    ∧ (sc = SyncBookings → (2 ≤ length (validDates newDate sc (messageText msg)))%nat)
    ∧ b_date b ∈ nights checkIn
                   (if (1 <? length (validDates newDate sc (messageText msg)))%nat then lastDate
                    else checkIn + 86400000).
Proof.
  intros [(first & _ & ->) | (dateStr & Hd & ->)]%processMessage_inv Ht; [discriminate |].
  apply hotelNights_inv in Hd as (checkIn & lastDate & Hhead & Hlast & Hlen & Hd).
  exists checkIn, lastDate. split_and!.
  - by apply head_Some_elem_of.
  - by apply last_Some_elem_of.
  - intros d Hin. split.
    + exact (head_least _ _ (validDates_sorted newDate sc _) Hhead d Hin).
    + exact (last_greatest _ _ (validDates_sorted newDate sc _) Hlast d Hin).
  - exact Hlen.
  - exact Hd.
Qed.

(** The confirmation of a stay from 12 to 14 June that was booked on
    10 June: the nights start on 10 June. *)
Lemma mail_stay_spans_the_dates_booked :
  ∃ checkIn lastDate,
    checkIn ∈ validDates isoDate SyncBookings (messageText Journey.stayMail)
    ∧ lastDate ∈ validDates isoDate SyncBookings (messageText Journey.stayMail)
    ∧ (∀ d, d ∈ validDates isoDate SyncBookings (messageText Journey.stayMail) →
         checkIn ≤ d ≤ lastDate)
    ∧ (SyncBookings = SyncBookings →
       (2 ≤ length (validDates isoDate SyncBookings (messageText Journey.stayMail)))%nat)
    ∧ b_date Journey.nightBooked
      ∈ nights checkIn
          (if (1 <? length (validDates isoDate SyncBookings (messageText Journey.stayMail)))%nat
           then lastDate else checkIn + 86400000).
Proof.
  apply (mail_stay_spans_the_dates isoDate SyncBookings hotel Journey.stayMail
           Journey.nightBooked).
  - vm_compute. apply list_elem_of_here.
  - reflexivity.
Defined.

(** ** The shape of an extracted city *)

Section CityFacts.

Lemma rep_done (m : mstate → cont → option mstate) (greedy : bool) (n : nat) (s : mstate)
    (k : cont) :
  rep m greedy 0 (Some 0%nat) n s k = k s.
Proof. by destruct n. Qed.

(** An optional part is taken, consuming input, or left out. *)
Lemma run_opt_inv (r : re) (s : mstate) (k : cont) (z : mstate) :
  run (opt r) s k = Some z →
  run r s (fun s' => if Nat.eqb (length (rest s')) (length (rest s)) then None else k s') = Some z
  ∨ k s = Some z.
Proof.
  unfold opt. cbn [run]. rewrite Nat.add_0_l, Nat.add_1_r. cbn [rep Nat.eqb andb].
  rewrite (run_shrinking r s _
             (fun s' => if Nat.eqb (length (rest s')) (length (rest s)) then None else k s')).
  - destruct (run r s _) as [z'|]; [intros [= ->]; by left | by right].
  - intros s' _. destruct (Nat.eqb _ _); [done |]. cbn [fmap option_fmap option_map Nat.pred].
    apply rep_done.
Qed.

Lemma consumed_prefix (s : mstate) (pre t : list ascii) (b : option ascii)
    (c : list (nat * string)) :
  rest s = pre ++ t → consumed s (mkM b t c) = string_of_list_ascii pre.
Proof.
  intros Hs. unfold consumed. cbn [rest]. rewrite Hs, length_app.
  replace (length pre + length t - length t)%nat with (length pre) by lia.
  by rewrite take_app_length.
Qed.

(** A capitalised word at the head of the input. *)
Lemma run_word_inv (s : mstate) (k : cont) (z : mstate) :
  run (Seq upperAZ (plus lowerAZ)) s k = Some z →
  ∃ w t b, capitalised w ∧ rest s = w ++ t ∧ k (mkM b t (caps s)) = Some z.
Proof.
  change (run (Seq ?r1 ?r2) s k) with (run r1 s (fun s' => run r2 s' k)).
  intros (u & t1 & Hs & Hu & H)%run_Chr_inv.
  apply run_Rep_Chr_inv in H as (ls & t2 & b & Ht1 & Hls & Hlen & _ & H); [| done].
  cbn [rest caps] in *. exists (u :: ls), t2, b. split_and!.
  - exists u, ls. split_and!; try done. intros ->. cbn in Hlen. lia.
  - by rewrite Hs, Ht1.
  - done.
Qed.

Lemma cityPattern_inv (s0 z : mstate) :
  run cityPattern s0 Some = Some z → ∃ city, caps z = (1%nat, city) :: caps s0 ∧ cityShape city.
Proof.
  unfold cityPattern. cbn [seqs lit].
  change (run (Seq Bnd ?r) s0 Some)
    with (if xorb (isWordAt (before s0)) (isWordAt (head (rest s0))) then run r s0 Some else None).
  destruct (xorb _ _); [| done].
  change (run (Seq (Seq ?a ?b) ?r) s0 Some)
    with (run a s0 (fun s1 => run b s1 (fun s2 => run r s2 Some))).
  intros (ci & t1 & _ & _ & H)%run_Chr_inv.
  apply run_Chr_inv in H as (cn & t2 & _ & _ & H). cbn [caps] in H.
  change (run (Seq ?a ?r) ?s Some) with (run a s (fun s' => run r s' Some)) in H.
  apply run_Rep_Chr_inv in H as (sp0 & t3 & b3 & _ & _ & _ & _ & H); [| done].
  cbn [caps] in H. set (s3 := mkM b3 t3 (caps s0)) in *.
  change (run (Grp 1 ?g) s3 Some)
    with (run g s3 (fun s' => Some (mkM (before s') (rest s') ((1%nat, consumed s3 s') :: caps s'))))
    in H.
  cbn [seqs] in H.
  change (run (Seq ?a (Seq ?b ?r)) s3 ?k)
    with (run (Seq a b) s3 (fun s' => run r s' k)) in H.
  apply run_word_inv in H as (w1 & t5 & b5 & Hw1 & Hs3 & H).
  apply run_opt_inv in H as [H | H].
  - change (run (Seq ?a (Seq ?b ?c)) ?s ?k)
      with (run a s (fun s' => run (Seq b c) s' k)) in H.
    apply run_Rep_Chr_inv in H as (sp & t6 & b6 & Ht5 & Hsp & Hlen & _ & H); [| done].
    apply run_word_inv in H as (w2 & t8 & b8 & Hw2 & Ht6 & H).
    cbn [rest caps] in *. destruct (Nat.eqb _ _); [done |]. injection H as <-.
    exists (string_of_list_ascii (w1 ++ sp ++ w2)). split.
    + cbn [caps before rest]. do 2 f_equal. apply consumed_prefix.
      by rewrite Hs3, Ht5, Ht6, <- !app_assoc.
    + exists w1. split; [done |]. right. exists sp, w2. split_and!; try done.
      intros ->. cbn in Hlen. lia.
  - injection H as <-. exists (string_of_list_ascii w1). split.
    + cbn [caps before rest]. do 2 f_equal. by apply consumed_prefix.
    + exists w1. split; [done | by left].
Qed.

End CityFacts.

(** X28. The city [extractCity] returns is a capitalised word, an
    upper-case letter followed by lower-case letters, or two such words
    with white space between them, whatever the text: no digit, no
    punctuation and no third word is part of it. *)
Theorem extracted_city_is_capitalised (text city : string) :
  extractCity text = Some city → cityShape city.
Proof.
  unfold extractCity. destruct (nonEmpty text); [| done].
  destruct (exec cityPattern text) as [m|] eqn:Hm; [| done].
  unfold exec in Hm. apply execAt_inv in Hm as (prev & s & Hrun).
  apply cityPattern_inv in Hrun as (c & Hcaps & Hshape).
  unfold group. rewrite Hcaps. cbn [lookupCap Nat.eqb caps]. by intros [= <-].
Qed.

Lemma extracted_city_is_capitalised_new_york : cityShape "New York".
Proof.
  apply (extracted_city_is_capitalised "Landing in New York at 9"). vm_compute. reflexivity.
Defined.

(** The word after [in] is taken for a city whatever it names. *)
Lemma a_month_is_taken_for_a_city : extractCity "Hotel Roma, arriving in June" = Some "June".
Proof. vm_compute. reflexivity. Qed.
